(** * marketplace-service: repository index cache, synchronisation and query engine

    A shallow embedding of the Go packages [pkg/helm] and [pkg/server/param]
    and the properties of their documented behaviour.

    Conventions of the embedding:
    - a Go [int]/[int64] is a [Z], every arithmetic operation is followed by
      the two's-complement wrap-around [wrap];
    - a Go [string] is a sequence of bytes: Rocq's [string] (a list of 8-bit
      [ascii]); [a[i]] is the i-th byte;
    - a Go [map[string]T] is a [gmap string T]; ranging over it visits the
      entries in an order the language leaves open, here [map_to_list];
    - a [*T] that the code never tests against nil is a [T]; a pointer that
      is tested is an [option T];
    - the cluster, the network and the parsers of third-party libraries are
      oracles collected in a record [Env]; process-wide variables are the
      fields of a record [World] that every operation threads through. *)

From Stdlib Require Import ZArith Bool Ascii String List Lia Permutation Sorted DecimalString.
From stdpp Require Import base gmap strings list fin_maps fin_sets sorting.

Local Open Scope Z_scope.

(** ** Go integers *)

Definition int := Z.
Definition rune := Z.

Definition maxInt : Z := 2 ^ 63 - 1.
Definition minInt : Z := - 2 ^ 63.

(** Two's-complement wrap-around of a 64-bit signed integer. *)
Definition wrap (z : Z) : int := (z + 2 ^ 63) mod 2 ^ 64 - 2 ^ 63.

Definition inInt (z : Z) : Prop := minInt <= z <= maxInt.

Definition int_add (a b : int) : int := wrap (a + b).
Definition int_sub (a b : int) : int := wrap (a - b).
Definition int_mul (a b : int) : int := wrap (a * b).
(** Go's [/] truncates towards zero; the divisor is never zero where it is used. *)
Definition int_div (a b : int) : int := wrap (Z.quot a b).

(** [len(s)] of a slice and of a string. *)
Definition len {A} (l : list A) : int := Z.of_nat (List.length l).
Definition slen (s : string) : int := Z.of_nat (String.length s).

(** The slice expression [s[low:high]] on a slice whose capacity is its
    length: a run-time panic ([None]) unless [0 <= low <= high <= len(s)]. *)
Definition slice {A} (s : list A) (low high : int) : option (list A) :=
  if (0 <=? low) && (low <=? high) && (high <=? len s)
  then Some (take (Z.to_nat (high - low)) (drop (Z.to_nat low) s))
  else None.

(** ** Package [unicode], on the Latin-1 range

    [customCompare] converts a single byte [a[i]] to a rune, so the only
    runes that reach the predicates are 0..255, where the Go library answers
    from its Latin-1 property table.  The table is transcribed below by
    category; outside 0..255 the definitions answer [false]. *)
Module unicode.

Definition between (lo hi r : rune) : bool := (lo <=? r) && (r <=? hi).

Definition one_of (rs : list rune) (r : rune) : bool :=
  existsb (Z.eqb r) rs.

(** Categories Lu, Ll and Lo. *)
Definition IsLetter (r : rune) : bool :=
  between 65 90 r || between 97 122 r
  || one_of [170; 181; 186] r
  || between 192 214 r || between 216 246 r || between 248 255 r.

(** Category Nd only: [IsDigit] is ['0' <= r && r <= '9'] on Latin-1. *)
Definition IsDigit (r : rune) : bool := between 48 57 r.

(** Category P. *)
Definition IsPunct (r : rune) : bool :=
  between 33 35 r || between 37 42 r || between 44 47 r
  || between 58 59 r || between 63 64 r || between 91 93 r
  || one_of [95; 123; 125; 161; 167; 171; 182; 183; 187; 191] r.

(** Category S. *)
Definition IsSymbol (r : rune) : bool :=
  one_of [36; 43; 94; 96; 124; 126] r || between 60 62 r
  || between 162 166 r || one_of [168; 169; 172] r || between 174 177 r
  || one_of [180; 184; 215; 247] r.

(** [unicode.ToLower]: the upper-case letters of Latin-1 are 32 below their
    lower-case forms; every other rune of the range is its own lower case. *)
Definition ToLower (r : rune) : rune :=
  if between 65 90 r || between 192 214 r || between 216 222 r
  then r + 32 else r.

End unicode.

(** ** Package [strings] and [fmt], the functions the code uses *)

Definition byte_of (c : ascii) : rune := Z.of_N (N_of_ascii c).

Definition lower_byte (c : ascii) : ascii :=
  if unicode.between 65 90 (byte_of c)
  then ascii_of_N (N_of_ascii c + 32) else c.

(** [strings.ToLower] on ASCII text, the first branch of the Go function:
    when every byte of the string is below [utf8.RuneSelf] the letters
    [A..Z] become [a..z] and the rest stays.  On a string with a byte of 128
    or more Go decodes UTF-8 and maps every rune with [unicode.ToLower];
    there this definition, which leaves such bytes as they are, is not the
    Go function.  Where a property depends on what the lower case of a
    text is, it is stated for the texts that [isASCII] accepts. *)
Fixpoint strings_ToLower (s : string) : string :=
  match s with
  | EmptyString => EmptyString
  | String c s' => String (lower_byte c) (strings_ToLower s')
  end.

(** Every byte is below [utf8.RuneSelf] (128): the test that
    [strings.ToLower] makes before it takes its ASCII branch. *)
Fixpoint isASCII (s : string) : bool :=
  match s with
  | EmptyString => true
  | String c s' => (byte_of c <? 128) && isASCII s'
  end.

Fixpoint strings_HasPrefix (s p : string) : bool :=
  match p, s with
  | EmptyString, _ => true
  | String c p', String d s' => Ascii.eqb c d && strings_HasPrefix s' p'
  | String _ _, EmptyString => false
  end.

Fixpoint strings_Contains (s sub : string) : bool :=
  strings_HasPrefix s sub ||
  match s with
  | EmptyString => false
  | String _ s' => strings_Contains s' sub
  end.

(** ** Package [sort]

    [sort.Slice(x, less)] promises a permutation of [x] that is ordered by
    [less], and no stability.  It runs [insertionSortLessFunc] on slices of
    at most 12 elements and a pattern-defeating quicksort on longer ones.
    The short path is transcribed; the long path is kept behind the
    contract [SliceSorter]. *)
Module sort.

(** The inner loop of [insertionSortLessFunc]:
    [for j := i; j > a && less(j, j-1); j-- { swap(j, j-1) }].
    [before] is [data[a:i]] read from index [i-1] down to [a]; the result
    is [data[a:i+1]] after the loop, read from [i] down to [a]. *)
Fixpoint sink {A} (less : A -> A -> bool) (x : A) (before : list A) : list A :=
  match before with
  | [] => [x]
  | y :: before' =>
      if less x y then y :: sink less x before' else x :: before
  end.

(** [for i := a + 1; i < b; i++ { ... }] over the whole slice. *)
Definition insertionSortLessFunc {A} (less : A -> A -> bool) (data : list A) : list A :=
  rev (fold_left (fun before x => sink less x before) data []).

Definition maxInsertion : nat := 12.

(** A comparison that [sort.Slice] can order by: a strict weak ordering. *)
Record StrictWeak {A} (less : A -> A -> bool) : Prop := {
  sw_irrefl : forall x, less x x = false;
  sw_trans : forall x y z, less x y = true -> less y z = true -> less x z = true;
  sw_incomp : forall x y z, less x y = false -> less y z = false -> less x z = false
}.

(** No element is [less] than one that stands before it. *)
Definition Ordered {A} (less : A -> A -> bool) (l : list A) : Prop :=
  StronglySorted (fun x y => less y x = false) l.

Record SliceSorter := {
  Slice : forall {A}, (A -> A -> bool) -> list A -> list A;
  Slice_perm : forall A (less : A -> A -> bool) l, Slice less l ≡ₚ l;
  Slice_ordered : forall A (less : A -> A -> bool) l,
    StrictWeak less -> Ordered less (Slice less l);
  Slice_short : forall A (less : A -> A -> bool) l,
    (List.length l <= maxInsertion)%nat -> Slice less l = insertionSortLessFunc less l
}.

End sort.

(** ** Data model *)

(** [helm.sh/helm/v3/pkg/repo]: the fields of the library's records that
    this code reads or writes.  [Created] is an instant on the time line. *)
Module repo.

Record ChartVersion := {
  Name : string;
  Version : string;
  Keywords : list string;
  URLs : list string;
  Created : Z;
  Digest : string
}.

(** [cv.Keywords = ks] *)
Definition set_Keywords (ks : list string) (cv : ChartVersion) : ChartVersion :=
  {| Name := Name cv; Version := Version cv; Keywords := ks;
     URLs := URLs cv; Created := Created cv; Digest := Digest cv |}.

Record IndexFile := {
  APIVersion : string;
  Entries : gmap string (list ChartVersion)
}.

Record Entry := {
  EntryName : string;
  URL : string;
  Username : string;
  Password : string;
  CertFile : string;
  KeyFile : string;
  CAFile : string;
  InsecureSkipTLSverify : bool;
  PassCredentialsAll : bool
}.

(** [t.After(u)] and [t.Before(u)] *)
Definition After (t u : Z) : bool := u <? t.
Definition Before (t u : Z) : bool := t <? u.

End repo.

(** [pkg/models/helm] *)
Module helm.

(** The custom resource of a repository: its metadata name and its spec. *)
Record HelmChartRepository := {
  Name : string;
  DisplayName : string;
  URL : string;
  BasicAuthName : string;
  TLSName : string;
  CAName : string;
  InsecureSkipTLSVerify : bool;
  PassCredentialsAll : bool
}.

Record ChartVersionResponse := {
  Metadata : repo.ChartVersion;
  Repo : string;
  RepoUrl : string
}.

Record ChartVersionResponseWithTag := {
  Tag : string;
  ChartVersionResponses : list ChartVersionResponse
}.

Record ListResponse (A : Type) := {
  Items : list A;
  TotalItems : int;
  CurrentPage : int;
  TotalPages : int
}.
Arguments Items {A} _.
Arguments TotalItems {A} _.
Arguments CurrentPage {A} _.
Arguments TotalPages {A} _.

Record OfficialTagsResponse := {
  TaggedCharts : list string
}.

Record MarketplaceServiceConfig := {
  MarketplaceScenes : list string;
  LocalHarborDisplayName : string;
  OfficialHarborDisplayName : string;
  OfficialHarborHost : string;
  OfficialHarborTagsURL : string
}.

End helm.

(** [pkg/constant] *)
Module constant.
Definition ResponseBodyLimit : Z := 100.
Definition ToMegabytes : Z := 20.
Definition Success : Z := 200.
Definition ClientError : Z := 400.
Definition ResourceNotFound : Z := 404.
Definition ServerError : Z := 500.
Definition FuyaoExtensionKeyword : string := "openfuyao-extension".
End constant.

(** [net/http] status codes *)
Module http.
Definition StatusOK : Z := 200.
Definition StatusAccepted : Z := 202.
Definition StatusBadRequest : Z := 400.
Definition StatusUnauthorized : Z := 401.
Definition StatusNotFound : Z := 404.
Definition StatusInternalServerError : Z := 500.
End http.

(** ** [pkg/server/param]: pagination *)
Module param.

Definition Time : string := "time".
Definition Name : string := "name".

Record Pagination := {
  Limit : int;
  Offset : int;
  CurrentPage : int
}.

Record Query := {
  QPagination : option Pagination;
  SortBy : string;
  Ascending : bool
}.

Definition noPaginationLimit : int := -1.
Definition noPaginationPage : int := 1.

Definition newPagination (limit page : int) : Pagination :=
  {| Limit := limit;
     Offset := int_mul (int_sub page 1) limit;
     CurrentPage := page |}.

Definition GetNoPagination : Pagination :=
  newPagination noPaginationLimit noPaginationPage.

(** [p.Offset = 0] *)
Definition reset_Offset (p : Pagination) : Pagination :=
  {| Limit := Limit p; Offset := 0; CurrentPage := CurrentPage p |}.

(** [GetPaginationResult] has a pointer receiver and may write [p.Offset]:
    the result carries the receiver as the call leaves it. *)
Definition GetPaginationResult (p : Pagination) (total : int)
  : (int * int * int) * Pagination :=
  if (Limit p <=? 0) || (Offset p <? 0) then ((0, total, 1), p)
  else if Limit p =? noPaginationLimit then ((0, total, 1), p)
  else
    let p' := if Offset p >? total then reset_Offset p else p in
    let startIndex := Offset p' in
    let endIndex := Z.min (int_add startIndex (Limit p')) total in
    let totalPages := int_add (int_div (int_sub total 1) (Limit p')) 1 in
    ((startIndex, endIndex, totalPages), p').

End param.

(** ** Errors, HTTP exchanges and the outside world *)

Definition bytes := list Byte.byte.

(** A response body as its reader delivers it: the successive non-final
    [Read] results and the error that ends the stream ([None] for [io.EOF]). *)
Record Body := {
  reads : list bytes;
  readErr : option string
}.

Record Request := {
  Method : string;
  ReqURL : string;
  Authorization : option string;
  BasicAuth : option (string * string)
}.

Record Response := {
  StatusCode : int;
  Header : gmap string (list string);
  RespBody : Body
}.

(** What [client.Do] gives back. *)
Inductive HttpReply :=
| DoError (msg : string)
| DoResponse (resp : Response).

(** Error values.  [NotFound] is a cluster API error for which
    [errors.IsNotFound] holds; the next four are the types of [pkg/errors];
    [Other] is any further error value. *)
Inductive error :=
| NotFound (msg : string)
| TokenExpiredError (msg : string) (resp : Response)
| HttpResponseNotOKError (msg : string)
| FieldNotFoundError (msg : string)
| InvalidJsonHttpBodyError (msg : string)
| Other (msg : string).

Definition IsNotFound (e : error) : bool :=
  match e with NotFound _ => true | _ => false end.

(** A Go result pair [(v, err)]. *)
Inductive result (A : Type) :=
| Ok (a : A)
| Err (e : error).
Arguments Ok {A} _.
Arguments Err {A} _.

(** The JSON body of the token endpoint, as [updateOfficialHarborBearerToken]
    distinguishes it. *)
Inductive TokenBody :=
| TokenInvalidJson
| TokenUnmarshalError (msg : string)
| TokenNoField
| TokenNotString
| TokenString (tok : string).

(** The collaborators of the package.
    - [crGet], [crList], [crPatch]: the dynamic client on the repository
      resources (get by metadata name, list, patch), conversion included;
    - [GetSecret], [GetConfigMap]: the clientset, giving the data of the
      object; [GetMarketplaceServiceConfig]: the configuration lookup;
    - [NewRequestErr]: the error of [http.NewRequest] on a URL it cannot
      parse; [httpClientErr]: the error of building the TLS client of an
      entry from its PEM material;
    - [roundTrip n]: the answer to the request that is sent after [n]
      earlier ones;
    - the parsers of imported libraries: [yamlUnmarshalIndex] is
      [yaml.Unmarshal] followed by the library's [SortEntries],
      [jsonUnmarshalTags] and [jsonToken] read the two JSON bodies,
      [DecodeBase64String] is the standard decoding. *)
Record Env := {
  crGet : string -> result helm.HelmChartRepository;
  crList : result (list helm.HelmChartRepository);
  crPatch : string -> option error;
  GetSecret : string -> result (gmap string string);
  GetConfigMap : string -> result (gmap string string);
  GetMarketplaceServiceConfig : result helm.MarketplaceServiceConfig;
  NewRequestErr : string -> option error;
  httpClientErr : repo.Entry -> option error;
  roundTrip : nat -> Request -> HttpReply;
  yamlUnmarshalIndex : bytes -> result repo.IndexFile;
  jsonUnmarshalTags : bytes -> result helm.OfficialTagsResponse;
  jsonToken : bytes -> TokenBody;
  DecodeBase64String : string -> result string
}.

(** A goroutine that has been started and has not run yet. *)
Inductive Task :=
| SyncAllWorker (repository : helm.HelmChartRepository)
| SyncAllJoin
| SyncRepoTask (repoDisplayName : string) (repository : helm.HelmChartRepository).

(** The package-level variables and what the process has done so far. *)
Record World := {
  repoChartCache : gmap string (gmap string (list repo.ChartVersion));
  repoAsyncTaskMap : gmap string string;
  officialHarborBearerToken : string;
  exchanges : list Request;
  goroutines : list Task
}.

Definition set_cache (c : gmap string (gmap string (list repo.ChartVersion))) (w : World) : World :=
  {| repoChartCache := c; repoAsyncTaskMap := repoAsyncTaskMap w;
     officialHarborBearerToken := officialHarborBearerToken w;
     exchanges := exchanges w; goroutines := goroutines w |}.

Definition set_status (m : gmap string string) (w : World) : World :=
  {| repoChartCache := repoChartCache w; repoAsyncTaskMap := m;
     officialHarborBearerToken := officialHarborBearerToken w;
     exchanges := exchanges w; goroutines := goroutines w |}.

Definition set_token (t : string) (w : World) : World :=
  {| repoChartCache := repoChartCache w; repoAsyncTaskMap := repoAsyncTaskMap w;
     officialHarborBearerToken := t;
     exchanges := exchanges w; goroutines := goroutines w |}.

Definition set_goroutines (g : list Task) (w : World) : World :=
  {| repoChartCache := repoChartCache w; repoAsyncTaskMap := repoAsyncTaskMap w;
     officialHarborBearerToken := officialHarborBearerToken w;
     exchanges := exchanges w; goroutines := g |}.

(** [client.Do(req)]: the request is recorded and answered. *)
Definition client_Do (env : Env) (req : Request) (w : World) : HttpReply * World :=
  (roundTrip env (List.length (exchanges w)) req,
   {| repoChartCache := repoChartCache w; repoAsyncTaskMap := repoAsyncTaskMap w;
      officialHarborBearerToken := officialHarborBearerToken w;
      exchanges := exchanges w ++ [req]; goroutines := goroutines w |}).

(** [go f()] *)
Definition go (t : Task) (w : World) : World :=
  set_goroutines (goroutines w ++ [t]) w.

(** ** [pkg/helm/cache.go] *)

Definition SetChartCache (repoName : string) (indexFile : repo.IndexFile) (w : World) : World :=
  set_cache (<[repoName := repo.Entries indexFile]> (repoChartCache w)) w.

Definition GetChartCacheFromAllRepo (w : World)
  : gmap string (gmap string (list repo.ChartVersion)) :=
  repoChartCache w.

(** The first component is Go's nil map when the repository is not cached. *)
Definition GetChartCacheByRepo (repoName : string) (w : World)
  : gmap string (list repo.ChartVersion) * bool :=
  match repoChartCache w !! repoName with
  | Some indexEntries => (indexEntries, true)
  | None => (∅, false)
  end.

Definition DeleteChartCache (repoName : string) (w : World) : World :=
  set_cache (delete repoName (repoChartCache w)) w.

(** ** [pkg/helm/load.go] *)

(** [fmt.Sprintf("%d", n)] *)
Definition fmt_d (n : int) : string := NilZero.string_of_int (Z.to_int n).

Fixpoint strings_HasSuffix (s suffix : string) : bool :=
  String.eqb s suffix ||
  match s with
  | EmptyString => false
  | String _ s' => strings_HasSuffix s' suffix
  end.

Record limitedBuffer := {
  buffer : bytes;
  maxSize : int;
  written : int
}.

Definition newLimitedBuffer (maxSize : int) : limitedBuffer :=
  {| buffer := []; maxSize := maxSize; written := 0 |}.

(** [(l *limitedBuffer) Write(p)]: the pair [(n, err)] and the receiver
    after the call.  [bytes.Buffer.Write] appends all of [p] and reports
    [len(p), nil]. *)
Definition limitedBuffer_Write (l : limitedBuffer) (p : bytes)
  : (int * option error) * limitedBuffer :=
  if int_add (written l) (len p) >? maxSize l
  then ((0, Some (Other "response body exceeds the size limit")), l)
  else
    let n := len p in
    ((n, None),
     {| buffer := buffer l ++ p; maxSize := maxSize l;
        written := int_add (written l) n |}).

(** [io.Copy(dst, src)] on a destination without [ReadFrom]: every read of
    [nr > 0] bytes is written at once, the first failing write ends the
    copy with its error, and so does a read error other than [io.EOF]. *)
Fixpoint io_Copy_loop (dst : limitedBuffer) (rs : list bytes) (final : option string)
  : option error * limitedBuffer :=
  match rs with
  | [] => (Other <$> final, dst)
  | p :: rs' =>
      if 0 <? len p then
        let '((nw, ew), dst') := limitedBuffer_Write dst p in
        match ew with
        | Some e => (Some e, dst')
        | None =>
            if negb (len p =? nw) then (Some (Other "short write"), dst')
            else io_Copy_loop dst' rs' final
        end
      else io_Copy_loop dst rs' final
  end.

Definition io_Copy (dst : limitedBuffer) (src : Body) : option error * limitedBuffer :=
  io_Copy_loop dst (reads src) (readErr src).

Definition get_request (u : string) (repoEntry : repo.Entry) : Request :=
  {| Method := "GET"; ReqURL := u; Authorization := None;
     BasicAuth :=
       if negb (String.eqb (repo.Username repoEntry) "")
          && negb (String.eqb (repo.Password repoEntry) "")
       then Some (repo.Username repoEntry, repo.Password repoEntry)
       else None |}.

Definition index_maxSize : int :=
  Z.shiftl constant.ResponseBodyLimit constant.ToMegabytes.

(** [LoadData]: the body of the reply, copied through a [limitedBuffer]. *)
Definition LoadData (env : Env) (u : string) (repoEntry : repo.Entry) (w : World)
  : result bytes * World :=
  match NewRequestErr env u with
  | Some e => (Err e, w)
  | None =>
      let '(reply, w') := client_Do env (get_request u repoEntry) w in
      match reply with
      | DoError msg => (Err (Other msg), w')
      | DoResponse resp =>
          let limitedBuf := newLimitedBuffer index_maxSize in
          let '(err, limitedBuf') := io_Copy limitedBuf (RespBody resp) in
          match err with
          | Some _ => (Err (Other ""), w')
          | None =>
              if negb (StatusCode resp =? http.StatusOK)
              then (Err (Other ("Error: received non-200 status code: "
                                  +:+ fmt_d (StatusCode resp))), w')
              else (Ok (buffer limitedBuf'), w')
          end
      end
  end.

(** [repo.ErrNoAPIVersion] *)
Definition ErrNoAPIVersion : error := Other "no API version specified".

Definition loadIndex (env : Env) (data : bytes) : result repo.IndexFile :=
  match yamlUnmarshalIndex env data with
  | Err e => Err e
  | Ok i => if String.eqb (repo.APIVersion i) "" then Err ErrNoAPIVersion else Ok i
  end.

Definition index_url (u : string) : string :=
  if negb (strings_HasSuffix u "/") then u +:+ "/" +:+ "index.yaml"
  else u +:+ "index.yaml".

Definition LoadRepoIndex (env : Env) (repoEntry : repo.Entry) (w : World)
  : result repo.IndexFile * World :=
  let '(resp, w') := LoadData env (index_url (repo.URL repoEntry)) repoEntry w in
  match resp with
  | Err e => (Err e, w')
  | Ok data => (loadIndex env data, w')
  end.

(** [(c *cachedChart) UpdateChartCache(repoEntry)] *)
Definition UpdateChartCache (env : Env) (repoEntry : repo.Entry) (w : World)
  : option error * World :=
  let '(index, w') := LoadRepoIndex env repoEntry w in
  match index with
  | Err e => (Some e, w')
  | Ok index =>
      (None,
       set_cache (<[repo.EntryName repoEntry := repo.Entries index]> (repoChartCache w')) w')
  end.

(** ** [pkg/utils/httputil]: the response envelope *)

Inductive Data :=
| nil_data
| ChartVersions_data (l : list helm.ChartVersionResponse)
| ListResponse_data (l : helm.ListResponse helm.ChartVersionResponse)
| Tagged_data (l : list helm.ChartVersionResponseWithTag).

Record ResponseJson := {
  Code : int;
  Msg : string;
  RData : Data
}.

Definition GetDefaultClientFailureResponseJson : ResponseJson :=
  {| Code := constant.ClientError; Msg := "bad request"; RData := nil_data |}.

Definition GetDefaultServerFailureResponseJson : ResponseJson :=
  {| Code := constant.ServerError; Msg := "remote server busy"; RData := nil_data |}.

Definition Contains (s : list string) (str : string) : bool :=
  existsb (fun a => String.eqb a str) s.

Definition NotContains (s : list string) (str : string) : bool :=
  forallb (fun v => negb (String.eqb v str)) s.

Definition ContainsOne (leftArr rightArr : list string) : bool :=
  let set : gset string := list_to_set leftArr in
  existsb (fun s => bool_decide (s ∈ set)) rightArr.

Definition ContainsAll (outer inner : list string) : bool :=
  let set : gset string := list_to_set outer in
  forallb (fun s => bool_decide (s ∈ set)) inner.

(** ** The repository catalog and the synchronisation of repositories *)

Definition syncInProgressMsg : string := "in_progress".
Definition syncCompleteMsg : string := "complete".
Definition syncFailedMsg : string := "failed".

Definition mapKeyUsername : string := "username".
Definition mapKeyPassword : string := "password".
Definition mapKeyTLSCrt : string := "tls.crt".
Definition mapKeyTLSKey : string := "tls.key".
Definition mapKeyCAKey : string := "ca".

(** [m[k]] on a [map[string]string]: the empty string for a missing key. *)
Definition index_or_empty (m : gmap string string) (k : string) : string :=
  default EmptyString (m !! k).

Definition listCustomRepo (env : Env) : result (list helm.HelmChartRepository) :=
  crList env.

Definition getCustomRepoByName (env : Env) (repoName : string)
  : result helm.HelmChartRepository :=
  let metaName := strings_ToLower repoName in
  crGet env metaName.

Definition repoCRtoRepoEntry (env : Env) (repoCR : helm.HelmChartRepository)
  : result repo.Entry :=
  let basic :=
    if negb (String.eqb (helm.BasicAuthName repoCR) "")
    then match GetSecret env (helm.BasicAuthName repoCR) with
         | Err e => Err e
         | Ok d => Ok (index_or_empty d mapKeyUsername, index_or_empty d mapKeyPassword)
         end
    else Ok (EmptyString, EmptyString) in
  match basic with
  | Err e => Err e
  | Ok (username, password) =>
      let tls :=
        if negb (String.eqb (helm.TLSName repoCR) "")
        then match GetSecret env (helm.TLSName repoCR) with
             | Err e => Err e
             | Ok d => Ok (index_or_empty d mapKeyTLSCrt, index_or_empty d mapKeyTLSKey)
             end
        else Ok (EmptyString, EmptyString) in
      match tls with
      | Err e => Err e
      | Ok (certFile, keyFile) =>
          let ca :=
            if negb (String.eqb (helm.CAName repoCR) "")
            then match GetConfigMap env (helm.CAName repoCR) with
                 | Err e => Err e
                 | Ok d => Ok (index_or_empty d mapKeyCAKey)
                 end
            else Ok EmptyString in
          match ca with
          | Err e => Err e
          | Ok caFile =>
              Ok {| repo.EntryName := helm.DisplayName repoCR;
                    repo.URL := helm.URL repoCR;
                    repo.Username := username;
                    repo.Password := password;
                    repo.CertFile := certFile;
                    repo.KeyFile := keyFile;
                    repo.CAFile := caFile;
                    repo.InsecureSkipTLSverify := helm.InsecureSkipTLSVerify repoCR;
                    repo.PassCredentialsAll := helm.PassCredentialsAll repoCR |}
          end
      end
  end.

Definition patchRepoModificationTime (env : Env) (name : string) : option error :=
  crPatch env name.

Record errRepo := {
  errName : string;
  errErr : error
}.

(** [asyncUpdateRepository]: the world it leaves and the values it sends on
    [errRepoList], in order.  What a send does depends on the channel the
    caller passed and is decided there. *)
Definition asyncUpdateRepository (env : Env) (repository : helm.HelmChartRepository)
  (w : World) : World * list errRepo :=
  match repoCRtoRepoEntry env repository with
  | Err err => (w, [ {| errName := helm.Name repository; errErr := err |} ])
  | Ok repoEntry =>
      let '(err, w') := UpdateChartCache env repoEntry w in
      match err with
      | Some err => (w', [ {| errName := helm.Name repository; errErr := err |} ])
      | None =>
          match patchRepoModificationTime env (helm.Name repository) with
          | Some err => (w', [ {| errName := helm.Name repository; errErr := err |} ])
          | None => (w', [])
          end
      end
  end.

(** [repoAsyncTaskMap.Store(k, v)] *)
Definition Store (k v : string) (w : World) : World :=
  set_status (<[k := v]> (repoAsyncTaskMap w)) w.

(** [SyncAllRepos]: one goroutine per repository and one that waits for
    them; none of them has run when the response is returned. *)
Definition SyncAllRepos (env : Env) (w : World) : (ResponseJson * int) * World :=
  match listCustomRepo env with
  | Err _ => ((GetDefaultServerFailureResponseJson, http.StatusInternalServerError), w)
  | Ok repoList =>
      let w1 := fold_left (fun w repository => go (SyncAllWorker repository) w) repoList w in
      let w2 := go SyncAllJoin w1 in
      (({| Code := constant.Success; Msg := "synchronizing repositories"; RData := nil_data |},
        http.StatusAccepted), w2)
  end.

Definition SyncRepo (env : Env) (repoDisplayName : string) (w : World)
  : (ResponseJson * int) * World :=
  if String.eqb repoDisplayName "" then
    (({| Code := constant.ClientError; Msg := "please provide repo name for sync";
         RData := nil_data |}, http.StatusBadRequest), w)
  else
    match getCustomRepoByName env repoDisplayName with
    | Err err =>
        if IsNotFound err then
          (({| Code := constant.ClientError;
               Msg := " repository " +:+ repoDisplayName +:+ " not found";
               RData := nil_data |}, http.StatusBadRequest), w)
        else ((GetDefaultServerFailureResponseJson, http.StatusInternalServerError), w)
    | Ok repository =>
        let status := repoAsyncTaskMap w !! repoDisplayName in
        let accepted (w : World) :=
          let w1 := Store repoDisplayName syncInProgressMsg w in
          let w2 := go (SyncRepoTask repoDisplayName repository) w1 in
          (({| Code := constant.Success;
               Msg := "syncronizing repository " +:+ repoDisplayName;
               RData := nil_data |}, http.StatusAccepted), w2) in
        match status with
        | None => accepted w
        | Some s =>
            if String.eqb s syncInProgressMsg then
              (({| Code := constant.ClientError;
                   Msg := " repository " +:+ repoDisplayName +:+ " syncronizing in progress";
                   RData := nil_data |}, http.StatusBadRequest), w)
            else if String.eqb s syncFailedMsg || String.eqb s syncCompleteMsg then accepted w
            else ((GetDefaultServerFailureResponseJson, http.StatusInternalServerError), w)
        end
    end.

Definition GetRepoSyncStatus (repoName : string) (w : World) : ResponseJson * int :=
  match repoAsyncTaskMap w !! repoName with
  | None =>
      ({| Code := constant.ClientError; Msg := repoName +:+ " update task not found";
          RData := nil_data |}, http.StatusBadRequest)
  | Some status =>
      ({| Code := constant.Success; Msg := status; RData := nil_data |}, http.StatusOK)
  end.

(** The body of a goroutine, run from its first statement to its last.
    A worker of [SyncAllRepos] sends its error into a buffered channel that
    is only read for logging (a send that finds the buffer full waits, with
    the cache already written); the goroutine of [SyncRepo] stores the
    status [complete] and then, once for every error it receives, [failed].
    The waiting goroutine of [SyncAllRepos] only logs. *)
Definition run_goroutine (env : Env) (t : Task) (w : World) : World :=
  match t with
  | SyncAllWorker repository => fst (asyncUpdateRepository env repository w)
  | SyncAllJoin => w
  | SyncRepoTask repoDisplayName repository =>
      let '(w1, errRepoList) := asyncUpdateRepository env repository w in
      let w2 := Store repoDisplayName syncCompleteMsg w1 in
      fold_left (fun w _ => Store repoDisplayName syncFailedMsg w) errRepoList w2
  end.

(** The scheduler picks any started goroutine and runs it; [sched env only]
    is a step that runs a goroutine of the kind [only]. *)
Inductive sched (env : Env) (only : Task -> bool) : World -> World -> Prop :=
| sched_run pre t post w :
    goroutines w = pre ++ t :: post ->
    only t = true ->
    sched env only w (run_goroutine env t (set_goroutines (pre ++ post) w)).

Definition of_SyncAllRepos (t : Task) : bool :=
  match t with
  | SyncAllWorker _ | SyncAllJoin => true
  | SyncRepoTask _ _ => false
  end.

(** One schedule, for running examples: oldest goroutine first. *)
Fixpoint run_all (env : Env) (fuel : nat) (w : World) : World :=
  match fuel with
  | O => w
  | S fuel' =>
      match goroutines w with
      | [] => w
      | t :: rest => run_all env fuel' (run_goroutine env t (set_goroutines rest w))
      end
  end.

(** ** [pkg/helm/charts.go]: ordering, filtering and paging of charts *)

Definition ascendingOrder : int := 1.
Definition descendingOrder : int := -1.
Definition maxRetries : nat := 3.

Definition orderZero : int := 0.
Definition orderOne : int := 1.
Definition orderTwo : int := 2.
Definition orderThree : int := 3.

Definition getPriority (r : rune) : int :=
  if unicode.IsSymbol r || unicode.IsPunct r then orderZero
  else if unicode.IsLetter r then orderOne
  else if unicode.IsDigit r then orderTwo
  else orderThree.

(** The loop of [customCompare] from index [i] on: [a] and [b] are what is
    left of the two strings from that index, [la] and [lb] are [len(a)] and
    [len(b)] of the whole strings. *)
Fixpoint customCompare_loop (la lb : int) (a b : string) (sortOrder : int) : bool :=
  match a, b with
  | String ca a', String cb b' =>
      let ra := byte_of ca in
      let rb := byte_of cb in
      let pa := getPriority ra in
      let pb := getPriority rb in
      if negb (pa =? pb) then Bool.eqb (pa <? pb) (sortOrder =? 1)
      else if negb (ra =? rb) then
        if unicode.ToLower ra =? unicode.ToLower rb
        then Bool.eqb (ra <? rb) (sortOrder =? 1)
        else Bool.eqb (unicode.ToLower ra <? unicode.ToLower rb) (sortOrder =? 1)
      else customCompare_loop la lb a' b' sortOrder
  | _, _ => Bool.eqb (la <? lb) (sortOrder =? 1)
  end.

Definition customCompare (a b : string) (sortOrder : int) : bool :=
  customCompare_loop (slen a) (slen b) a b sortOrder.

Definition chart_name (c : helm.ChartVersionResponse) : string :=
  repo.Name (helm.Metadata c).

Definition chart_created (c : helm.ChartVersionResponse) : Z :=
  repo.Created (helm.Metadata c).

(** [ChartSearchParam], by the fields the package reads. *)
Record ChartSearchParam := {
  Repositories : list string;
  Chart : string;
  Types : list string;
  Scene : list string;
  SQuery : param.Query
}.

(** [ExtractUniqueKeywords]: the keys of the map [unique], in the order
    ranging over a map yields them. *)
Definition ExtractUniqueKeywords (chartVersions : list repo.ChartVersion) : list string :=
  let unique : gset string :=
    fold_left
      (fun unique chartVersion =>
         fold_left (fun unique keyword => {[keyword]} ∪ unique)
                   (repo.Keywords chartVersion) unique)
      chartVersions ∅ in
  elements unique.

Definition needShow (entry : repo.ChartVersion) (version : string) : bool :=
  if negb (String.eqb version "") && negb (String.eqb (repo.Version entry) version)
  then false else true.

Definition filterChartVersionSlice (searchParam : ChartSearchParam)
  (chartList : list helm.ChartVersionResponse) : list helm.ChartVersionResponse :=
  let filter (chartList : list helm.ChartVersionResponse)
             (condition : helm.ChartVersionResponse -> bool) :=
    List.filter condition chartList in
  let chartList :=
    if negb (String.eqb (Chart searchParam) "") then
      filter chartList (fun chartInfo =>
        strings_Contains (strings_ToLower (chart_name chartInfo))
                         (strings_ToLower (Chart searchParam)))
    else chartList in
  let chartList :=
    if 0 <? len (Types searchParam) then
      filter chartList (fun chartInfo =>
        existsb (fun typeString =>
          if String.eqb typeString "application" then
            NotContains (repo.Keywords (helm.Metadata chartInfo)) constant.FuyaoExtensionKeyword
          else if negb (String.eqb typeString "") then
            Contains (repo.Keywords (helm.Metadata chartInfo)) typeString
          else false) (Types searchParam))
    else chartList in
  if 0 <? len (Scene searchParam) then
    filter chartList (fun chartInfo =>
      ContainsOne (repo.Keywords (helm.Metadata chartInfo)) (Scene searchParam))
  else chartList.

(** [pageResult]: [None] is the run-time panic of the slice expression. *)
Definition pageResult {A} (result : list A) (pagination : option param.Pagination)
  : option (helm.ListResponse A) :=
  let total := len result in
  let pagination := default param.GetNoPagination pagination in
  let '((start, end_, totalPages), pagination) :=
    param.GetPaginationResult pagination total in
  match slice result start end_ with
  | None => None
  | Some items =>
      Some {| helm.Items := items;
              helm.TotalItems := total;
              helm.CurrentPage := param.CurrentPage pagination;
              helm.TotalPages := totalPages |}
  end.

Definition filterSelectedRepositories (repositories : list string)
  (repoCRList : list helm.HelmChartRepository) : list helm.HelmChartRepository :=
  flat_map (fun repoName =>
    List.filter (fun repoCR => String.eqb repoName (helm.DisplayName repoCR)) repoCRList)
    repositories.

Section QueryEngine.

Variable S : sort.SliceSorter.

Definition sortChartByTime (chartList : list helm.ChartVersionResponse) (ascending : bool)
  : list helm.ChartVersionResponse :=
  if ascending
  then sort.Slice S (fun ci cj => repo.Before (chart_created ci) (chart_created cj)) chartList
  else sort.Slice S (fun ci cj => repo.After (chart_created ci) (chart_created cj)) chartList.

Definition sortChartByName (chartList : list helm.ChartVersionResponse) (ascending : bool)
  : list helm.ChartVersionResponse :=
  if ascending
  then sort.Slice S (fun ci cj => customCompare (chart_name ci) (chart_name cj) ascendingOrder)
                  chartList
  else sort.Slice S (fun ci cj => customCompare (chart_name ci) (chart_name cj) descendingOrder)
                  chartList.

Definition sortChartVersionSlice (query : param.Query)
  (chartList : list helm.ChartVersionResponse) : list helm.ChartVersionResponse :=
  if String.eqb (param.SortBy query) param.Time
  then sortChartByTime chartList (param.Ascending query)
  else if String.eqb (param.SortBy query) param.Name
  then sortChartByName chartList (param.Ascending query)
  else sortChartByName chartList true.

(** One round of the loop of [getLatestChartsFromRepository]: the slice of
    versions as the round leaves it in the cache (sorted in place, the
    keywords of its first element overwritten) and the element it emits. *)
Definition latestOf (chartVersions : list repo.ChartVersion)
  : list repo.ChartVersion * option repo.ChartVersion :=
  let sorted :=
    sort.Slice S (fun vi vj => repo.After (repo.Created vi) (repo.Created vj)) chartVersions in
  match sorted with
  | [] => (sorted, None)
  | first :: rest =>
      let first' := repo.set_Keywords (ExtractUniqueKeywords sorted) first in
      (first' :: rest, Some first')
  end.

Definition latestChart (repository : helm.HelmChartRepository)
  (entry : string * list repo.ChartVersion) : option helm.ChartVersionResponse :=
  match snd (latestOf (snd entry)) with
  | None => None
  | Some metadata =>
      Some {| helm.Metadata := metadata;
              helm.Repo := helm.DisplayName repository;
              helm.RepoUrl := helm.URL repository |}
  end.

(** [getLatestChartsFromRepository].  The slices it sorts and the record
    it writes to are the ones the cache holds, so the world changes.  A
    repository without a cache entry is logged and yields no round. *)
Definition getLatestChartsFromRepository (repository : helm.HelmChartRepository) (w : World)
  : list helm.ChartVersionResponse * World :=
  let '(chartList, exist_) := GetChartCacheByRepo (helm.DisplayName repository) w in
  let result := omap (latestChart repository) (map_to_list chartList) in
  let w' :=
    if exist_
    then set_cache (<[helm.DisplayName repository := (fun cvs => fst (latestOf cvs)) <$> chartList]>
                      (repoChartCache w)) w
    else w in
  (result, w').

Fixpoint getLatestChartsFromAllRepositories (repoList : list helm.HelmChartRepository)
  (w : World) : list helm.ChartVersionResponse * World :=
  match repoList with
  | [] => ([], w)
  | repository :: repoList' =>
      let '(charts, w1) := getLatestChartsFromRepository repository w in
      let '(result, w2) := getLatestChartsFromAllRepositories repoList' w1 in
      (charts ++ result, w2)
  end.

(** [getLatestChartsByRepos]: its loop over the selected repositories is
    the loop of [getLatestChartsFromAllRepositories]. *)
Definition getLatestChartsByRepos (env : Env) (repositories : list string) (w : World)
  : result (list helm.ChartVersionResponse) * World :=
  match listCustomRepo env with
  | Err err => (Err err, w)
  | Ok repoCRList =>
      let '(chartList, w') :=
        if len repositories =? 0
        then getLatestChartsFromAllRepositories repoCRList w
        else getLatestChartsFromAllRepositories
               (filterSelectedRepositories repositories repoCRList) w in
      (Ok chartList, w')
  end.

(** [GetLatestCharts]; [None] is a run-time panic. *)
Definition GetLatestCharts (env : Env) (searchParam : ChartSearchParam) (w : World)
  : option (ResponseJson * int) * World :=
  let '(chartList, w') := getLatestChartsByRepos env (Repositories searchParam) w in
  match chartList with
  | Err _ => (Some (GetDefaultServerFailureResponseJson, http.StatusInternalServerError), w')
  | Ok chartList =>
      match GetMarketplaceServiceConfig env with
      | Err _ => (Some (GetDefaultServerFailureResponseJson, http.StatusInternalServerError), w')
      | Ok config =>
          if negb (ContainsAll (helm.MarketplaceScenes config) (Scene searchParam))
          then (Some (GetDefaultClientFailureResponseJson, http.StatusBadRequest), w')
          else
            let filteredList := filterChartVersionSlice searchParam chartList in
            let filteredList := sortChartVersionSlice (SQuery searchParam) filteredList in
            match pageResult filteredList (param.QPagination (SQuery searchParam)) with
            | None => (None, w')
            | Some page =>
                (Some ({| Code := constant.Success; Msg := "success";
                          RData := ListResponse_data page |}, http.StatusOK), w')
            end
      end
  end.

End QueryEngine.

(** [GetChartVersion] *)
Definition GetChartVersion (env : Env) (repoName chartName version : string) (w : World)
  : ResponseJson * int :=
  match getCustomRepoByName env repoName with
  | Err err =>
      if IsNotFound err then
        ({| Code := constant.ResourceNotFound; Msg := "repository not found";
            RData := nil_data |}, http.StatusNotFound)
      else (GetDefaultServerFailureResponseJson, http.StatusInternalServerError)
  | Ok repository =>
      let '(indexEntries, exist_) := GetChartCacheByRepo (helm.DisplayName repository) w in
      if negb exist_ then
        ({| Code := constant.ResourceNotFound; Msg := "please sync your repository";
            RData := nil_data |}, http.StatusNotFound)
      else
        let chartList :=
          map (fun entry => {| helm.Metadata := entry;
                               helm.Repo := helm.DisplayName repository;
                               helm.RepoUrl := helm.URL repository |})
              (List.filter (fun entry => needShow entry version)
                           (default [] (indexEntries !! chartName))) in
        ({| Code := constant.Success; Msg := "success";
            RData := ChartVersions_data chartList |}, http.StatusOK)
  end.

Definition GetChartVersions (env : Env) (repoName chartName : string) (w : World)
  : ResponseJson * int :=
  GetChartVersion env repoName chartName "" w.

(** ** [pkg/helm/charts.go]: charts of the official repository by tag *)

Definition token : string := "token".
Definition wwwAuthenticate : string := "Www-Authenticate".
Definition realmParam : string := "realm".
Definition serviceParam : string := "service".
Definition scopeParam : string := "scope".

(** String helpers of package [strings], on bytes. *)
Fixpoint string_drop (n : nat) (s : string) : string :=
  match n, s with
  | O, _ => s
  | Datatypes.S n', String _ s' => string_drop n' s'
  | Datatypes.S _, EmptyString => EmptyString
  end.

Definition strings_TrimPrefix (s prefix : string) : string :=
  if strings_HasPrefix s prefix then string_drop (String.length prefix) s else s.

(** [strings.Split(s, sep)] for a one-byte separator. *)
Fixpoint strings_Split (s : string) (sep : ascii) : list string :=
  match s with
  | EmptyString => [EmptyString]
  | String c s' =>
      if Ascii.eqb c sep then EmptyString :: strings_Split s' sep
      else match strings_Split s' sep with
           | [] => [String c EmptyString]
           | part :: parts => String c part :: parts
           end
  end.

(** [strings.SplitN(s, sep, 2)] for a one-byte separator: one part when
    [sep] does not occur, else what stands before and after its first
    occurrence. *)
Fixpoint strings_SplitN2 (s : string) (sep : ascii) : list string :=
  match s with
  | EmptyString => [EmptyString]
  | String c s' =>
      if Ascii.eqb c sep then [EmptyString; s']
      else match strings_SplitN2 s' sep with
           | [k; v] => [String c k; v]
           | _ => [s]
           end
  end.

Fixpoint trim_left (p : ascii -> bool) (s : string) : string :=
  match s with
  | EmptyString => EmptyString
  | String c s' => if p c then trim_left p s' else s
  end.

Definition string_rev (s : string) : string :=
  string_of_list_ascii (rev (list_ascii_of_string s)).

Definition trim_both (p : ascii -> bool) (s : string) : string :=
  string_rev (trim_left p (string_rev (trim_left p s))).

(** White space of ASCII; header values are ASCII text. *)
Definition is_space (c : ascii) : bool :=
  unicode.one_of [9; 10; 11; 12; 13; 32] (byte_of c).

Definition strings_TrimSpace (s : string) : string := trim_both is_space s.

(** [strings.Trim(s, cutset)] for a one-byte cutset (byte 34 is the double
    quote of the header syntax). *)
Definition strings_Trim (s : string) (cut : ascii) : string :=
  trim_both (Ascii.eqb cut) s.

(** [strings.ReplaceAll(s, old, new)] for one-byte [old] and [new]. *)
Fixpoint strings_ReplaceAll (s : string) (old new : ascii) : string :=
  match s with
  | EmptyString => EmptyString
  | String c s' =>
      String (if Ascii.eqb c old then new else c) (strings_ReplaceAll s' old new)
  end.

Definition getOfficialHarborTagsRequestURL (harborHost tagToBeListed : string) : string :=
  harborHost +:+ "/" +:+ tagToBeListed +:+ "/tags/list".

Definition getOfficialHarborBearerTokenRequestURL (realm service scope : string) : string :=
  realm +:+ "?service=" +:+ service +:+ "&scope=" +:+ scope.

Definition getBearTokenHeadParameter (input : string) : string * string * string :=
  let input := strings_TrimPrefix input "Bearer " in
  let parts := strings_Split input "," in
  fold_left
    (fun '(realmString, serviceString, scopeString) part =>
       match strings_SplitN2 part "=" with
       | [k; v] =>
           let key := strings_TrimSpace k in
           let value := strings_Trim v "034"%char in
           if String.eqb key realmParam then (value, serviceString, scopeString)
           else if String.eqb key serviceParam then (realmString, value, scopeString)
           else if String.eqb key scopeParam then (realmString, serviceString, value)
           else (realmString, serviceString, scopeString)
       | _ => (realmString, serviceString, scopeString)
       end)
    parts (EmptyString, EmptyString, EmptyString).

Definition getTokenNotFoundError (body : bytes) : error :=
  FieldNotFoundError ("failed to find field " +:+ token +:+ " in response "
                        +:+ string_of_list_byte body).

(** [io.ReadAll(resp.Body)] *)
Definition io_ReadAll (b : Body) : result bytes :=
  match readErr b with
  | Some msg => Err (Other msg)
  | None => Ok (concat (reads b))
  end.

Definition getHttpRequestResponse (env : Env) (req : Request) (repoEntry : repo.Entry)
  (w : World) : result (Response * bytes) * World :=
  match httpClientErr env repoEntry with
  | Some err => (Err err, w)
  | None =>
      let '(reply, w') := client_Do env req w in
      match reply with
      | DoError msg => (Err (Other msg), w')
      | DoResponse resp =>
          match io_ReadAll (RespBody resp) with
          | Err err => (Err err, w')
          | Ok body => (Ok (resp, body), w')
          end
      end
  end.

Definition getRepoEntryAndChartVersions (env : Env) (repoName : string) (w : World)
  : result (gmap string (list repo.ChartVersion) * repo.Entry) :=
  let '(indexEntries, exist_) := GetChartCacheByRepo repoName w in
  if negb exist_ then
    Err (Other (repoName +:+ " is no longer in the helm repository, please add repository first"))
  else
    match getCustomRepoByName env repoName with
    | Err err => Err err
    | Ok repository =>
        match repoCRtoRepoEntry env repository with
        | Err err => Err err
        | Ok repoEntry => Ok (indexEntries, repoEntry)
        end
    end.

Definition decodeURLSafeBase64String (env : Env) (input : string) : result string :=
  let input := strings_ReplaceAll input "-" "+" in
  let input := strings_ReplaceAll input "_" "/" in
  let input := strings_ReplaceAll input "." "=" in
  DecodeBase64String env input.

Definition updateOfficialHarborBearerToken (env : Env) (tagRequestResponse : Response)
  (w : World) : option error * World :=
  let authenticate := default [] (Header tagRequestResponse !! wwwAuthenticate) in
  match authenticate with
  | [] => (Some (FieldNotFoundError "field authenticate not found"), w)
  | authenticate0 :: _ =>
      let '(realm, service, scope) := getBearTokenHeadParameter authenticate0 in
      let url := getOfficialHarborBearerTokenRequestURL realm service scope in
      match NewRequestErr env url with
      | Some err => (Some err, w)
      | None =>
          let request := {| Method := "GET"; ReqURL := url;
                            Authorization := None; BasicAuth := None |} in
          match getRepoEntryAndChartVersions env "openfuyao" w with
          | Err err => (Some err, w)
          | Ok (_, repoEntry) =>
              let '(r, w') := getHttpRequestResponse env request repoEntry w in
              match r with
              | Err err => (Some err, w')
              | Ok (response, body) =>
                  if negb (StatusCode response =? http.StatusOK)
                  then (Some (HttpResponseNotOKError (string_of_list_byte body)), w')
                  else
                    match jsonToken env body with
                    | TokenInvalidJson =>
                        (Some (InvalidJsonHttpBodyError (string_of_list_byte body)), w')
                    | TokenUnmarshalError msg => (Some (Other msg), w')
                    | TokenNoField => (Some (getTokenNotFoundError body), w')
                    | TokenNotString =>
                        (Some (getTokenNotFoundError body), set_token EmptyString w')
                    | TokenString tok => (None, set_token tok w')
                    end
              end
          end
      end
  end.

Definition getOfficialTagWithToken (env : Env) (harborHost tagToBeListed : string) (w : World)
  : result helm.OfficialTagsResponse * World :=
  let officialHarborTagRequestURL := getOfficialHarborTagsRequestURL harborHost tagToBeListed in
  match NewRequestErr env officialHarborTagRequestURL with
  | Some err => (Err err, w)
  | None =>
      let request := {| Method := "GET"; ReqURL := officialHarborTagRequestURL;
                        Authorization := Some (officialHarborBearerToken w);
                        BasicAuth := None |} in
      match getRepoEntryAndChartVersions env "openfuyao" w with
      | Err _ => (Err (HttpResponseNotOKError "error getting repo entry & chartVersions"), w)
      | Ok (_, repoEntry) =>
          let '(r, w') := getHttpRequestResponse env request repoEntry w in
          match r with
          | Err err => (Err err, w')
          | Ok (response, body) =>
              if StatusCode response =? http.StatusUnauthorized
              then (Err (TokenExpiredError (string_of_list_byte body) response), w')
              else if negb (StatusCode response =? http.StatusOK)
              then (Err (HttpResponseNotOKError (string_of_list_byte body)), w')
              else (jsonUnmarshalTags env body, w')
          end
      end
  end.

(** [handleTagRequest]: one attempt; a 401 answer is followed by the
    renewal of the bearer token, whose own error is only logged. *)
Definition handleTagRequest (env : Env) (tag : string) (config : helm.MarketplaceServiceConfig)
  (w : World) : option helm.OfficialTagsResponse * World :=
  let '(officialTagsResponse, w') :=
    getOfficialTagWithToken env
      (helm.OfficialHarborHost config +:+ helm.OfficialHarborTagsURL config) tag w in
  match officialTagsResponse with
  | Ok r => (Some r, w')
  | Err (TokenExpiredError _ resp) =>
      (None, snd (updateOfficialHarborBearerToken env resp w'))
  | Err _ => (None, w')
  end.

(** [for i := 0; i < maxRetries; i++ { ...; if r != nil { break } }] with
    [n] rounds left. *)
Fixpoint tagRequestLoop (env : Env) (tag : string) (config : helm.MarketplaceServiceConfig)
  (n : nat) (w : World) : option helm.OfficialTagsResponse * World :=
  match n with
  | O => (None, w)
  | Datatypes.S n' =>
      let '(officialTagsResponse, w') := handleTagRequest env tag config w in
      match officialTagsResponse with
      | Some r => (Some r, w')
      | None => tagRequestLoop env tag config n' w'
      end
  end.

(** A call either returns or never does: a send on a nil channel blocks
    its goroutine for ever. *)
Inductive Outcome (A : Type) :=
| Returned (a : A) (w : World)
| Blocked (w : World).
Arguments Returned {A} _ _.
Arguments Blocked {A} _.

Fixpoint decodeAll (env : Env) (l : list string) : result (list string) :=
  match l with
  | [] => Ok []
  | base64String :: l' =>
      match decodeURLSafeBase64String env base64String with
      | Err err => Err err
      | Ok resultString =>
          match decodeAll env l' with
          | Err err => Err err
          | Ok rest => Ok (resultString :: rest)
          end
      end
  end.

Section OfficialTags.

Variable S : sort.SliceSorter.
Variable env : Env.

(** [filterOfficialChartWithTag] calls [asyncUpdateRepository] with a nil
    channel: the call returns only when the update sends nothing. *)
Definition filterOfficialChartWithTag (taggedCharts : list string)
  (officialHarborDisplayName : string) (w : World)
  : Outcome (result (list helm.ChartVersionResponse)) :=
  match getCustomRepoByName env officialHarborDisplayName with
  | Err err => Returned (Err err) w
  | Ok repository =>
      let '(w1, sent) := asyncUpdateRepository env repository w in
      match sent with
      | _ :: _ => Blocked w1
      | [] =>
          let '(chartList, w2) := getLatestChartsByRepos S env [officialHarborDisplayName] w1 in
          match chartList with
          | Err err => Returned (Err err) w2
          | Ok chartList =>
              Returned
                (Ok (flat_map (fun taggedChart =>
                       List.filter (fun chartInfo => String.eqb (chart_name chartInfo) taggedChart)
                                   chartList) taggedCharts)) w2
          end
      end
  end.

Definition getChartWithOfficialTag (tag : string) (config : helm.MarketplaceServiceConfig)
  (w : World) : Outcome (result helm.ChartVersionResponseWithTag) :=
  let '(officialTagsResponse, w1) := tagRequestLoop env tag config maxRetries w in
  match officialTagsResponse with
  | None =>
      Returned (Err (HttpResponseNotOKError "official tags request no response with max retries")) w1
  | Some officialTagsResponse =>
      match decodeAll env (helm.TaggedCharts officialTagsResponse) with
      | Err err => Returned (Err err) w1
      | Ok taggedCharts =>
          match filterOfficialChartWithTag taggedCharts
                  (helm.OfficialHarborDisplayName config) w1 with
          | Blocked w2 => Blocked w2
          | Returned (Err err) w2 => Returned (Err err) w2
          | Returned (Ok chartWithTag) w2 =>
              Returned (Ok {| helm.Tag := tag; helm.ChartVersionResponses := chartWithTag |}) w2
          end
      end
  end.

(** The loop of [GetChartsWithOfficialTags] over the tags that are left:
    an error is logged and the loop goes on. *)
Fixpoint tagsLoop (config : helm.MarketplaceServiceConfig) (tags : list string)
  (result : list helm.ChartVersionResponseWithTag) (w : World)
  : Outcome (list helm.ChartVersionResponseWithTag) :=
  match tags with
  | [] => Returned result w
  | tag :: tags' =>
      match getChartWithOfficialTag tag config w with
      | Blocked w' => Blocked w'
      | Returned (Err _) w' => tagsLoop config tags' result w'
      | Returned (Ok chartVersionResponseWithTag) w' =>
          tagsLoop config tags' (result ++ [chartVersionResponseWithTag]) w'
      end
  end.

Definition GetChartsWithOfficialTags (tags : list string) (query : param.Query) (w : World)
  : Outcome (ResponseJson * int) :=
  match GetMarketplaceServiceConfig env with
  | Err _ => Returned (GetDefaultServerFailureResponseJson, http.StatusInternalServerError) w
  | Ok config =>
      match tagsLoop config tags [] w with
      | Blocked w' => Blocked w'
      | Returned result w' =>
          Returned ({| Code := constant.Success; Msg := "success";
                       RData := Tagged_data result |}, http.StatusOK) w'
      end
  end.

End OfficialTags.

(** * Vocabulary of the statements *)

(** Ceiling of [total / limit], for a positive [limit]. *)
Definition ceil_div (total limit : Z) : Z := (total + limit - 1) / limit.

(** The rule the specification words for the end of the shorter string,
    in both directions: the shorter string sorts first. *)
Definition shorter_sorts_first : Prop :=
  forall (p s : string) (sortOrder : int),
    sortOrder = ascendingOrder \/ sortOrder = descendingOrder ->
    s <> EmptyString ->
    customCompare p (p +:+ s) sortOrder = true /\
    customCompare (p +:+ s) p sortOrder = false.

Definition size_limit_error : error := Other "response body exceeds the size limit".

(** The read buffer of [io.Copy] holds 32 KiB: no read delivers more. *)
Definition copy_chunk : Z := 32 * 1024.

Definition has_versions (entry : string * list repo.ChartVersion) : bool :=
  match snd entry with [] => false | _ :: _ => true end.

(** What the query promises about the record [c] it emits for a chart with
    the non-empty list [versions]. *)
Definition latest_record (repository : helm.HelmChartRepository)
  (versions : list repo.ChartVersion) (c : helm.ChartVersionResponse) : Prop :=
  helm.Repo c = helm.DisplayName repository
  /\ helm.RepoUrl c = helm.URL repository
  /\ (exists v, v ∈ versions
        /\ helm.Metadata c = repo.set_Keywords (repo.Keywords (helm.Metadata c)) v)
  /\ (forall v, v ∈ versions -> repo.Created v <= repo.Created (helm.Metadata c))
  /\ (forall k, k ∈ repo.Keywords (helm.Metadata c)
        <-> exists v, v ∈ versions /\ k ∈ repo.Keywords v)
  /\ NoDup (repo.Keywords (helm.Metadata c)).

(** The requests for a tag list are the ones that carry the
    [Authorization] header; [tag_requests] counts those sent so far. *)
Definition carries_token (r : Request) : bool :=
  match Authorization r with Some _ => true | None => false end.

Definition tag_requests (w : World) : nat :=
  List.length (List.filter carries_token (exchanges w)).


(** The order of [customCompare] in the ascending direction, read off its
    loop: the first position where the bytes differ decides, by priority
    class, then by lower case, then by the byte; a proper prefix is first. *)
Definition byte_before (ca cb : ascii) : bool :=
  let ra := byte_of ca in
  let rb := byte_of cb in
  if negb (getPriority ra =? getPriority rb) then getPriority ra <? getPriority rb
  else if unicode.ToLower ra =? unicode.ToLower rb then ra <? rb
  else unicode.ToLower ra <? unicode.ToLower rb.

Fixpoint name_before (a b : string) : bool :=
  match a, b with
  | String ca a', String cb b' =>
      if Ascii.eqb ca cb then name_before a' b' else byte_before ca cb
  | EmptyString, String _ _ => true
  | _, _ => false
  end.

(** ** [strconv.Atoi] and [param.ParseQueryParameter] *)

(** The value of a run of decimal digits; [None] at any other byte. *)
Fixpoint digits_value (s : string) (acc : Z) : option Z :=
  match s with
  | EmptyString => Some acc
  | String c s' =>
      if unicode.between 48 57 (byte_of c)
      then digits_value s' (acc * 10 + (byte_of c - 48))
      else None
  end.

(** [strconv.Atoi]: an optional sign and at least one decimal digit, the
    value within the range of [int]; [None] is its error (syntax or range). *)
Definition strconv_Atoi (s : string) : option int :=
  match s with
  | EmptyString => None
  | String c s' =>
      let neg := Ascii.eqb c "-" in
      let digits := if Ascii.eqb c "-" || Ascii.eqb c "+" then s' else s in
      match digits with
      | EmptyString => None
      | String _ _ =>
          match digits_value digits 0 with
          | None => None
          | Some n =>
              let v := if neg then - n else n in
              if (minInt <=? v) && (v <=? maxInt) then Some v else None
          end
      end
  end.

(** [ParseQueryParameter]; [QueryParameter] is [request.QueryParameter],
    the empty string for a parameter the request does not carry. *)
Definition ParseQueryParameter (QueryParameter : string -> string) : param.Query :=
  let limit := default (-1) (strconv_Atoi (QueryParameter "limit")) in
  let page := default 1 (strconv_Atoi (QueryParameter "page")) in
  {| param.QPagination := Some (param.newPagination limit page);
     param.SortBy := QueryParameter "sortType";
     param.Ascending := negb (String.eqb (QueryParameter "order") "desc") |}.

(** The three conditions of [filterChartVersionSlice], on one chart. *)
Definition name_matches (searchParam : ChartSearchParam) (c : helm.ChartVersionResponse) : Prop :=
  Chart searchParam = EmptyString
  \/ strings_Contains (strings_ToLower (chart_name c))
                      (strings_ToLower (Chart searchParam)) = true.

Definition type_matches (searchParam : ChartSearchParam) (c : helm.ChartVersionResponse) : Prop :=
  Types searchParam = []
  \/ exists t, t ∈ Types searchParam
       /\ ((t = "application"
            /\ constant.FuyaoExtensionKeyword ∉ repo.Keywords (helm.Metadata c))
           \/ (t <> "application" /\ t <> EmptyString
               /\ t ∈ repo.Keywords (helm.Metadata c))).

Definition scene_matches (searchParam : ChartSearchParam) (c : helm.ChartVersionResponse) : Prop :=
  Scene searchParam = []
  \/ exists s, s ∈ Scene searchParam /\ s ∈ repo.Keywords (helm.Metadata c).

(** The charts that [filterChartVersionSlice] keeps: its three conditions,
    each one only when its filter is set. *)
Definition keeps (searchParam : ChartSearchParam) (chartInfo : helm.ChartVersionResponse) : bool :=
  (if negb (String.eqb (Chart searchParam) "")
   then strings_Contains (strings_ToLower (chart_name chartInfo))
                         (strings_ToLower (Chart searchParam))
   else true)
  && (if 0 <? len (Types searchParam)
      then existsb (fun typeString =>
             if String.eqb typeString "application" then
               NotContains (repo.Keywords (helm.Metadata chartInfo)) constant.FuyaoExtensionKeyword
             else if negb (String.eqb typeString "") then
               Contains (repo.Keywords (helm.Metadata chartInfo)) typeString
             else false) (Types searchParam)
      else true)
  && (if 0 <? len (Scene searchParam)
      then ContainsOne (repo.Keywords (helm.Metadata chartInfo)) (Scene searchParam)
      else true).

(** ** [pkg/helm/load.go] and [pkg/helm/charts.go]: the archive of a chart *)

(** [registry.IsOCI] of the helm library: the URL has the scheme [oci]. *)
Definition registry_IsOCI (url : string) : bool := strings_HasPrefix url "oci://".

(** [LoadChartBytes].  [LoadOCI] pulls from a registry through the
    library's own client; it is a parameter, and its traffic is not part of
    the requests the package sends itself. *)
Definition LoadChartBytes (LoadOCI : string -> repo.Entry -> result bytes)
  (env : Env) (chartUrl : string) (repoEntry : repo.Entry) (w : World)
  : result bytes * World :=
  if registry_IsOCI chartUrl then (LoadOCI chartUrl repoEntry, w)
  else
    let chartUrl :=
      if negb (strings_HasPrefix chartUrl "https://" || strings_HasPrefix chartUrl "http://")
      then
        let u := repo.URL repoEntry in
        if negb (strings_HasSuffix u "/") then u +:+ "/" +:+ chartUrl
        else u +:+ chartUrl
      else chartUrl in
    LoadData env chartUrl repoEntry w.

(** The loop of [GetChartBytesByVersion] over the versions of the chart:
    the first entry of the requested version is loaded from [entry.URLs[0]];
    [None] is the run-time panic of that index on an entry without URLs. *)
Fixpoint chartBytesLoop (LoadOCI : string -> repo.Entry -> result bytes) (env : Env)
  (entries : list repo.ChartVersion) (chartVersion : string) (repoEntry : repo.Entry)
  (notFound : error) (w : World) : option (result bytes * World) :=
  match entries with
  | [] => Some (Err notFound, w)
  | entry :: entries' =>
      if String.eqb (repo.Version entry) chartVersion then
        match repo.URLs entry with
        | [] => None
        | url0 :: _ => Some (LoadChartBytes LoadOCI env url0 repoEntry w)
        end
      else chartBytesLoop LoadOCI env entries' chartVersion repoEntry notFound w
  end.

Definition GetChartBytesByVersion (LoadOCI : string -> repo.Entry -> result bytes)
  (env : Env) (repoName chartName chartVersion : string) (w : World)
  : option (result bytes * World) :=
  match getRepoEntryAndChartVersions env repoName w with
  | Err err => Some (Err err, w)
  | Ok (chartVersions, repoEntry) =>
      chartBytesLoop LoadOCI env (default [] (chartVersions !! chartName)) chartVersion
        repoEntry
        (Other ("no chart information found: " +:+ repoName +:+ "-" +:+ chartName
                  +:+ "-" +:+ chartVersion))
        w
  end.

(** The URL-safe spelling of a base64 text, as the registry writes the
    names of the tagged charts. *)
Definition url_safe (s : string) : string :=
  strings_ReplaceAll (strings_ReplaceAll (strings_ReplaceAll s "+" "-") "/" "_") "=" ".".

(** The byte [c] does not occur in [s]. *)
Definition lacks (c : ascii) (s : string) : Prop :=
  strings_Contains s (String c EmptyString) = false.

(** A [WWW-Authenticate] challenge in the form the registry sends it:
    [Bearer realm="...",service="...",scope="..."]. *)
Definition quote : string := String "034"%char EmptyString.

Definition challenge_param (key value : string) : string :=
  key +:+ "=" +:+ quote +:+ value +:+ quote.

Definition bearer_challenge (realm service scope : string) : string :=
  "Bearer " +:+ (challenge_param "realm" realm +:+ ","
                 +:+ (challenge_param "service" service +:+ ","
                      +:+ challenge_param "scope" scope)).

(** Between the worlds [w] and [w'] exactly one request was sent, without
    an [Authorization] header, and it was answered by [response], with
    status 200 and a body that was read to its end. *)
Definition answered_200 (env : Env) (w w' : World) (request : Request)
  (response : Response) : Prop :=
  exchanges w' = exchanges w ++ [request]
  /\ Authorization request = None
  /\ roundTrip env (List.length (exchanges w)) request = DoResponse response
  /\ StatusCode response = 200
  /\ readErr (RespBody response) = None.

(** [repoEntry.URL = u] *)
Definition with_URL (u : string) (repoEntry : repo.Entry) : repo.Entry :=
  {| repo.EntryName := repo.EntryName repoEntry; repo.URL := u;
     repo.Username := repo.Username repoEntry; repo.Password := repo.Password repoEntry;
     repo.CertFile := repo.CertFile repoEntry; repo.KeyFile := repo.KeyFile repoEntry;
     repo.CAFile := repo.CAFile repoEntry;
     repo.InsecureSkipTLSverify := repo.InsecureSkipTLSverify repoEntry;
     repo.PassCredentialsAll := repo.PassCredentialsAll repoEntry |}.

(** ** The repository catalog: deleting and listing *)

(** What deleting a repository asks of the cluster, beyond [Env]:
    - [crRawGet]: the error of reading the resource by its metadata name,
      as [k8sutil.CrExists] reads it (no conversion);
    - [crDelete]: the error of deleting the resource.
    The secrets and the config map of the repository are deleted before the
    resource; an error of theirs is only logged. *)
Record CatalogAdmin := {
  crRawGet : string -> option error;
  crDelete : string -> option error
}.

(** [k8sutil.CrExists] *)
Definition CrExists (admin : CatalogAdmin) (resourceName : string) : result bool :=
  match crRawGet admin resourceName with
  | None => Ok true
  | Some err => if IsNotFound err then Ok false else Err err
  end.

(** [isRepoModificationAllowed]: [Some] is the refusal it returns with a
    non-nil error, [None] its [nil, 0, nil]. *)
Definition isRepoModificationAllowed (env : Env) (repoName : string)
  : option (ResponseJson * int) :=
  match GetMarketplaceServiceConfig env with
  | Err _ =>
      Some ({| Code := http.StatusInternalServerError;
               Msg := "error getting marketplace-service config"; RData := nil_data |},
            http.StatusInternalServerError)
  | Ok config =>
      let lowerRepoName := strings_ToLower repoName in
      let lowerOfficialName := strings_ToLower (helm.OfficialHarborDisplayName config) in
      let lowerLocalName := strings_ToLower (helm.LocalHarborDisplayName config) in
      if String.eqb lowerRepoName lowerOfficialName || String.eqb lowerRepoName lowerLocalName
      then Some ({| Code := http.StatusBadRequest;
                    Msg := "repo not allowed for modification"; RData := nil_data |},
                 http.StatusBadRequest)
      else None
  end.

Definition deleteRepoCR (admin : CatalogAdmin) (env : Env) (repoCRName : string)
  : option error :=
  match getCustomRepoByName env repoCRName with
  | Err err => Some err
  | Ok _ => crDelete admin repoCRName
  end.

Definition DeleteRepo (admin : CatalogAdmin) (env : Env) (repoName : string) (w : World)
  : (ResponseJson * int) * World :=
  match isRepoModificationAllowed env repoName with
  | Some refusal => (refusal, w)
  | None =>
      let repoName := strings_ToLower repoName in
      match CrExists admin repoName with
      | Err _ => ((GetDefaultServerFailureResponseJson, http.StatusInternalServerError), w)
      | Ok false =>
          (({| Code := constant.ClientError;
               Msg := "deletion failed, repo：" +:+ repoName +:+ " doesn't exists.";
               RData := nil_data |}, http.StatusBadRequest), w)
      | Ok true =>
          match deleteRepoCR admin env repoName with
          | Some _ =>
              ((GetDefaultServerFailureResponseJson, http.StatusInternalServerError), w)
          | None =>
              (({| Code := constant.Success; Msg := repoName +:+ " deleted";
                   RData := nil_data |}, http.StatusOK),
               DeleteChartCache repoName w)
          end
      end
  end.

(** [helm.RepoResponse] *)
Record RepoResponse := {
  RepoName : string;
  RepoURL : string
}.

(** The response of [ListRepo]: the envelope with its list of repositories. *)
Record RepoListJson := {
  ListCode : int;
  ListMsg : string;
  ListData : option (helm.ListResponse RepoResponse)
}.

Section RepoList.

Variable S : sort.SliceSorter.

Definition sortRepoByName (repoList : list RepoResponse) (ascending : bool)
  : list RepoResponse :=
  if ascending
  then sort.Slice S (fun ri rj => customCompare (RepoName ri) (RepoName rj) ascendingOrder)
                  repoList
  else sort.Slice S (fun ri rj => customCompare (RepoName ri) (RepoName rj) descendingOrder)
                  repoList.

Definition sortRepoResponse (query : param.Query) (repoList : list RepoResponse)
  : list RepoResponse :=
  if String.eqb (param.SortBy query) param.Name
  then sortRepoByName repoList (param.Ascending query)
  else sortRepoByName repoList true.

(** [ListRepo]; [None] is a run-time panic: of the nil [query.Pagination],
    or of the slice expression. *)
Definition ListRepo (env : Env) (query : param.Query) (repo : string)
  : option (RepoListJson * int) :=
  match listCustomRepo env with
  | Err _ =>
      Some ({| ListCode := constant.ServerError; ListMsg := "remote server busy";
               ListData := None |}, http.StatusInternalServerError)
  | Ok customRepoList =>
      let repoList :=
        map (fun customRepo => {| RepoName := helm.DisplayName customRepo;
                                  RepoURL := helm.URL customRepo |})
            (List.filter (fun customRepo =>
               String.eqb repo ""
               || strings_Contains (helm.DisplayName customRepo) (strings_ToLower repo))
               customRepoList) in
      let repoList := sortRepoResponse query repoList in
      let length := len repoList in
      match param.QPagination query with
      | None => None
      | Some pagination =>
          let '((start, end_, totalPages), pagination) :=
            param.GetPaginationResult pagination length in
          match slice repoList start end_ with
          | None => None
          | Some items =>
              Some ({| ListCode := constant.Success; ListMsg := "success";
                       ListData :=
                         Some {| helm.Items := items;
                                 helm.TotalItems := length;
                                 helm.CurrentPage := param.CurrentPage pagination;
                                 helm.TotalPages := totalPages |} |}, http.StatusOK)
          end
      end
  end.

End RepoList.

(** ** [pkg/utils/util]: the size of an uploaded file *)

(** How the stream of a file ends: with [io.EOF] or with another error. *)
Inductive ReadEnd :=
| AtEOF
| ReadFailed (msg : string).

(** A [multipart.File] as its [Read] delivers it: the byte counts of the
    reads that return no error, then the count and the error of the read
    that ends the stream. *)
Record FileReads := {
  readCounts : list int;
  lastCount : int;
  ending : ReadEnd
}.

(** The loop of [CheckFileSize] from a given [size] on. *)
Fixpoint CheckFileSize_loop (size : int) (counts : list int) (lastCount : int)
  (ending : ReadEnd) (maxFileSize : int) : result bool :=
  match counts with
  | n :: counts' =>
      let size := int_add size n in
      if size >? maxFileSize then Ok false
      else CheckFileSize_loop size counts' lastCount ending maxFileSize
  | [] =>
      let size := int_add size lastCount in
      match ending with
      | ReadFailed msg => Err (Other msg)
      | AtEOF => if size >? maxFileSize then Ok false else Ok true
      end
  end.

(** [CheckFileSize]; [bufferSize] only sizes the read buffer, and [make]
    panics ([None]) on a negative size. *)
Definition CheckFileSize (file : FileReads) (bufferSize maxFileSize : int)
  : option (result bool) :=
  if bufferSize <? 0 then None
  else Some (CheckFileSize_loop 0 (readCounts file) (lastCount file) (ending file)
               maxFileSize).

(** The number of bytes of the file. *)
Definition fileSize (file : FileReads) : Z :=
  fold_right Z.add 0 (readCounts file) + lastCount file.

(** ** [pkg/utils/httputil]: the TLS configuration of a repository *)

(** [crypto/tls] constants. *)
Module tls.
Definition VersionTLS12 : Z := 771.
Definition VersionTLS13 : Z := 772.
Definition VerifyClientCertIfGiven : Z := 3.
Definition TLS_ECDHE_RSA_WITH_AES_128_GCM_SHA256 : Z := 49199.
Definition TLS_ECDHE_RSA_WITH_AES_256_GCM_SHA384 : Z := 49200.
Definition TLS_ECDHE_RSA_WITH_CHACHA20_POLY1305 : Z := 52392.
End tls.

Section HarborTLS.

(** The parsers of [crypto/tls] and [crypto/x509]: a key pair from its two
    PEM texts, and the pool that holds the certificates of a PEM text
    ([None] when the text holds none). *)
Variables Certificate CertPool : Type.
Variable X509KeyPair : string -> string -> result Certificate.
Variable AppendCertsFromPEM : string -> option CertPool.

(** [tls.Config], by the fields the package sets; the others keep their
    zero value. *)
Record Config := {
  Certificates : list Certificate;
  MinVersion : Z;
  MaxVersion : Z;
  RootCAs : option CertPool;
  ClientAuth : Z;
  InsecureSkipVerify : bool;
  CipherSuites : list Z
}.

Definition IsHttpsEnabledByPEM (certPEM keyPEM caPEM : string) : result bool :=
  if String.eqb certPEM "" then Ok false
  else if String.eqb keyPEM "" then Ok false
  else if String.eqb caPEM "" then Ok false
  else Ok true.

Definition GetHttpConfigByPEM (certPEM keyPEM caPEM : string) (enableTLS : bool)
  : result Config :=
  if enableTLS then
    match X509KeyPair certPEM keyPEM with
    | Err _ => Err (Other "failed to load x509 key pair")
    | Ok cert =>
        match AppendCertsFromPEM caPEM with
        | None => Err (Other "failed to append CA cert")
        | Some caCertPool =>
            Ok {| Certificates := [cert];
                  MinVersion := tls.VersionTLS12;
                  MaxVersion := tls.VersionTLS13;
                  RootCAs := Some caCertPool;
                  ClientAuth := tls.VerifyClientCertIfGiven;
                  InsecureSkipVerify := false;
                  CipherSuites := [] |}
        end
    end
  else
    Ok {| Certificates := []; MinVersion := 0; MaxVersion := 0; RootCAs := None;
          ClientAuth := 0; InsecureSkipVerify := true; CipherSuites := [] |}.

(** [GetHarborHTTPConfig]; [Ok None] is the nil configuration. *)
Definition GetHarborHTTPConfig (repoEntry : repo.Entry) : result (option Config) :=
  let repoName := repo.EntryName repoEntry in
  if String.eqb repoName "openfuyao" then Ok None
  else
    let enabled :=
      IsHttpsEnabledByPEM (repo.CertFile repoEntry) (repo.KeyFile repoEntry)
        (repo.CAFile repoEntry) in
    match enabled with
    | Err _ => Err (Other "error get https enabling status")
    | Ok enabled =>
        let enabled := enabled && repo.InsecureSkipTLSverify repoEntry in
        match GetHttpConfigByPEM (repo.CertFile repoEntry) (repo.KeyFile repoEntry)
                (repo.CAFile repoEntry) enabled with
        | Err _ => Err (Other "error get http config")
        | Ok tlsClientConfig =>
            if String.eqb repoName "local" && enabled then
              Ok (Some {| Certificates := Certificates tlsClientConfig;
                          MinVersion := tls.VersionTLS12;
                          MaxVersion := tls.VersionTLS12;
                          RootCAs := RootCAs tlsClientConfig;
                          ClientAuth := ClientAuth tlsClientConfig;
                          InsecureSkipVerify := InsecureSkipVerify tlsClientConfig;
                          CipherSuites :=
                            [tls.TLS_ECDHE_RSA_WITH_AES_128_GCM_SHA256;
                             tls.TLS_ECDHE_RSA_WITH_AES_256_GCM_SHA384;
                             tls.TLS_ECDHE_RSA_WITH_CHACHA20_POLY1305] |})
            else Ok (Some tlsClientConfig)
        end
    end.

End HarborTLS.

Arguments Certificates {Certificate CertPool} _.
Arguments MinVersion {Certificate CertPool} _.
Arguments MaxVersion {Certificate CertPool} _.
Arguments RootCAs {Certificate CertPool} _.
Arguments ClientAuth {Certificate CertPool} _.
Arguments InsecureSkipVerify {Certificate CertPool} _.
Arguments CipherSuites {Certificate CertPool} _.

(** ** [pkg/rpc]: streaming the archive of a chart *)

(** The loop of [GetHelmChart] with [fuel] rounds left and chunks of
    [chunkSize] bytes: [chartBytes] is what the buffer still holds, [k] the
    number of messages sent so far; [Send k chunk] is the error of
    [stream.Send] for the message number [k].  The result is the error
    returned and the chunks the stream accepted; [None] when the rounds do
    not suffice. *)
Fixpoint streamChunks (chunkSize : int) (fuel : nat) (Send : nat -> bytes -> option error)
  (k : nat) (chartBytes : bytes) : option (option error * list bytes) :=
  match fuel with
  | O => None
  | Datatypes.S fuel' =>
      if 0 <? len chartBytes then
        let chunk := take (Z.to_nat chunkSize) chartBytes in
        let rest := drop (Z.to_nat chunkSize) chartBytes in
        match Send k chunk with
        | Some err => Some (Some err, [])
        | None =>
            match streamChunks chunkSize fuel' Send (Datatypes.S k) rest with
            | None => None
            | Some (err, sent) => Some (err, chunk :: sent)
            end
        end
      else Some (None, [])
  end.

Definition chunkSize : int := 16384.

(** [GetHelmChart]: the error it returns, the chunks sent, and the world;
    [None] is a panic of [GetChartBytesByVersion]. *)
Definition GetHelmChart (LoadOCI : string -> repo.Entry -> result bytes) (env : Env)
  (Send : nat -> bytes -> option error) (repoName chartName chartVersion : string)
  (w : World) : option ((option error * list bytes) * World) :=
  match GetChartBytesByVersion LoadOCI env repoName chartName chartVersion w with
  | None => None
  | Some (Err _, w') => Some ((Some (Other "internal server error"), []), w')
  | Some (Ok chartBytes, w') =>
      match streamChunks chunkSize (Datatypes.S (List.length chartBytes)) Send 0 chartBytes with
      | None => None
      | Some r => Some (r, w')
      end
  end.

(** Every chunk but the last one has [size] bytes. *)
Fixpoint full_but_last (size : int) (chunks : list bytes) : Prop :=
  match chunks with
  | [] => True
  | chunk :: chunks' =>
      match chunks' with
      | [] => True
      | _ :: _ => len chunk = size
      end /\ full_but_last size chunks'
  end.

(** ** [pkg/server/runtime]: the configuration of the server *)

Module runtime.

Record ServerConfig := {
  BindAddress : string;
  SecurePort : int;
  InsecurePort : int;
  PrivateKey : string;
  CertFile : string;
  CAFile : string
}.

Definition maxSecurePort : int := 65535.

(** [Validate]; [Stat] is the error of [os.Stat] on a path. *)
Definition Validate (Stat : string -> option error) (s : ServerConfig) : list error :=
  let errs : list error := [] in
  let errs :=
    if (SecurePort s =? 0) && (InsecurePort s =? 0)
    then errs ++ [Other "insecure and secure port can not be disabled at the same time"]
    else errs in
  if (SecurePort s >? 0) && (SecurePort s <? maxSecurePort) then
    let errs :=
      if String.eqb (CertFile s) ""
      then errs ++ [Other "tls private key file is empty while secure serving"]
      else match Stat (CertFile s) with
           | Some err => errs ++ [err]
           | None => errs
           end in
    if String.eqb (PrivateKey s) ""
    then errs ++ [Other "tls private key file is empty while secure serving"]
    else match Stat (PrivateKey s) with
         | Some err => errs ++ [err]
         | None => errs
         end
  else errs.

End runtime.

(** ** [pkg/zlog]: cleaning what is logged *)

(** [strings.ReplaceAll(s, old, new)] for a one-byte [old]. *)
Fixpoint strings_ReplaceAll_byte (s : string) (old : ascii) (new : string) : string :=
  match s with
  | EmptyString => EmptyString
  | String c s' =>
      if Ascii.eqb c old then new +:+ strings_ReplaceAll_byte s' old new
      else String c (strings_ReplaceAll_byte s' old new)
  end.

(** The entries of [specialCharMap]: line feed, carriage return, tab and
    the zero byte, each with a backslash and a letter or digit for it. *)
Definition specialCharMap : list (ascii * string) :=
  [ ("010"%char, String "\" (String "n" EmptyString));
    ("013"%char, String "\" (String "r" EmptyString));
    ("009"%char, String "\" (String "t" EmptyString));
    ("000"%char, String "\" (String "0" EmptyString)) ].

(** [CleanSpecialChar].  Ranging over a map visits its entries in an order
    that is not fixed: [order] is the order of one call.  [TrimSpace] is
    [strings.TrimSpace], which also cuts the white space of Unicode. *)
Definition CleanSpecialChar (TrimSpace : string -> string) (order : list (ascii * string))
  (s : string) : string :=
  if String.eqb s "" then EmptyString
  else
    TrimSpace (fold_left (fun s '(oldChar, newChar) => strings_ReplaceAll_byte s oldChar newChar)
                         order s).

(** The replacements of a call, one after the other. *)
Definition replaceSpecial (order : list (ascii * string)) (s : string) : string :=
  fold_left (fun s '(oldChar, newChar) => strings_ReplaceAll_byte s oldChar newChar)
            order s.

(** The entries of a list replace different bytes, and no replacement
    brings back a byte that an entry replaces. *)
Definition harmless (order : list (ascii * string)) : Prop :=
  List.NoDup (map fst order)
  /\ Forall (fun '(_, newChar) => Forall (fun '(c, _) => lacks c newChar) order) order.

(** * Worlds and collaborators of the examples *)

Definition empty_world : World :=
  {| repoChartCache := ∅; repoAsyncTaskMap := ∅;
     officialHarborBearerToken := EmptyString; exchanges := []; goroutines := [] |}.

Definition chart_named (name : string) : helm.ChartVersionResponse :=
  {| helm.Metadata :=
       {| repo.Name := name; repo.Version := "1.0.0"; repo.Keywords := [];
          repo.URLs := []; repo.Created := 0; repo.Digest := EmptyString |};
     helm.Repo := "repo"; helm.RepoUrl := "https://repo" |}.

Definition version_1 : repo.ChartVersion :=
  {| repo.Name := "demo"; repo.Version := "1.0.0"; repo.Keywords := ["a"];
     repo.URLs := ["demo-1.0.0.tgz"]; repo.Created := 100; repo.Digest := "d1" |}.

Definition version_2 : repo.ChartVersion :=
  {| repo.Name := "demo"; repo.Version := "2.0.0"; repo.Keywords := ["b"];
     repo.URLs := ["demo-2.0.0.tgz"]; repo.Created := 200; repo.Digest := "d2" |}.

Definition demo_index : gmap string (list repo.ChartVersion) :=
  {[ "demo" := [version_1; version_2]; "void" := [] ]}.

Definition demo_repository : helm.HelmChartRepository :=
  {| helm.Name := "demo-repo"; helm.DisplayName := "demo-repo";
     helm.URL := "https://charts.example/demo";
     helm.BasicAuthName := EmptyString; helm.TLSName := EmptyString;
     helm.CAName := EmptyString;
     helm.InsecureSkipTLSVerify := false; helm.PassCredentialsAll := false |}.

Definition demo_world : World :=
  set_cache {[ "demo-repo" := demo_index ]} empty_world.

Definition fresh_index : repo.IndexFile :=
  {| repo.APIVersion := "v1"; repo.Entries := {[ "fresh" := [version_2] ]} |}.

Definition demo_config : helm.MarketplaceServiceConfig :=
  {| helm.MarketplaceScenes := ["ai"; "storage"];
     helm.LocalHarborDisplayName := "local";
     helm.OfficialHarborDisplayName := "demo-repo";
     helm.OfficialHarborHost := "https://harbor.example";
     helm.OfficialHarborTagsURL := "/v2/tags" |}.

Definition small_body : Body :=
  {| reads := [[Byte.x61; Byte.x70; Byte.x69]]; readErr := None |}.

Definition ok_reply (b : Body) : HttpReply :=
  DoResponse {| StatusCode := 200; Header := ∅; RespBody := b |}.

(** A cluster with the one repository [demo_repository]; [patch] is the
    answer to the modification-time patch and [reply] the network. *)
Definition demo_env (patch : option error) (reply : nat -> Request -> HttpReply) : Env :=
  {| crGet := fun metaName =>
       if String.eqb metaName "demo-repo" then Ok demo_repository
       else Err (NotFound "not found");
     crList := Ok [demo_repository];
     crPatch := fun _ => patch;
     GetSecret := fun _ => Err (NotFound "no secret");
     GetConfigMap := fun _ => Err (NotFound "no config map");
     GetMarketplaceServiceConfig := Ok demo_config;
     NewRequestErr := fun _ => None;
     httpClientErr := fun _ => None;
     roundTrip := reply;
     yamlUnmarshalIndex := fun _ => Ok fresh_index;
     jsonUnmarshalTags := fun _ => Err (Other "unexpected end of JSON input");
     jsonToken := fun _ => TokenInvalidJson;
     DecodeBase64String := fun s => Ok s |}.

Definition demo_entry : repo.Entry :=
  {| repo.EntryName := "demo-repo"; repo.URL := "https://charts.example/demo";
     repo.Username := EmptyString; repo.Password := EmptyString;
     repo.CertFile := EmptyString; repo.KeyFile := EmptyString;
     repo.CAFile := EmptyString;
     repo.InsecureSkipTLSverify := false; repo.PassCredentialsAll := false |}.

(** A body of 3201 reads of 32 KiB, a little over 100 MiB. *)
Definition big_body : Body :=
  {| reads := repeat (repeat Byte.x00 (Z.to_nat copy_chunk)) 3201; readErr := None |}.

Definition big_response : Response :=
  {| StatusCode := 200; Header := ∅; RespBody := big_body |}.

Definition demo_search : ChartSearchParam :=
  {| Repositories := ["demo-repo"]; Chart := EmptyString; Types := []; Scene := [];
     SQuery := {| param.QPagination := Some (param.newPagination 10 1);
                  param.SortBy := "name"; param.Ascending := true |} |}.

Definition official_repository : helm.HelmChartRepository :=
  {| helm.Name := "openfuyao"; helm.DisplayName := "openfuyao";
     helm.URL := "https://harbor.example/chartrepo/openfuyao";
     helm.BasicAuthName := EmptyString; helm.TLSName := EmptyString;
     helm.CAName := EmptyString;
     helm.InsecureSkipTLSVerify := false; helm.PassCredentialsAll := false |}.

Definition harbor_config : helm.MarketplaceServiceConfig :=
  {| helm.MarketplaceScenes := ["ai"; "storage"];
     helm.LocalHarborDisplayName := "local";
     helm.OfficialHarborDisplayName := "openfuyao";
     helm.OfficialHarborHost := "https://harbor.example";
     helm.OfficialHarborTagsURL := "/v2/tags" |}.

Definition dq : string := String "034"%char EmptyString.

Definition challenge : string :=
  "Bearer realm=" +:+ dq +:+ "https://harbor.example/service/token" +:+ dq
  +:+ ",service=" +:+ dq +:+ "harbor-registry" +:+ dq
  +:+ ",scope=" +:+ dq +:+ "repository:openfuyao:pull" +:+ dq.

Definition unauthorized : HttpReply :=
  DoResponse {| StatusCode := 401;
                Header := {[ "Www-Authenticate" := [challenge] ]};
                RespBody := small_body |}.

(** The tag endpoint refuses every token; the token endpoint hands out one. *)
Definition always_401 (n : nat) (req : Request) : HttpReply :=
  match Authorization req with
  | Some _ => unauthorized
  | None => ok_reply small_body
  end.

(** The tag endpoint accepts the token that the token endpoint hands out. *)
Definition accepts_renewed (n : nat) (req : Request) : HttpReply :=
  match Authorization req with
  | Some tok => if String.eqb tok "t0k3n" then ok_reply small_body else unauthorized
  | None => ok_reply small_body
  end.


Definition harbor_env (reply : nat -> Request -> HttpReply) : Env :=
  {| crGet := fun metaName =>
       if String.eqb metaName "openfuyao" then Ok official_repository
       else Err (NotFound "not found");
     crList := Ok [official_repository];
     crPatch := fun _ => None;
     GetSecret := fun _ => Err (NotFound "no secret");
     GetConfigMap := fun _ => Err (NotFound "no config map");
     GetMarketplaceServiceConfig := Ok harbor_config;
     NewRequestErr := fun _ => None;
     httpClientErr := fun _ => None;
     roundTrip := reply;
     yamlUnmarshalIndex := fun _ => Ok fresh_index;
     jsonUnmarshalTags := fun _ => Ok {| helm.TaggedCharts := ["ZGVtbw.."] |};
     jsonToken := fun _ => TokenString "t0k3n";
     DecodeBase64String := fun s => Ok "demo" |}.

Definition harbor_world : World :=
  set_cache {[ "openfuyao" := demo_index ]} empty_world.

Definition attempt (reply : nat -> Request -> HttpReply) (w : World) : World :=
  snd (handleTagRequest (harbor_env reply) "tagA" harbor_config w).

(** A cluster whose catalog holds [demo_repository], configured with the
    official repository [openfuyao], and that deletes what it is asked to. *)
Definition catalog_env : Env :=
  {| crGet := fun metaName =>
       if String.eqb metaName "demo-repo" then Ok demo_repository
       else Err (NotFound "not found");
     crList := Ok [demo_repository];
     crPatch := fun _ => None;
     GetSecret := fun _ => Err (NotFound "no secret");
     GetConfigMap := fun _ => Err (NotFound "no config map");
     GetMarketplaceServiceConfig := Ok harbor_config;
     NewRequestErr := fun _ => None;
     httpClientErr := fun _ => None;
     roundTrip := fun _ _ => ok_reply small_body;
     yamlUnmarshalIndex := fun _ => Ok fresh_index;
     jsonUnmarshalTags := fun _ => Err (Other "unexpected end of JSON input");
     jsonToken := fun _ => TokenInvalidJson;
     DecodeBase64String := fun s => Ok s |}.

Definition obliging_admin : CatalogAdmin :=
  {| crRawGet := fun _ => None; crDelete := fun _ => None |}.

(** An upload of 100 bytes, read in three pieces. *)
Definition small_upload : FileReads :=
  {| readCounts := [40; 40]; lastCount := 20; ending := AtEOF |}.

(** An entry with all its PEM material that asks to skip the verification. *)
Definition pem_entry : repo.Entry :=
  {| repo.EntryName := "demo-repo"; repo.URL := "https://charts.example/demo";
     repo.Username := EmptyString; repo.Password := EmptyString;
     repo.CertFile := "CERT"; repo.KeyFile := "KEY"; repo.CAFile := "CA";
     repo.InsecureSkipTLSverify := true; repo.PassCredentialsAll := false |}.

(** * Properties *)

(** ** Integers *)

Ltac int_range := unfold inInt, minInt, maxInt in *; lia.

Lemma wrap_id z : inInt z -> wrap z = z.
Proof.
  unfold inInt, minInt, maxInt, wrap. intros H.
  rewrite Z.mod_small; lia.
Qed.

Lemma len_nonneg {A} (l : list A) : 0 <= len l.
Proof. unfold len. lia. Qed.

(** ** Insertion sort is a [SliceSorter] *)

Module sort_facts.
Import sort.

Section Sink.

Context {A : Type} (less : A -> A -> bool).

Lemma sink_perm x before : sink less x before ≡ₚ x :: before.
Proof.
  induction before as [|y before IH]; simpl; [done|].
  destruct (less x y); [|done].
  rewrite IH. apply Permutation_swap.
Qed.

Lemma fold_sink_perm data before :
  fold_left (fun before x => sink less x before) data before ≡ₚ data ++ before.
Proof.
  revert before. induction data as [|x data IH]; intros before; simpl; [done|].
  rewrite IH, sink_perm. by rewrite Permutation_middle.
Qed.

Lemma insertionSortLessFunc_perm data : insertionSortLessFunc less data ≡ₚ data.
Proof.
  unfold insertionSortLessFunc.
  rewrite <- (Permutation_rev (fold_left _ data [])).
  rewrite fold_sink_perm. by rewrite app_nil_r.
Qed.

Hypothesis SW : StrictWeak less.

(** Read from the right end: nothing is [less] than what stands left of it. *)
Definition Descending (before : list A) : Prop :=
  StronglySorted (fun r l => less r l = false) before.

Lemma less_asym x y : less x y = true -> less y x = false.
Proof.
  intros Hxy. destruct (less y x) eqn:Hyx; [|done].
  pose proof (sw_trans less SW _ _ _ Hxy Hyx) as Hxx.
  by rewrite (sw_irrefl less SW) in Hxx.
Qed.

Lemma sink_descending x before : Descending before -> Descending (sink less x before).
Proof.
  unfold Descending.
  induction before as [|y before IH]; intros Hs; simpl.
  - repeat constructor.
  - apply StronglySorted_inv in Hs as [Hs Hy].
    destruct (less x y) eqn:Hxy.
    + constructor; [by apply IH|].
      rewrite sink_perm. constructor; [by apply less_asym|done].
    + constructor; [by constructor|].
      constructor; [done|].
      eapply Forall_impl; [exact Hy|].
      intros z Hz. simpl in Hz. by apply (sw_incomp less SW x y z).
Qed.

Lemma fold_sink_descending data before :
  Descending before ->
  Descending (fold_left (fun before x => sink less x before) data before).
Proof.
  revert before. induction data as [|x data IH]; intros before Hs; simpl; [done|].
  by apply IH, sink_descending.
Qed.

Lemma Descending_rev before : Descending before -> Ordered less (rev before).
Proof.
  unfold Descending, Ordered.
  induction before as [|y before IH]; intros Hs; simpl; [constructor|].
  apply StronglySorted_inv in Hs as [Hs Hy].
  specialize (IH Hs).
  assert (Hall : Forall (fun z => less y z = false) (rev before)).
  { rewrite Forall_forall in *. intros z Hz. apply Hy.
    apply list_elem_of_In, in_rev. by apply list_elem_of_In. }
  clear Hs Hy. induction (rev before) as [|z l IHl]; simpl.
  - repeat constructor.
  - apply StronglySorted_inv in IH as [IH Hz].
    apply Forall_cons in Hall as [Hyz Hall].
    constructor; [by apply IHl|].
    apply Forall_app. split; [done|]. by constructor.
Qed.

Lemma insertionSortLessFunc_ordered data : Ordered less (insertionSortLessFunc less data).
Proof.
  unfold insertionSortLessFunc.
  apply Descending_rev, fold_sink_descending. constructor.
Qed.

End Sink.

End sort_facts.

(** The sorter that uses the insertion sort at every length. *)
Definition insertion_sorter : sort.SliceSorter :=
  {| sort.Slice := @sort.insertionSortLessFunc;
     sort.Slice_perm := @sort_facts.insertionSortLessFunc_perm;
     sort.Slice_ordered := fun A less l SW =>
       sort_facts.insertionSortLessFunc_ordered less SW l;
     sort.Slice_short := fun A less l _ => eq_refl |}.

(** ** The name comparator *)

Lemma byte_of_inj x y : byte_of x = byte_of y -> x = y.
Proof.
  unfold byte_of. intros H. apply N2Z.inj in H.
  rewrite <- (ascii_N_embedding x), <- (ascii_N_embedding y). by rewrite H.
Qed.

Lemma customCompare_loop_prefix la lb p a b sortOrder :
  customCompare_loop la lb (p +:+ a) (p +:+ b) sortOrder
  = customCompare_loop la lb a b sortOrder.
Proof.
  induction p as [|c p IH]; simpl; [done|].
  by rewrite !Z.eqb_refl.
Qed.

Lemma customCompare_loop_left_exhausted la lb p s sortOrder :
  customCompare_loop la lb p (p +:+ s) sortOrder = Bool.eqb (la <? lb) (sortOrder =? 1).
Proof.
  induction p as [|c p IH]; simpl; [done|].
  by rewrite !Z.eqb_refl.
Qed.

Lemma customCompare_loop_right_exhausted la lb p s sortOrder :
  customCompare_loop la lb (p +:+ s) p sortOrder = Bool.eqb (la <? lb) (sortOrder =? 1).
Proof.
  induction p as [|c p IH]; simpl; [by destruct s|].
  by rewrite !Z.eqb_refl.
Qed.

Lemma slen_app p s : slen (p +:+ s) = slen p + slen s.
Proof.
  unfold slen. induction p as [|c p IH]; simpl String.length; [done|]. lia.
Qed.

(** C1, as written, fails in the descending direction: with every compared
    byte equal, "ab" is placed before "a", and "a" is not placed before "ab". *)
Lemma customCompare_descending_longer_first : ~ shorter_sorts_first.
Proof.
  intros H.
  destruct (H "a"%string "b"%string descendingOrder) as [H1 _]; [by right|done|].
  vm_compute in H1. discriminate.
Qed.

(** C1 (amended).  [customCompare a b sortOrder] tells whether [a] is placed
    before [b]; the direction is ascending when [sortOrder] is 1.  Bytes are
    compared from the first position on.  At the first position where the
    bytes [x] and [y] differ: when their priority classes differ, the lower
    class is placed first in the ascending direction and last otherwise;
    when the classes agree the lower-cased bytes are compared, and when
    these are equal too the raw bytes are, both honouring the direction.
    When the shorter string ends with every compared position equal, the
    shorter string is placed first in the ascending direction and last
    otherwise. *)
Theorem customCompare_spec (p s t : string) (x y : ascii) (sortOrder : int) :
  let ascending := sortOrder =? 1 in
  let rx := byte_of x in
  let ry := byte_of y in
  (x <> y ->
   customCompare (p +:+ String x s) (p +:+ String y t) sortOrder =
     if negb (getPriority rx =? getPriority ry)
     then Bool.eqb (getPriority rx <? getPriority ry) ascending
     else if unicode.ToLower rx =? unicode.ToLower ry
          then Bool.eqb (rx <? ry) ascending
          else Bool.eqb (unicode.ToLower rx <? unicode.ToLower ry) ascending)
  /\ (s <> EmptyString ->
      customCompare p (p +:+ s) sortOrder = ascending
      /\ customCompare (p +:+ s) p sortOrder = negb ascending).
Proof.
  cbv zeta. split.
  - intros Hxy. unfold customCompare.
    rewrite customCompare_loop_prefix. cbn [customCompare_loop].
    assert ((byte_of x =? byte_of y) = false) as ->.
    { apply Z.eqb_neq. intros E. by apply Hxy, byte_of_inj. }
    done.
  - intros Hs.
    assert (0 < slen s) as Hlen.
    { destruct s; [done|]. unfold slen. simpl String.length. lia. }
    unfold customCompare.
    rewrite customCompare_loop_left_exhausted, customCompare_loop_right_exhausted, slen_app.
    assert ((slen p <? slen p + slen s) = true) as -> by (apply Z.ltb_lt; lia).
    assert ((slen p + slen s <? slen p) = false) as -> by (apply Z.ltb_ge; lia).
    by destruct (sortOrder =? 1).
Qed.

Lemma customCompare_spec_witness :
  customCompare "a1" "A2" ascendingOrder = false
  /\ customCompare "a" "ab" descendingOrder = false
  /\ customCompare "ab" "a" descendingOrder = true.
Proof.
  assert (Hne : "a"%char <> "A"%char) by discriminate.
  assert (Hs : "b"%string <> EmptyString) by discriminate.
  exact (conj (proj1 (customCompare_spec EmptyString "1" "2" "a" "A" ascendingOrder) Hne)
              (proj2 (customCompare_spec "a" "b" EmptyString "a" "a" descendingOrder) Hs)).
Defined.

(** Positions are bytes.  The euro sign is a symbol and takes three bytes
    in UTF-8; the first, 0xE2, read as a rune is a letter, and the string is
    ordered among the letters, after "a". *)
Example customCompare_reads_bytes :
  slen "€" = 3
  /\ getPriority 226 = orderOne
  /\ customCompare "€" "a" ascendingOrder = false
  /\ customCompare "a" "€" ascendingOrder = true.
Proof. repeat apply conj; vm_compute; reflexivity. Qed.

(** ** Sorting by name *)

Lemma sink_map {A B} (f : A -> B) (less : B -> B -> bool) x before :
  map f (sort.sink (fun a b => less (f a) (f b)) x before)
  = sort.sink less (f x) (map f before).
Proof.
  induction before as [|y before IH]; simpl; [done|].
  destruct (less (f x) (f y)); simpl; [by rewrite IH|done].
Qed.

Lemma insertionSortLessFunc_map {A B} (f : A -> B) (less : B -> B -> bool) data :
  map f (sort.insertionSortLessFunc (fun a b => less (f a) (f b)) data)
  = sort.insertionSortLessFunc less (map f data).
Proof.
  unfold sort.insertionSortLessFunc. rewrite map_rev. f_equal.
  change (@nil B) with (map f []). generalize (@nil A).
  induction data as [|x data IH]; intros before; simpl; [done|].
  by rewrite IH, sink_map.
Qed.

(** C2, as written, fails: the ascending sort does not produce
    ["-x"; "a1"; "A2"; "9"]. *)
Lemma sortChartByName_not_lowercase_first :
  map chart_name
      (sortChartByName insertion_sorter
         (map chart_named ["a1"; "A2"; "-x"; "9"]%string) true)
  <> ["-x"; "a1"; "A2"; "9"]%string.
Proof. vm_compute. discriminate. Qed.

(** C2 (amended).  Sorting charts named "a1", "A2", "-x", "9" ascending by
    name yields the order "-x", "A2", "a1", "9": punctuation first, then
    letters, then digits, and among letters that differ only in case the
    upper-case one first, since the tie is broken by the raw byte at the
    first position. *)
Theorem sortChartByName_example (S : sort.SliceSorter)
  (chartList : list helm.ChartVersionResponse) :
  map chart_name chartList = ["a1"; "A2"; "-x"; "9"]%string ->
  map chart_name (sortChartByName S chartList true) = ["-x"; "A2"; "a1"; "9"]%string.
Proof.
  intros Hnames. unfold sortChartByName.
  rewrite sort.Slice_short.
  - rewrite (insertionSortLessFunc_map chart_name
               (fun a b => customCompare a b ascendingOrder)).
    rewrite Hnames. reflexivity.
  - rewrite <- (length_map chart_name), Hnames. unfold sort.maxInsertion. simpl. lia.
Qed.

Lemma sortChartByName_example_witness :
  map chart_name
      (sortChartByName insertion_sorter
         (map chart_named ["a1"; "A2"; "-x"; "9"]%string) true)
  = ["-x"; "A2"; "a1"; "9"]%string.
Proof.
  apply (sortChartByName_example insertion_sorter
           (map chart_named ["a1"; "A2"; "-x"; "9"]%string)).
  reflexivity.
Defined.

(** ** Pagination *)

Lemma slice_all {A} (result : list A) : slice result 0 (len result) = Some result.
Proof.
  unfold slice. pose proof (len_nonneg result).
  replace (0 <=? 0) with true by done.
  replace (0 <=? len result) with true by (symmetry; apply Z.leb_le; lia).
  rewrite Z.leb_refl. simpl. f_equal.
  rewrite Z.sub_0_r. unfold len. rewrite Nat2Z.id. apply firstn_all.
Qed.

Lemma slice_window {A} (result : list A) (offset limit : Z) :
  0 <= offset <= len result -> 0 < limit ->
  slice result offset (Z.min (offset + limit) (len result))
  = Some (take (Z.to_nat limit) (drop (Z.to_nat offset) result)).
Proof.
  intros Ho Hl. unfold slice.
  replace (0 <=? offset) with true by (symmetry; apply Z.leb_le; lia).
  replace (offset <=? Z.min (offset + limit) (len result)) with true
    by (symmetry; apply Z.leb_le; lia).
  replace (Z.min (offset + limit) (len result) <=? len result) with true
    by (symmetry; apply Z.leb_le; lia).
  simpl. f_equal.
  destruct (Z.le_gt_cases (offset + limit) (len result)) as [Hle|Hgt].
  - rewrite Z.min_l by lia. f_equal. lia.
  - rewrite Z.min_r by lia.
    rewrite !take_ge; [done| |]; rewrite length_drop; unfold len in *; lia.
Qed.

Lemma totalPages_ceil (total limit : Z) :
  1 <= total -> 0 < limit -> Z.quot (total - 1) limit + 1 = ceil_div total limit.
Proof.
  intros Ht Hl. unfold ceil_div.
  rewrite Z.quot_div_nonneg by lia.
  replace (total + limit - 1) with (total - 1 + 1 * limit) by lia.
  rewrite Z.div_add by lia. done.
Qed.

(** C3, as written, fails at three inputs: with 25 items, limit 10 and page
    0 the offset is out of range and the whole list comes back, on one page,
    not the first ten items on one of three pages; with the no-limit
    sentinel and page 5 the response says page 5, not page 1; with no item
    and limit 10 the response counts one page, the ceiling of 0/10 being 0. *)
Lemma pageResult_not_as_described :
  pageResult (seqZ 1 25) (Some (param.newPagination 10 0))
    = Some {| helm.Items := seqZ 1 25; helm.TotalItems := 25;
              helm.CurrentPage := 0; helm.TotalPages := 1 |}
  /\ seqZ 1 25 <> seqZ 1 10
  /\ 1 <> ceil_div 25 10
  /\ pageResult (seqZ 1 25) (Some (param.newPagination param.noPaginationLimit 5))
    = Some {| helm.Items := seqZ 1 25; helm.TotalItems := 25;
              helm.CurrentPage := 5; helm.TotalPages := 1 |}
  /\ pageResult (@nil Z) (Some (param.newPagination 10 1))
    = Some {| helm.Items := []; helm.TotalItems := 0;
              helm.CurrentPage := 1; helm.TotalPages := 1 |}
  /\ 1 <> ceil_div 0 10.
Proof. vm_compute. repeat split; discriminate. Qed.

(** C3 (amended).  For a list of at most [maxInt] records and a pagination
    whose limit is a 64-bit integer:
    - without a pagination the whole list is page 1 of 1;
    - when the limit is not positive (the no-limit sentinel -1 included) or
      the offset is negative, the whole list is returned on 1 page, and the
      page number is the requested one;
    - when the limit is positive and the offset exceeds the number of
      records, the window restarts at the first record without an error:
      the first [limit] records are returned, the page number still the
      requested one;
    - when the limit is positive and the offset is below the number of
      records, the [limit] records from the offset on (fewer at the end of
      the list) are returned;
    - in the last two cases the number of pages is [(total-1)/limit + 1],
      the ceiling of [total/limit] as soon as there is a record;
    - of 25 records with limit 10, page 3 is records 21 to 25 of 3 pages,
      and page 99 shows records 1 to 10. *)
Theorem pageResult_spec {A} (result : list A) (p : param.Pagination) :
  len result <= maxInt ->
  inInt (param.Limit p) ->
  pageResult result None
    = Some {| helm.Items := result; helm.TotalItems := len result;
              helm.CurrentPage := 1; helm.TotalPages := 1 |}
  /\ (param.Limit p <= 0 \/ param.Offset p < 0 ->
      pageResult result (Some p)
      = Some {| helm.Items := result; helm.TotalItems := len result;
                helm.CurrentPage := param.CurrentPage p; helm.TotalPages := 1 |})
  /\ (0 < param.Limit p -> len result < param.Offset p ->
      pageResult result (Some p)
      = Some {| helm.Items := take (Z.to_nat (param.Limit p)) result;
                helm.TotalItems := len result;
                helm.CurrentPage := param.CurrentPage p;
                helm.TotalPages := Z.quot (len result - 1) (param.Limit p) + 1 |})
  /\ (0 < param.Limit p -> 0 <= param.Offset p < len result ->
      param.Offset p + param.Limit p <= maxInt ->
      pageResult result (Some p)
      = Some {| helm.Items :=
                  take (Z.to_nat (param.Limit p)) (drop (Z.to_nat (param.Offset p)) result);
                helm.TotalItems := len result;
                helm.CurrentPage := param.CurrentPage p;
                helm.TotalPages := Z.quot (len result - 1) (param.Limit p) + 1 |})
  /\ (0 < param.Limit p -> 1 <= len result ->
      Z.quot (len result - 1) (param.Limit p) + 1 = ceil_div (len result) (param.Limit p))
  /\ pageResult (seqZ 1 25) (Some (param.newPagination 10 3))
     = Some {| helm.Items := seqZ 21 5; helm.TotalItems := 25;
               helm.CurrentPage := 3; helm.TotalPages := 3 |}
  /\ pageResult (seqZ 1 25) (Some (param.newPagination 10 99))
     = Some {| helm.Items := seqZ 1 10; helm.TotalItems := 25;
               helm.CurrentPage := 99; helm.TotalPages := 3 |}.
Proof.
  intros Hlen HL. pose proof (len_nonneg result) as H0.
  assert (Hquot : 0 < param.Limit p ->
            -1 <= Z.quot (len result - 1) (param.Limit p) <= Z.max (len result - 1) 0).
  { intros Hl. destruct (Z.eq_dec (len result) 0) as [E|E].
    - rewrite E. change (0 - 1) with (- (1)).
      rewrite Z.quot_opp_l by lia. rewrite Z.quot_div_nonneg by lia.
      pose proof (Z.div_pos 1 (param.Limit p)).
      pose proof (Z.div_le_upper_bound 1 (param.Limit p) 1).
      nia.
    - rewrite Z.quot_div_nonneg by lia.
      pose proof (Z.div_pos (len result - 1) (param.Limit p)).
      pose proof (Z.div_le_upper_bound (len result - 1) (param.Limit p) (len result - 1)).
      nia. }
  repeat split.
  - unfold pageResult, param.GetPaginationResult. simpl. by rewrite slice_all.
  - intros Hbad. unfold pageResult, param.GetPaginationResult. simpl.
    assert (((param.Limit p <=? 0) || (param.Offset p <? 0)) = true) as ->.
    { apply orb_true_iff. destruct Hbad; [left; apply Z.leb_le|right; apply Z.ltb_lt]; lia. }
    by rewrite slice_all.
  - intros Hl Ho. unfold pageResult, param.GetPaginationResult. simpl.
    assert (((param.Limit p <=? 0) || (param.Offset p <? 0)) = false) as ->.
    { apply orb_false_iff. split; [apply Z.leb_gt|apply Z.ltb_ge]; lia. }
    assert ((param.Limit p =? param.noPaginationLimit) = false) as ->.
    { apply Z.eqb_neq. unfold param.noPaginationLimit. lia. }
    assert ((param.Offset p >? len result) = true) as ->.
    { apply Z.gtb_lt. lia. }
    simpl. unfold int_add, int_div, int_sub.
    rewrite (wrap_id (0 + _)) by int_range.
    rewrite (wrap_id (len result - 1)) by int_range.
    rewrite (wrap_id (Z.quot _ _)) by (specialize (Hquot Hl); int_range).
    rewrite (wrap_id (Z.quot _ _ + 1)) by (specialize (Hquot Hl); int_range).
    rewrite (slice_window result 0 (param.Limit p)) by lia. done.
  - intros Hl Ho Hsum. unfold pageResult, param.GetPaginationResult. simpl.
    assert (((param.Limit p <=? 0) || (param.Offset p <? 0)) = false) as ->.
    { apply orb_false_iff. split; [apply Z.leb_gt|apply Z.ltb_ge]; lia. }
    assert ((param.Limit p =? param.noPaginationLimit) = false) as ->.
    { apply Z.eqb_neq. unfold param.noPaginationLimit. lia. }
    assert ((param.Offset p >? len result) = false) as ->.
    { rewrite Z.gtb_ltb. apply Z.ltb_ge. lia. }
    unfold int_add, int_div, int_sub.
    rewrite (wrap_id (param.Offset p + _)) by int_range.
    rewrite (wrap_id (len result - 1)) by int_range.
    rewrite (wrap_id (Z.quot _ _)) by (specialize (Hquot Hl); int_range).
    rewrite (wrap_id (Z.quot _ _ + 1)) by (specialize (Hquot Hl); int_range).
    rewrite slice_window by lia. done.
  - intros Hl Ht. by apply totalPages_ceil.
Qed.

Lemma pageResult_spec_witness :
  pageResult (seqZ 1 25) (Some (param.newPagination 10 3))
  = Some {| helm.Items := take (Z.to_nat 10) (drop (Z.to_nat 20) (seqZ 1 25));
            helm.TotalItems := len (seqZ 1 25);
            helm.CurrentPage := 3;
            helm.TotalPages := Z.quot (len (seqZ 1 25) - 1) 10 + 1 |}.
Proof.
  refine (proj1 (proj2 (proj2 (proj2
    (pageResult_spec (seqZ 1 25) (param.newPagination 10 3) _ _)))) _ _ _);
    vm_compute; try split; congruence.
Defined.

(** ** The chart cache *)

(** C10.  Setting or deleting the cache entry of a repository [r] leaves
    what [GetChartCacheByRepo] answers for any other repository [r']
    untouched, and right after [SetChartCache r index] the lookup of [r]
    answers the entries of [index] and [true]. *)
Theorem cache_frame (w : World) (r r' : string) (index : repo.IndexFile) :
  r <> r' ->
  GetChartCacheByRepo r' (SetChartCache r index w) = GetChartCacheByRepo r' w
  /\ GetChartCacheByRepo r' (DeleteChartCache r w) = GetChartCacheByRepo r' w
  /\ GetChartCacheByRepo r (SetChartCache r index w) = (repo.Entries index, true).
Proof.
  intros Hne. unfold GetChartCacheByRepo, SetChartCache, DeleteChartCache. simpl.
  rewrite lookup_insert_ne by done.
  rewrite lookup_delete_ne by done.
  by rewrite lookup_insert_eq.
Qed.

Lemma cache_frame_witness :
  GetChartCacheByRepo "b"
    (SetChartCache "a" {| repo.APIVersion := "v1"; repo.Entries := ∅ |} empty_world)
  = GetChartCacheByRepo "b" empty_world
  /\ GetChartCacheByRepo "b" (DeleteChartCache "a" empty_world)
     = GetChartCacheByRepo "b" empty_world
  /\ GetChartCacheByRepo "a"
       (SetChartCache "a" {| repo.APIVersion := "v1"; repo.Entries := ∅ |} empty_world)
     = (∅, true).
Proof.
  apply (cache_frame empty_world "a" "b" {| repo.APIVersion := "v1"; repo.Entries := ∅ |}).
  discriminate.
Defined.

(** ** The latest version of every chart *)

Lemma After_strict_weak :
  sort.StrictWeak (fun vi vj : repo.ChartVersion =>
                     repo.After (repo.Created vi) (repo.Created vj)).
Proof.
  unfold repo.After. constructor.
  - intros x. apply Z.ltb_irrefl.
  - intros x y z Hxy Hyz. apply Z.ltb_lt in Hxy, Hyz. apply Z.ltb_lt. lia.
  - intros x y z Hxy Hyz. apply Z.ltb_ge in Hxy, Hyz. apply Z.ltb_ge. lia.
Qed.

Lemma fold_keywords (ks : list string) (unique : gset string) :
  fold_left (fun unique keyword => {[keyword]} ∪ unique) ks unique
  = list_to_set ks ∪ unique.
Proof.
  revert unique. induction ks as [|k ks IH]; intros unique; simpl.
  - by rewrite (left_id_L ∅ (∪)).
  - rewrite IH. apply set_eq. intros x.
    rewrite !elem_of_union, elem_of_singleton. tauto.
Qed.

Lemma elem_of_ExtractUniqueKeywords (chartVersions : list repo.ChartVersion) (k : string) :
  k ∈ ExtractUniqueKeywords chartVersions
  <-> exists v, v ∈ chartVersions /\ k ∈ repo.Keywords v.
Proof.
  unfold ExtractUniqueKeywords. rewrite elem_of_elements.
  assert (Hgen : forall unique : gset string,
    k ∈ fold_left
          (fun unique chartVersion =>
             fold_left (fun unique keyword => {[keyword]} ∪ unique)
                       (repo.Keywords chartVersion) unique) chartVersions unique
    <-> k ∈ unique \/ exists v, v ∈ chartVersions /\ k ∈ repo.Keywords v).
  { induction chartVersions as [|cv cvs IH]; intros unique; simpl.
    - split; [by left|]. intros [H|(v & Hv & _)]; [done|]. by apply elem_of_nil in Hv.
    - rewrite IH, fold_keywords, elem_of_union, elem_of_list_to_set. split.
      + intros [[H|H]|(v & Hv & Hk)].
        * right. exists cv. split; [left|done].
        * by left.
        * right. exists v. split; [by right|done].
      + intros [H|(v & Hv & Hk)]; [by left; right|].
        apply elem_of_cons in Hv as [->|Hv]; [by left; left|].
        right. by exists v. }
  rewrite Hgen. split; [|by right].
  intros [H|H]; [|done]. by apply elem_of_empty in H.
Qed.

Section Latest.

Variable S : sort.SliceSorter.

Lemma latestChart_empty repository name :
  latestChart S repository (name, []) = None.
Proof.
  unfold latestChart, latestOf. simpl.
  pose proof (sort.Slice_perm S _
    (fun vi vj => repo.After (repo.Created vi) (repo.Created vj)) []) as Hp.
  apply Permutation_nil_r in Hp. by rewrite Hp.
Qed.

Lemma latestChart_nonempty repository name versions :
  versions <> [] ->
  exists c, latestChart S repository (name, versions) = Some c
            /\ latest_record repository versions c.
Proof.
  intros Hne. unfold latestChart, latestOf. simpl.
  set (less := fun vi vj : repo.ChartVersion =>
                 repo.After (repo.Created vi) (repo.Created vj)).
  pose proof (sort.Slice_perm S _ less versions) as Hp.
  pose proof (sort.Slice_ordered S _ less versions After_strict_weak) as Ho.
  destruct (sort.Slice S less versions) as [|first rest] eqn:Hs.
  - apply Permutation_nil_l in Hp. congruence.
  - simpl. eexists. split; [reflexivity|].
    unfold latest_record. simpl. repeat split.
    + exists first. split; [|done]. rewrite <- Hp. left.
    + intros v Hv. rewrite <- Hp in Hv.
      apply elem_of_cons in Hv as [->|Hv]; [lia|].
      apply StronglySorted_inv in Ho as [_ Hall].
      rewrite Forall_forall in Hall. specialize (Hall v Hv).
      unfold less, repo.After in Hall. apply Z.ltb_ge in Hall. lia.
    + intros Hk. apply elem_of_ExtractUniqueKeywords in Hk as (v & Hv & Hk).
      exists v. split; [by rewrite <- Hp|done].
    + intros (v & Hv & Hk). apply elem_of_ExtractUniqueKeywords.
      exists v. split; [by rewrite Hp|done].
    + unfold ExtractUniqueKeywords. apply NoDup_elements.
Qed.

Lemma Forall2_filter_omap {A B} (P : A -> bool) (f : A -> option B) (R : A -> B -> Prop)
  (l : list A) :
  (forall x, x ∈ l -> P x = false -> f x = None) ->
  (forall x, x ∈ l -> P x = true -> exists y, f x = Some y /\ R x y) ->
  Forall2 R (List.filter P l) (omap f l).
Proof.
  induction l as [|x l IH]; intros Hnone Hsome; simpl; [constructor|].
  assert (IH' : Forall2 R (List.filter P l) (omap f l)).
  { apply IH; intros y Hy; [apply Hnone|apply Hsome]; by right. }
  destruct (P x) eqn:HP.
  - destruct (Hsome x) as (y & -> & HR); [left|done|]. by constructor.
  - rewrite (Hnone x); [done|left|done].
Qed.

(** C4.  For a repository with a cached index, the latest-versions query
    emits one record for every chart name that has at least one version and
    none for a chart without versions.  The record is one of the versions
    of the chart, no version of the chart was created later, and its
    keywords are, without repetition, the keywords that occur in any
    version of the chart. *)
Theorem getLatestChartsFromRepository_spec (repository : helm.HelmChartRepository)
  (w : World) (index : gmap string (list repo.ChartVersion)) :
  repoChartCache w !! helm.DisplayName repository = Some index ->
  Forall2 (fun entry c => latest_record repository (snd entry) c)
          (List.filter has_versions (map_to_list index))
          (fst (getLatestChartsFromRepository S repository w)).
Proof.
  intros Hindex. unfold getLatestChartsFromRepository, GetChartCacheByRepo.
  rewrite Hindex. simpl.
  apply Forall2_filter_omap.
  - intros [name versions] _ Hv. unfold has_versions in Hv. simpl in Hv.
    destruct versions; [|done]. apply latestChart_empty.
  - intros [name versions] _ Hv. unfold has_versions in Hv. simpl in Hv.
    apply latestChart_nonempty. by destruct versions.
Qed.

End Latest.

Lemma getLatestChartsFromRepository_spec_witness :
  Forall2 (fun entry c => latest_record demo_repository (snd entry) c)
          (List.filter has_versions (map_to_list demo_index))
          (fst (getLatestChartsFromRepository insertion_sorter demo_repository demo_world)).
Proof.
  apply (getLatestChartsFromRepository_spec insertion_sorter demo_repository
           demo_world demo_index).
  vm_compute. reflexivity.
Defined.

(** The example of the specification: version 2, created after version 1,
    is emitted with the keywords of both. *)
Example latest_of_demo :
  fst (getLatestChartsFromRepository insertion_sorter demo_repository demo_world)
  = [ {| helm.Metadata := repo.set_Keywords ["a"; "b"] version_2;
         helm.Repo := "demo-repo"; helm.RepoUrl := "https://charts.example/demo" |} ].
Proof. vm_compute. reflexivity. Qed.

(** ** The bounded response buffer and the cache under a failing sync *)

Lemma limitedBuffer_Write_exceeds (l : limitedBuffer) (p : bytes) :
  0 <= written l -> written l + len p <= maxInt ->
  maxSize l < written l + len p ->
  limitedBuffer_Write l p = ((0, Some size_limit_error), l).
Proof.
  intros H0 Hmax Hex. unfold limitedBuffer_Write, int_add.
  pose proof (len_nonneg p).
  rewrite wrap_id by int_range.
  assert ((written l + len p >? maxSize l) = true) as ->; [|done].
  apply Z.gtb_lt. lia.
Qed.

Lemma limitedBuffer_Write_fits (l : limitedBuffer) (p : bytes) :
  0 <= written l -> written l + len p <= maxInt ->
  written l + len p <= maxSize l ->
  limitedBuffer_Write l p
  = ((len p, None),
     {| buffer := buffer l ++ p; maxSize := maxSize l; written := written l + len p |}).
Proof.
  intros H0 Hmax Hfit. unfold limitedBuffer_Write, int_add.
  pose proof (len_nonneg p).
  rewrite !wrap_id by int_range.
  assert ((written l + len p >? maxSize l) = false) as ->; [|done].
  rewrite Z.gtb_ltb. apply Z.ltb_ge. lia.
Qed.

Lemma len_app {A} (l1 l2 : list A) : len (l1 ++ l2) = len l1 + len l2.
Proof. unfold len. rewrite length_app. lia. Qed.

(** The copy ends at the first write that does not fit: what the reader
    would deliver afterwards is never read. *)
Lemma io_Copy_loop_stops (pre : list bytes) (p : bytes) (post : list bytes)
  (final : option string) (dst : limitedBuffer) :
  0 <= written dst -> maxSize dst + len p <= maxInt ->
  written dst + len (concat pre) <= maxSize dst ->
  maxSize dst < written dst + len (concat pre) + len p ->
  io_Copy_loop dst (pre ++ p :: post) final
  = (Some size_limit_error,
     {| buffer := buffer dst ++ concat pre; maxSize := maxSize dst;
        written := written dst + len (concat pre) |}).
Proof.
  revert dst. induction pre as [|q pre IH]; intros dst H0 Hmax Hfit Hex.
  - simpl in *. change (len (@nil Byte.byte)) with 0 in *.
    assert ((0 <? len p) = true) as -> by (apply Z.ltb_lt; lia).
    rewrite limitedBuffer_Write_exceeds by lia.
    rewrite app_nil_r, Z.add_0_r. by destruct dst.
  - simpl in *. rewrite len_app in *.
    pose proof (len_nonneg q). pose proof (len_nonneg (concat pre)).
    destruct (0 <? len q) eqn:Hq.
    + rewrite limitedBuffer_Write_fits by lia.
      rewrite Z.eqb_refl. simpl.
      rewrite IH; simpl; [|lia..].
      by rewrite <- app_assoc, Z.add_assoc.
    + apply Z.ltb_ge in Hq. assert (len q = 0) as Hq0 by lia.
      assert (q = []) as -> by (destruct q; [done|unfold len in Hq0; simpl in Hq0; lia]).
      rewrite IH; [|lia..]. simpl. change (len (@nil Byte.byte)) with 0. done.
Qed.

Lemma io_Copy_loop_exceeds (rs : list bytes) (final : option string) (dst : limitedBuffer) :
  0 <= written dst <= maxSize dst -> maxSize dst + copy_chunk <= maxInt ->
  Forall (fun p => len p <= copy_chunk) rs ->
  maxSize dst < written dst + len (concat rs) ->
  exists dst', io_Copy_loop dst rs final = (Some size_limit_error, dst').
Proof.
  revert dst. induction rs as [|p rs IH]; intros dst H0 Hmax Hall Hex.
  - simpl in Hex. change (len (@nil Byte.byte)) with 0 in Hex. lia.
  - apply Forall_cons in Hall as [Hp Hall]. simpl in *. rewrite len_app in Hex.
    pose proof (len_nonneg p).
    destruct (0 <? len p) eqn:Hq.
    + destruct (Z.le_gt_cases (written dst + len p) (maxSize dst)) as [Hfit|Hover].
      * rewrite limitedBuffer_Write_fits by lia. rewrite Z.eqb_refl. simpl.
        apply IH; simpl; [lia|lia|done|lia].
      * rewrite limitedBuffer_Write_exceeds by lia. by eexists.
    + apply Z.ltb_ge in Hq. apply IH; [lia|lia|done|lia].
Qed.

Lemma index_maxSize_value : index_maxSize = 104857600.
Proof. reflexivity. Qed.

Lemma LoadData_oversized (env : Env) (u : string) (repoEntry : repo.Entry) (w : World)
  (resp : Response) :
  NewRequestErr env u = None ->
  roundTrip env (List.length (exchanges w)) (get_request u repoEntry) = DoResponse resp ->
  Forall (fun p => len p <= copy_chunk) (reads (RespBody resp)) ->
  index_maxSize < len (concat (reads (RespBody resp))) ->
  fst (LoadData env u repoEntry w) = Err (Other EmptyString).
Proof.
  intros Hreq Hreply Hchunks Hbig. unfold LoadData, client_Do. rewrite Hreq, Hreply.
  destruct (io_Copy_loop_exceeds (reads (RespBody resp)) (readErr (RespBody resp))
              (newLimitedBuffer index_maxSize)) as [dst' Hcopy].
  - simpl. rewrite index_maxSize_value. lia.
  - simpl. rewrite index_maxSize_value. unfold copy_chunk. int_range.
  - done.
  - simpl. lia.
  - unfold io_Copy. by rewrite Hcopy.
Qed.

Lemma LoadData_cache (env : Env) (u : string) (repoEntry : repo.Entry) (w : World) :
  repoChartCache (snd (LoadData env u repoEntry w)) = repoChartCache w.
Proof.
  unfold LoadData, client_Do.
  destruct (NewRequestErr env u); [done|].
  destruct (roundTrip env _ _); [done|].
  destruct (io_Copy _ _) as [[e|] dst']; [done|].
  by destruct (negb _).
Qed.

Lemma LoadRepoIndex_cache (env : Env) (repoEntry : repo.Entry) (w : World) :
  repoChartCache (snd (LoadRepoIndex env repoEntry w)) = repoChartCache w.
Proof.
  unfold LoadRepoIndex.
  pose proof (LoadData_cache env (index_url (repo.URL repoEntry)) repoEntry w) as H.
  destruct (LoadData _ _ _ _) as [[data|e] w']; done.
Qed.

Lemma UpdateChartCache_cases (env : Env) (repoEntry : repo.Entry) (w : World) :
  (exists e, fst (LoadRepoIndex env repoEntry w) = Err e
             /\ fst (UpdateChartCache env repoEntry w) = Some e
             /\ repoChartCache (snd (UpdateChartCache env repoEntry w)) = repoChartCache w)
  \/ (exists index, fst (LoadRepoIndex env repoEntry w) = Ok index
             /\ fst (UpdateChartCache env repoEntry w) = None
             /\ repoChartCache (snd (UpdateChartCache env repoEntry w))
                = <[repo.EntryName repoEntry := repo.Entries index]> (repoChartCache w)).
Proof.
  unfold UpdateChartCache.
  pose proof (LoadRepoIndex_cache env repoEntry w) as H.
  destruct (LoadRepoIndex env repoEntry w) as [[index|e] w']; simpl in *.
  - right. exists index. by rewrite H.
  - left. by exists e.
Qed.

Lemma asyncUpdateRepository_cases (env : Env) (repository : helm.HelmChartRepository)
  (w : World) :
  (exists e, repoCRtoRepoEntry env repository = Err e
             /\ asyncUpdateRepository env repository w
                = (w, [ {| errName := helm.Name repository; errErr := e |} ]))
  \/ (exists repoEntry e,
        repoCRtoRepoEntry env repository = Ok repoEntry
        /\ fst (LoadRepoIndex env repoEntry w) = Err e
        /\ snd (asyncUpdateRepository env repository w)
           = [ {| errName := helm.Name repository; errErr := e |} ]
        /\ repoChartCache (fst (asyncUpdateRepository env repository w)) = repoChartCache w)
  \/ (exists repoEntry index,
        repoCRtoRepoEntry env repository = Ok repoEntry
        /\ fst (LoadRepoIndex env repoEntry w) = Ok index
        /\ snd (asyncUpdateRepository env repository w)
           = match patchRepoModificationTime env (helm.Name repository) with
             | Some e => [ {| errName := helm.Name repository; errErr := e |} ]
             | None => []
             end
        /\ repoChartCache (fst (asyncUpdateRepository env repository w))
           = <[repo.EntryName repoEntry := repo.Entries index]> (repoChartCache w)).
Proof.
  unfold asyncUpdateRepository.
  destruct (repoCRtoRepoEntry env repository) as [repoEntry|e]; [|left; by exists e].
  right.
  destruct (UpdateChartCache_cases env repoEntry w)
    as [(e & Hload & Herr & Hcache)|(index & Hload & Herr & Hcache)];
    destruct (UpdateChartCache env repoEntry w) as [err w']; simpl in *; subst err.
  - left. by exists repoEntry, e.
  - right. exists repoEntry, index.
    by destruct (patchRepoModificationTime env (helm.Name repository)).
Qed.

(** The status a finished goroutine of [SyncRepo] leaves. *)
Lemma SyncRepoTask_status (env : Env) (name : string)
  (repository : helm.HelmChartRepository) (w : World) :
  repoAsyncTaskMap (run_goroutine env (SyncRepoTask name repository) w) !! name
  = Some (match snd (asyncUpdateRepository env repository w) with
          | [] => syncCompleteMsg
          | _ :: _ => syncFailedMsg
          end).
Proof.
  simpl. destruct (asyncUpdateRepository env repository w) as [w1 sent]. simpl.
  assert (Hfold : forall (l : list errRepo) (w0 : World),
    repoAsyncTaskMap (fold_left (fun w _ => Store name syncFailedMsg w) l w0) !! name
    = match l with [] => repoAsyncTaskMap w0 !! name | _ :: _ => Some syncFailedMsg end).
  { induction l as [|x l IHl]; intros w0; simpl; [done|].
    rewrite IHl. destruct l; [|done]. simpl. apply lookup_insert_eq. }
  rewrite Hfold. destruct sent; [|done]. simpl. apply lookup_insert_eq.
Qed.

(** *** A body above the ceiling *)

Lemma len_repeat {A} (x : A) (n : nat) : len (repeat x n) = Z.of_nat n.
Proof. unfold len. by rewrite repeat_length. Qed.

Lemma len_concat_repeat {A} (c : list A) (n : nat) :
  len (concat (repeat c n)) = Z.of_nat n * len c.
Proof.
  induction n as [|n IH]; [done|].
  cbn [repeat concat]. rewrite len_app, IH. lia.
Qed.

Lemma big_body_chunks : Forall (fun p => len p <= copy_chunk) (reads big_body).
Proof.
  apply Forall_forall. intros p Hp. apply list_elem_of_In, repeat_spec in Hp. subst p.
  rewrite len_repeat. unfold copy_chunk. lia.
Qed.

Lemma big_body_oversized : index_maxSize < len (concat (reads big_body)).
Proof.
  unfold big_body, reads. rewrite len_concat_repeat, len_repeat, index_maxSize_value.
  unfold copy_chunk. lia.
Qed.

(** C5, as written, fails: a sync whose index load succeeds and whose
    modification-time patch then fails is a failed sync (it reports an
    error and its status becomes [failed]), and yet the cached index of the
    repository has been replaced. *)
Lemma failed_sync_with_replaced_cache :
  snd (asyncUpdateRepository (demo_env (Some (Other "patch refused")) (fun _ _ => ok_reply small_body))
         demo_repository demo_world)
    = [ {| errName := "demo-repo"; errErr := Other "patch refused" |} ]
  /\ repoAsyncTaskMap
       (run_all (demo_env (Some (Other "patch refused")) (fun _ _ => ok_reply small_body)) 1
          (snd (SyncRepo (demo_env (Some (Other "patch refused")) (fun _ _ => ok_reply small_body))
                  "demo-repo" demo_world))) !! "demo-repo"
     = Some syncFailedMsg
  /\ repoChartCache demo_world !! "demo-repo" = Some demo_index
  /\ repoChartCache
       (run_all (demo_env (Some (Other "patch refused")) (fun _ _ => ok_reply small_body)) 1
          (snd (SyncRepo (demo_env (Some (Other "patch refused")) (fun _ _ => ok_reply small_body))
                  "demo-repo" demo_world))) !! "demo-repo"
     = Some (repo.Entries fresh_index)
  /\ demo_index !! "demo" <> repo.Entries fresh_index !! "demo".
Proof. repeat apply conj; vm_compute; first [reflexivity | discriminate]. Qed.

(** C5 (amended).
    - A write that would take the bytes written past the ceiling of the
      buffer fails at once: it reports 0 bytes and an error and leaves the
      buffer as it was.
    - The copy of a response body ends at the first such write, whatever
      the body would deliver afterwards, so a body of more than 100 MiB
      makes the index fetch fail, and [UpdateChartCache] with it.
    - When [UpdateChartCache] fails the cache is what it was; it changes
      only by setting the entry of the repository to the entries of an
      index that was loaded without error.
    - A sync ([asyncUpdateRepository]) that fails while it resolves the
      credentials of the repository or while it loads the index reports the
      error and leaves the cache as it was; whenever a sync changes the
      cache the load had succeeded.  (A sync that fails later, when it
      patches the modification time, has replaced the entry already.) *)
Theorem bounded_fetch_and_cache_kept (env : Env) (w : World) :
  (forall (l : limitedBuffer) (p : bytes),
      0 <= written l -> written l + len p <= maxInt ->
      maxSize l < written l + len p ->
      limitedBuffer_Write l p = ((0, Some size_limit_error), l))
  /\ (forall (pre : list bytes) (p : bytes) (post : list bytes) (final : option string),
      len p <= copy_chunk ->
      len (concat pre) <= index_maxSize < len (concat pre) + len p ->
      io_Copy (newLimitedBuffer index_maxSize) {| reads := pre ++ p :: post; readErr := final |}
      = (Some size_limit_error,
         {| buffer := concat pre; maxSize := index_maxSize; written := len (concat pre) |}))
  /\ (forall (repoEntry : repo.Entry) (resp : Response),
      NewRequestErr env (index_url (repo.URL repoEntry)) = None ->
      roundTrip env (List.length (exchanges w))
                (get_request (index_url (repo.URL repoEntry)) repoEntry) = DoResponse resp ->
      Forall (fun p => len p <= copy_chunk) (reads (RespBody resp)) ->
      index_maxSize < len (concat (reads (RespBody resp))) ->
      fst (UpdateChartCache env repoEntry w) = Some (Other EmptyString)
      /\ repoChartCache (snd (UpdateChartCache env repoEntry w)) = repoChartCache w)
  /\ (forall (repoEntry : repo.Entry),
      fst (UpdateChartCache env repoEntry w) <> None ->
      repoChartCache (snd (UpdateChartCache env repoEntry w)) = repoChartCache w)
  /\ (forall (repoEntry : repo.Entry),
      repoChartCache (snd (UpdateChartCache env repoEntry w)) <> repoChartCache w ->
      exists index, fst (LoadRepoIndex env repoEntry w) = Ok index
        /\ fst (UpdateChartCache env repoEntry w) = None
        /\ repoChartCache (snd (UpdateChartCache env repoEntry w))
           = <[repo.EntryName repoEntry := repo.Entries index]> (repoChartCache w))
  /\ (forall (repository : helm.HelmChartRepository),
      (forall repoEntry, repoCRtoRepoEntry env repository = Ok repoEntry ->
                         exists e, fst (LoadRepoIndex env repoEntry w) = Err e) ->
      snd (asyncUpdateRepository env repository w) <> []
      /\ repoChartCache (fst (asyncUpdateRepository env repository w)) = repoChartCache w)
  /\ (forall (repository : helm.HelmChartRepository),
      repoChartCache (fst (asyncUpdateRepository env repository w)) <> repoChartCache w ->
      exists repoEntry index,
        repoCRtoRepoEntry env repository = Ok repoEntry
        /\ fst (LoadRepoIndex env repoEntry w) = Ok index
        /\ repoChartCache (fst (asyncUpdateRepository env repository w))
           = <[repo.EntryName repoEntry := repo.Entries index]> (repoChartCache w)).
Proof.
  repeat apply conj.
  - apply limitedBuffer_Write_exceeds.
  - intros pre p post final Hp [Hfit Hex]. unfold io_Copy. simpl.
    rewrite (io_Copy_loop_stops pre p post final (newLimitedBuffer index_maxSize)); simpl;
      rewrite ?index_maxSize_value in *; unfold copy_chunk in *; try int_range.
    done.
  - intros repoEntry resp Hreq Hreply Hchunks Hbig.
    pose proof (LoadData_oversized env _ repoEntry w resp Hreq Hreply Hchunks Hbig) as Hload.
    destruct (UpdateChartCache_cases env repoEntry w)
      as [(e & Hl & Herr & Hcache)|(index & Hl & _)].
    + unfold LoadRepoIndex in Hl.
      destruct (LoadData env _ repoEntry w) as [[data|e'] w']; simpl in *; [done|].
      split; [|done]. congruence.
    + unfold LoadRepoIndex in Hl.
      destruct (LoadData env _ repoEntry w) as [[data|e'] w']; simpl in *; done.
  - intros repoEntry Hfail.
    destruct (UpdateChartCache_cases env repoEntry w)
      as [(e & _ & _ & Hcache)|(index & _ & Herr & _)]; [done|].
    by rewrite Herr in Hfail.
  - intros repoEntry Hchanged.
    destruct (UpdateChartCache_cases env repoEntry w)
      as [(e & _ & _ & Hcache)|(index & Hl & Herr & Hcache)]; [done|].
    by exists index.
  - intros repository Hfails.
    destruct (asyncUpdateRepository_cases env repository w)
      as [(e & _ & ->)|[(repoEntry & e & _ & _ & -> & Hcache)
                       |(repoEntry & index & Hentry & Hl & _)]]; [done|done|].
    destruct (Hfails repoEntry Hentry) as [e He]. congruence.
  - intros repository Hchanged.
    destruct (asyncUpdateRepository_cases env repository w)
      as [(e & _ & Heq)|[(repoEntry & e & _ & _ & _ & Hcache)
                        |(repoEntry & index & Hentry & Hl & _ & Hcache)]].
    + by rewrite Heq in Hchanged.
    + done.
    + by exists repoEntry, index.
Qed.

Lemma bounded_fetch_and_cache_kept_witness :
  fst (UpdateChartCache (demo_env None (fun _ _ => DoResponse big_response))
         demo_entry demo_world) = Some (Other EmptyString)
  /\ repoChartCache
       (snd (UpdateChartCache (demo_env None (fun _ _ => DoResponse big_response))
               demo_entry demo_world))
     = repoChartCache demo_world.
Proof.
  refine (proj1 (proj2 (proj2
    (bounded_fetch_and_cache_kept (demo_env None (fun _ _ => DoResponse big_response))
       demo_world))) demo_entry big_response _ _ _ _).
  - reflexivity.
  - reflexivity.
  - exact big_body_chunks.
  - exact big_body_oversized.
Defined.

(** ** Synchronising all repositories *)

Lemma fold_go_goroutines (ts : list Task) (w : World) :
  fold_left (fun w t => go t w) ts w = set_goroutines (goroutines w ++ ts) w.
Proof.
  revert w. induction ts as [|t ts IH]; intros w; simpl.
  - rewrite app_nil_r. by destruct w.
  - rewrite IH. unfold go, set_goroutines. simpl. by rewrite <- app_assoc.
Qed.

Lemma fold_go_workers (repoList : list helm.HelmChartRepository) (w : World) :
  fold_left (fun w repository => go (SyncAllWorker repository) w) repoList w
  = set_goroutines (goroutines w ++ map SyncAllWorker repoList) w.
Proof.
  rewrite <- fold_go_goroutines. revert w.
  induction repoList as [|r l IH]; intros w; simpl; [done|]. apply IH.
Qed.

Lemma asyncUpdateRepository_status (env : Env) (repository : helm.HelmChartRepository)
  (w : World) :
  repoAsyncTaskMap (fst (asyncUpdateRepository env repository w)) = repoAsyncTaskMap w.
Proof.
  unfold asyncUpdateRepository, UpdateChartCache, LoadRepoIndex, LoadData, client_Do.
  destruct (repoCRtoRepoEntry env repository) as [repoEntry|e]; [|done].
  destruct (NewRequestErr env _); [done|].
  destruct (roundTrip env _ _); [done|].
  destruct (io_Copy _ _) as [[e|] dst']; [done|].
  destruct (negb _); [done|].
  destruct (loadIndex env _); [|done]. simpl.
  by destruct (patchRepoModificationTime env _).
Qed.

Lemma sched_SyncAllRepos_status (env : Env) (w w' : World) :
  rtc (sched env of_SyncAllRepos) w w' -> repoAsyncTaskMap w' = repoAsyncTaskMap w.
Proof.
  induction 1 as [w|w w1 w2 Hstep _ IH]; [done|].
  rewrite IH. destruct Hstep as [pre t post w Hpool Honly].
  destruct t; simpl in *; [|done|done].
  by rewrite asyncUpdateRepository_status.
Qed.

(** C6, as written, fails in its second half: after [SyncAllRepos] and
    after every goroutine it started has run, the cache holds the fresh
    index of the repository (the sync succeeded), and [GetRepoSyncStatus]
    still answers that there is no update task for it; the same when the
    sync fails. *)
Lemma SyncAllRepos_outcome_not_in_status :
  goroutines (run_all (demo_env None (fun _ _ => ok_reply small_body)) 2
                (snd (SyncAllRepos (demo_env None (fun _ _ => ok_reply small_body)) demo_world)))
    = []
  /\ repoChartCache
       (run_all (demo_env None (fun _ _ => ok_reply small_body)) 2
          (snd (SyncAllRepos (demo_env None (fun _ _ => ok_reply small_body)) demo_world)))
       !! "demo-repo" = Some (repo.Entries fresh_index)
  /\ GetRepoSyncStatus "demo-repo"
       (run_all (demo_env None (fun _ _ => ok_reply small_body)) 2
          (snd (SyncAllRepos (demo_env None (fun _ _ => ok_reply small_body)) demo_world)))
     = ({| Code := 400; Msg := "demo-repo update task not found"; RData := nil_data |}, 400)
  /\ goroutines (run_all (demo_env None (fun _ _ => DoError "connection refused")) 2
                   (snd (SyncAllRepos (demo_env None (fun _ _ => DoError "connection refused"))
                           demo_world)))
     = []
  /\ GetRepoSyncStatus "demo-repo"
       (run_all (demo_env None (fun _ _ => DoError "connection refused")) 2
          (snd (SyncAllRepos (demo_env None (fun _ _ => DoError "connection refused"))
                  demo_world)))
     = ({| Code := 400; Msg := "demo-repo update task not found"; RData := nil_data |}, 400).
Proof. repeat apply conj; vm_compute; reflexivity. Qed.

(** C6 (amended).  When the catalog can be listed, [SyncAllRepos] answers
    202 "synchronizing repositories" having only started one goroutine for
    every repository and one that waits for them: none of them has run, the
    cache and the sync statuses are as before.  However the goroutines of
    [SyncAllRepos] are scheduled afterwards, they never write a sync status:
    [GetRepoSyncStatus] answers for every repository what it answered before
    the call.  The outcome of each repository is only logged. *)
Theorem SyncAllRepos_accepted (env : Env) (w : World)
  (repoList : list helm.HelmChartRepository) :
  listCustomRepo env = Ok repoList ->
  fst (SyncAllRepos env w)
    = ({| Code := constant.Success; Msg := "synchronizing repositories"; RData := nil_data |},
       http.StatusAccepted)
  /\ goroutines (snd (SyncAllRepos env w))
     = goroutines w ++ map SyncAllWorker repoList ++ [SyncAllJoin]
  /\ repoChartCache (snd (SyncAllRepos env w)) = repoChartCache w
  /\ repoAsyncTaskMap (snd (SyncAllRepos env w)) = repoAsyncTaskMap w
  /\ forall w', rtc (sched env of_SyncAllRepos) (snd (SyncAllRepos env w)) w' ->
       forall repoName, GetRepoSyncStatus repoName w' = GetRepoSyncStatus repoName w.
Proof.
  intros Hlist. unfold SyncAllRepos. rewrite Hlist. simpl.
  rewrite fold_go_workers. simpl. rewrite <- app_assoc.
  repeat split.
  intros w' Hrun repoName. unfold GetRepoSyncStatus.
  by rewrite (sched_SyncAllRepos_status _ _ _ Hrun).
Qed.

Lemma SyncAllRepos_accepted_witness :
  fst (SyncAllRepos (demo_env None (fun _ _ => ok_reply small_body)) demo_world)
    = ({| Code := 200; Msg := "synchronizing repositories"; RData := nil_data |}, 202)
  /\ goroutines (snd (SyncAllRepos (demo_env None (fun _ _ => ok_reply small_body)) demo_world))
     = [SyncAllWorker demo_repository; SyncAllJoin].
Proof.
  pose proof (SyncAllRepos_accepted (demo_env None (fun _ _ => ok_reply small_body))
                demo_world [demo_repository] eq_refl) as (H1 & H2 & _).
  exact (conj H1 H2).
Defined.

(** ** Synchronising one repository *)

Lemma eqb_empty_false (s : string) : s <> EmptyString -> String.eqb s EmptyString = false.
Proof. intros H. by apply String.eqb_neq. Qed.

(** The lookup of the catalog does not see the case of the letters. *)
Lemma getCustomRepoByName_lower (env : Env) (name other : string) :
  strings_ToLower other = strings_ToLower name ->
  getCustomRepoByName env other = getCustomRepoByName env name.
Proof. intros H. unfold getCustomRepoByName. by rewrite H. Qed.

(** C7.  For a request that names, in ASCII, a repository of the catalog:
    when the sync status stored under the name as the request writes it is
    [in_progress], [SyncRepo] answers with the client error (400) that the
    repository is synchronising already and leaves the world as it was: no
    status written, no goroutine started; when no status is stored under
    that name, or [complete], or [failed], it answers 202, stores
    [in_progress] under the name and starts one goroutine for the sync.
    The status is kept under the name as written, the catalog is read under
    its lower case: while the sync of a repository is in progress, a request
    that writes its name with other capitals is not rejected but accepted,
    and starts a second sync of the same repository. *)
Theorem SyncRepo_state_machine (env : Env) (w : World) (repoDisplayName : string)
  (repository : helm.HelmChartRepository) :
  repoDisplayName <> EmptyString ->
  isASCII repoDisplayName = true ->
  getCustomRepoByName env repoDisplayName = Ok repository ->
  (repoAsyncTaskMap w !! repoDisplayName = Some syncInProgressMsg ->
   SyncRepo env repoDisplayName w
   = (({| Code := constant.ClientError;
          Msg := " repository " +:+ repoDisplayName +:+ " syncronizing in progress";
          RData := nil_data |}, http.StatusBadRequest), w))
  /\ (repoAsyncTaskMap w !! repoDisplayName = None
      \/ repoAsyncTaskMap w !! repoDisplayName = Some syncCompleteMsg
      \/ repoAsyncTaskMap w !! repoDisplayName = Some syncFailedMsg ->
      fst (SyncRepo env repoDisplayName w)
      = ({| Code := constant.Success;
            Msg := "syncronizing repository " +:+ repoDisplayName;
            RData := nil_data |}, http.StatusAccepted)
      /\ repoAsyncTaskMap (snd (SyncRepo env repoDisplayName w))
         = <[repoDisplayName := syncInProgressMsg]> (repoAsyncTaskMap w)
      /\ repoAsyncTaskMap (snd (SyncRepo env repoDisplayName w)) !! repoDisplayName
         = Some syncInProgressMsg
      /\ goroutines (snd (SyncRepo env repoDisplayName w))
         = goroutines w ++ [SyncRepoTask repoDisplayName repository]
      /\ repoChartCache (snd (SyncRepo env repoDisplayName w)) = repoChartCache w)
  /\ (forall other : string,
        other <> EmptyString ->
        isASCII other = true ->
        strings_ToLower other = strings_ToLower repoDisplayName ->
        repoAsyncTaskMap w !! repoDisplayName = Some syncInProgressMsg ->
        repoAsyncTaskMap w !! other = None ->
        fst (SyncRepo env other w)
        = ({| Code := constant.Success;
              Msg := "syncronizing repository " +:+ other;
              RData := nil_data |}, http.StatusAccepted)
        /\ goroutines (snd (SyncRepo env other w))
           = goroutines w ++ [SyncRepoTask other repository]
        /\ repoAsyncTaskMap (snd (SyncRepo env other w)) !! repoDisplayName
           = Some syncInProgressMsg
        /\ repoAsyncTaskMap (snd (SyncRepo env other w)) !! other
           = Some syncInProgressMsg).
Proof.
  intros Hname _ Hrepo. split; [|split].
  - unfold SyncRepo. rewrite (eqb_empty_false _ Hname), Hrepo. intros ->. done.
  - unfold SyncRepo. rewrite (eqb_empty_false _ Hname), Hrepo.
    intros [-> | [-> | ->]]; simpl; by rewrite lookup_insert_eq.
  - intros other Hother _ Hlower Hbusy Hfree. unfold SyncRepo.
    rewrite (eqb_empty_false _ Hother), (getCustomRepoByName_lower env _ _ Hlower), Hrepo,
      Hfree.
    simpl. split; [done|]. split; [done|].
    rewrite lookup_insert_eq. split; [|done].
    rewrite lookup_insert_ne; [done|]. intros ->. congruence.
Qed.

Lemma SyncRepo_state_machine_witness :
  SyncRepo (demo_env None (fun _ _ => ok_reply small_body)) "demo-repo"
           (Store "demo-repo" syncInProgressMsg demo_world)
  = (({| Code := 400; Msg := " repository demo-repo syncronizing in progress";
         RData := nil_data |}, 400),
     Store "demo-repo" syncInProgressMsg demo_world).
Proof.
  refine (proj1 (SyncRepo_state_machine (demo_env None (fun _ _ => ok_reply small_body))
                   (Store "demo-repo" syncInProgressMsg demo_world)
                   "demo-repo" demo_repository _ _ _) _).
  - discriminate.
  - reflexivity.
  - reflexivity.
  - vm_compute. reflexivity.
Defined.

(** C7, as written, fails for a request that spells the repository in
    another case: ["Demo-Repo"] and ["demo-repo"] are the same repository of
    the catalog; with the sync of ["demo-repo"] in progress, the request for
    ["Demo-Repo"] is accepted with 202 and a second goroutine is started
    for the same repository. *)
Lemma SyncRepo_other_spelling_accepted :
  getCustomRepoByName (demo_env None (fun _ _ => ok_reply small_body)) "Demo-Repo"
    = Ok demo_repository
  /\ getCustomRepoByName (demo_env None (fun _ _ => ok_reply small_body)) "demo-repo"
     = Ok demo_repository
  /\ repoAsyncTaskMap
       (snd (SyncRepo (demo_env None (fun _ _ => ok_reply small_body)) "demo-repo" demo_world))
       !! "demo-repo"
     = Some syncInProgressMsg
  /\ fst (SyncRepo (demo_env None (fun _ _ => ok_reply small_body)) "Demo-Repo"
            (snd (SyncRepo (demo_env None (fun _ _ => ok_reply small_body))
                    "demo-repo" demo_world)))
     = ({| Code := constant.Success; Msg := "syncronizing repository Demo-Repo";
           RData := nil_data |}, http.StatusAccepted)
  /\ goroutines
       (snd (SyncRepo (demo_env None (fun _ _ => ok_reply small_body)) "Demo-Repo"
               (snd (SyncRepo (demo_env None (fun _ _ => ok_reply small_body))
                       "demo-repo" demo_world))))
     = [SyncRepoTask "demo-repo" demo_repository; SyncRepoTask "Demo-Repo" demo_repository].
Proof. repeat apply conj; vm_compute; reflexivity. Qed.

(** Two requests in a row: the first is accepted, the second rejected, and
    the goroutine of the first ends the sync as [complete]. *)
Example SyncRepo_twice :
  snd (fst (SyncRepo (demo_env None (fun _ _ => ok_reply small_body)) "demo-repo" demo_world))
    = 202
  /\ snd (fst (SyncRepo (demo_env None (fun _ _ => ok_reply small_body)) "demo-repo"
                 (snd (SyncRepo (demo_env None (fun _ _ => ok_reply small_body))
                         "demo-repo" demo_world))))
     = 400
  /\ GetRepoSyncStatus "demo-repo"
       (run_all (demo_env None (fun _ _ => ok_reply small_body)) 1
          (snd (SyncRepo (demo_env None (fun _ _ => ok_reply small_body))
                  "demo-repo" demo_world)))
     = ({| Code := 200; Msg := "complete"; RData := nil_data |}, 200).
Proof. repeat apply conj; vm_compute; reflexivity. Qed.

(** ** Queries against a repository that was never synchronised *)

(** C8, as written, fails for the latest-charts query: the repository is
    in the catalog, nothing is cached for it, and the query answers 200
    "success" with an empty page. *)
Lemma GetLatestCharts_unsynced_is_empty_success :
  getCustomRepoByName (demo_env None (fun _ _ => ok_reply small_body)) "demo-repo"
    = Ok demo_repository
  /\ repoChartCache empty_world !! "demo-repo" = None
  /\ GetLatestCharts insertion_sorter (demo_env None (fun _ _ => ok_reply small_body))
       demo_search empty_world
     = (Some ({| Code := 200; Msg := "success";
                 RData := ListResponse_data
                            {| helm.Items := []; helm.TotalItems := 0;
                               helm.CurrentPage := 1; helm.TotalPages := 1 |} |}, 200),
        empty_world).
Proof. repeat apply conj; vm_compute; reflexivity. Qed.

Section Unsynced.

Variable S : sort.SliceSorter.

Lemma Slice_nil {A} (less : A -> A -> bool) : sort.Slice S less [] = [].
Proof. apply Permutation_nil_r, (sort.Slice_perm S). Qed.

Lemma sortChartVersionSlice_nil (query : param.Query) : sortChartVersionSlice S query [] = [].
Proof.
  unfold sortChartVersionSlice, sortChartByTime, sortChartByName.
  repeat case_match; apply Slice_nil.
Qed.

Lemma filterChartVersionSlice_nil (searchParam : ChartSearchParam) :
  filterChartVersionSlice searchParam [] = [].
Proof. unfold filterChartVersionSlice. by repeat case_match. Qed.

Lemma getLatestChartsFromRepository_unsynced (repository : helm.HelmChartRepository)
  (w : World) :
  repoChartCache w !! helm.DisplayName repository = None ->
  getLatestChartsFromRepository S repository w = ([], w).
Proof.
  intros Hnone. unfold getLatestChartsFromRepository, GetChartCacheByRepo.
  rewrite Hnone. by rewrite map_to_list_empty.
Qed.

Lemma getLatestChartsFromAllRepositories_unsynced (repoList : list helm.HelmChartRepository)
  (w : World) :
  Forall (fun repository => repoChartCache w !! helm.DisplayName repository = None) repoList ->
  getLatestChartsFromAllRepositories S repoList w = ([], w).
Proof.
  induction 1 as [|repository repoList Hr _ IH]; simpl; [done|].
  rewrite getLatestChartsFromRepository_unsynced by done. by rewrite IH.
Qed.

Lemma pageResult_nil {A} (p : param.Pagination) :
  inInt (param.Limit p) ->
  exists page, pageResult (@nil A) (Some p) = Some page
               /\ helm.Items page = [] /\ helm.TotalItems page = 0.
Proof.
  intros HL. unfold pageResult, param.GetPaginationResult. simpl.
  change (len (@nil A)) with 0.
  destruct ((param.Limit p <=? 0) || (param.Offset p <? 0)) eqn:Hbad; [by eexists|].
  apply orb_false_iff in Hbad as [Hl Ho]. apply Z.leb_gt in Hl. apply Z.ltb_ge in Ho.
  destruct (param.Limit p =? param.noPaginationLimit); [by eexists|].
  assert (Hend : forall p' : param.Pagination,
             param.Limit p' = param.Limit p -> param.Offset p' = 0 ->
             Z.min (int_add (param.Offset p') (param.Limit p')) 0 = 0).
  { intros p' -> ->. unfold int_add. rewrite wrap_id by int_range. lia. }
  destruct (param.Offset p >? 0) eqn:Hgt.
  - rewrite Hend by done. simpl. by eexists.
  - rewrite Z.gtb_ltb in Hgt. apply Z.ltb_ge in Hgt.
    assert (param.Offset p = 0) as Ho0 by lia.
    rewrite Hend by done. rewrite Ho0. simpl. by eexists.
Qed.

(** C8 (amended).  For a repository of the catalog for which nothing is
    cached: the versions query ([GetChartVersion]) answers 404 "please sync
    your repository" and never an empty result; the latest-charts query
    does not, the repository contributes no record to it and leaves the
    world as it was, and a search over repositories none of which is cached
    answers 200 "success" with no item. *)
Theorem unsynced_repository_answers (env : Env) (w : World) (repoName : string)
  (repository : helm.HelmChartRepository) :
  getCustomRepoByName env repoName = Ok repository ->
  repoChartCache w !! helm.DisplayName repository = None ->
  (forall chartName version,
      GetChartVersion env repoName chartName version w
      = ({| Code := constant.ResourceNotFound; Msg := "please sync your repository";
            RData := nil_data |}, http.StatusNotFound))
  /\ getLatestChartsFromRepository S repository w = ([], w)
  /\ (forall (searchParam : ChartSearchParam) (repoCRList : list helm.HelmChartRepository)
             (config : helm.MarketplaceServiceConfig) (p : param.Pagination),
      listCustomRepo env = Ok repoCRList ->
      Forall (fun r => repoChartCache w !! helm.DisplayName r = None) repoCRList ->
      GetMarketplaceServiceConfig env = Ok config ->
      ContainsAll (helm.MarketplaceScenes config) (Scene searchParam) = true ->
      param.QPagination (SQuery searchParam) = Some p ->
      inInt (param.Limit p) ->
      exists page,
        GetLatestCharts S env searchParam w
        = (Some ({| Code := constant.Success; Msg := "success";
                    RData := ListResponse_data page |}, http.StatusOK), w)
        /\ helm.Items page = [] /\ helm.TotalItems page = 0).
Proof.
  intros Hrepo Hnone. repeat apply conj.
  - intros chartName version. unfold GetChartVersion, GetChartCacheByRepo.
    by rewrite Hrepo, Hnone.
  - by apply getLatestChartsFromRepository_unsynced.
  - intros searchParam repoCRList config p Hlist Hall Hconfig Hscene Hpage HL.
    unfold GetLatestCharts, getLatestChartsByRepos. rewrite Hlist.
    assert (Hsel : Forall (fun r => repoChartCache w !! helm.DisplayName r = None)
                     (filterSelectedRepositories (Repositories searchParam) repoCRList)).
    { unfold filterSelectedRepositories. apply Forall_forall. intros r Hr.
      apply list_elem_of_In, in_flat_map in Hr as (name & _ & Hr).
      apply filter_In in Hr as [Hr _].
      rewrite Forall_forall in Hall. by apply Hall, list_elem_of_In. }
    rewrite !getLatestChartsFromAllRepositories_unsynced by done.
    destruct (len (Repositories searchParam) =? 0);
      rewrite Hconfig, Hscene; simpl;
      rewrite filterChartVersionSlice_nil, sortChartVersionSlice_nil, Hpage;
      destruct (pageResult_nil (A := helm.ChartVersionResponse) p HL)
        as (page & -> & Hitems & Htotal);
      by exists page.
Qed.

End Unsynced.

Lemma unsynced_repository_answers_witness :
  GetChartVersion (demo_env None (fun _ _ => ok_reply small_body))
    "demo-repo" "demo" "1.0.0" empty_world
  = ({| Code := 404; Msg := "please sync your repository"; RData := nil_data |}, 404).
Proof.
  refine (proj1 (unsynced_repository_answers insertion_sorter
                   (demo_env None (fun _ _ => ok_reply small_body)) empty_world
                   "demo-repo" demo_repository _ _) "demo" "1.0.0").
  - reflexivity.
  - reflexivity.
Defined.

(** ** Retries of a tag lookup *)











Section TagRetry.

Variable S : sort.SliceSorter.
Variable env : Env.





End TagRetry.

(** *** A refused token and a renewed one *)




(** A tag endpoint that answers 401 for ever: three requests for the tag
    list, each followed by a renewal of the token, then the tag is left out
    of the answer while the next tag of the batch is still looked up (three
    more requests, the same fate). *)
Example batch_with_refused_tags :
  tag_requests (attempt always_401 (attempt always_401 (attempt always_401 harbor_world))) = 3%nat
  /\ List.length (exchanges
       (attempt always_401 (attempt always_401 (attempt always_401 harbor_world)))) = 6%nat
  /\ (exists w, GetChartsWithOfficialTags insertion_sorter (harbor_env always_401)
                  ["tagA"; "tagB"]
                  {| param.QPagination := None; param.SortBy := "name"; param.Ascending := true |}
                  harbor_world
                = Returned ({| Code := 200; Msg := "success"; RData := Tagged_data [] |}, 200) w
                /\ tag_requests w = 6%nat).
Proof.
  split; [vm_compute; reflexivity|]. split; [vm_compute; reflexivity|].
  eexists. split; vm_compute; reflexivity.
Qed.

(** A first 401 with a challenge: one token request, one more request for
    the tag list, which succeeds; then the index of the official repository
    is fetched once and the tagged chart is returned. *)
Example renewal_then_success :
  exists charts w,
    getChartWithOfficialTag insertion_sorter (harbor_env accepts_renewed) "tagA" harbor_config
      harbor_world
    = Returned (Ok {| helm.Tag := "tagA"; helm.ChartVersionResponses := charts |}) w
    /\ map (fun r => (ReqURL r, Authorization r)) (exchanges w)
       = [ ("https://harbor.example/v2/tags/tagA/tags/list", Some EmptyString);
           ("https://harbor.example/service/token?service=harbor-registry&scope=repository:openfuyao:pull",
            None);
           ("https://harbor.example/v2/tags/tagA/tags/list", Some "t0k3n");
           ("https://harbor.example/chartrepo/openfuyao/index.yaml", None) ]
    /\ officialHarborBearerToken w = "t0k3n".
Proof. do 2 eexists. repeat apply conj; vm_compute; reflexivity. Qed.

(** * Further properties of the code *)

(** ** The name comparator as an order *)

Lemma byte_of_eqb ca cb : (byte_of ca =? byte_of cb) = Ascii.eqb ca cb.
Proof.
  destruct (Ascii.eqb_spec ca cb) as [->|Hne].
  - apply Z.eqb_refl.
  - apply Z.eqb_neq. intros H. by apply Hne, byte_of_inj.
Qed.

Lemma eqb_ascending (x : bool) : Bool.eqb x (ascendingOrder =? 1) = x.
Proof. by destruct x. Qed.

Lemma customCompare_loop_ascending k a b :
  customCompare_loop (k + slen a) (k + slen b) a b ascendingOrder = name_before a b.
Proof.
  revert k b. induction a as [|ca a IH]; intros k [|cb b];
    cbn [customCompare_loop name_before]; rewrite ?eqb_ascending.
  - apply Z.ltb_irrefl.
  - apply Z.ltb_lt. unfold slen. simpl. lia.
  - apply Z.ltb_ge. unfold slen. simpl. lia.
  - rewrite <- byte_of_eqb. unfold byte_before.
    destruct (getPriority (byte_of ca) =? getPriority (byte_of cb)) eqn:Hp; simpl.
    + destruct (byte_of ca =? byte_of cb) eqn:Hr; simpl.
      * replace (k + slen (String ca a)) with ((k + 1) + slen a)
          by (unfold slen; simpl; lia).
        replace (k + slen (String cb b)) with ((k + 1) + slen b)
          by (unfold slen; simpl; lia).
        apply IH.
      * by destruct (unicode.ToLower (byte_of ca) =? unicode.ToLower (byte_of cb)).
    + destruct (Z.eqb_spec (byte_of ca) (byte_of cb)) as [Heq|_]; [|done].
      rewrite Heq, Z.eqb_refl in Hp. discriminate.
Qed.

Lemma customCompare_ascending a b :
  customCompare a b ascendingOrder = name_before a b.
Proof. apply (customCompare_loop_ascending 0). Qed.

Lemma customCompare_loop_reversed la lb a b sortOrder :
  sortOrder <> ascendingOrder ->
  customCompare_loop la lb a b sortOrder
  = negb (customCompare_loop la lb a b ascendingOrder).
Proof.
  intros Hne. apply Z.eqb_neq in Hne. unfold ascendingOrder in *.
  revert b. induction a as [|ca a IH]; intros [|cb b]; simpl; rewrite ?Hne;
    try by destruct (_ <? _).
  destruct (negb (getPriority (byte_of ca) =? getPriority (byte_of cb)));
    [by destruct (_ <? _)|].
  destruct (negb (byte_of ca =? byte_of cb)); [|apply IH].
  destruct (unicode.ToLower (byte_of ca) =? unicode.ToLower (byte_of cb));
    by destruct (_ <? _).
Qed.

Lemma byte_before_irrefl c : byte_before c c = false.
Proof.
  unfold byte_before. rewrite !Z.eqb_refl. simpl. apply Z.ltb_irrefl.
Qed.

Lemma byte_before_trans x y z :
  byte_before x y = true -> byte_before y z = true -> byte_before x z = true.
Proof.
  unfold byte_before.
  generalize (getPriority (byte_of x)) (getPriority (byte_of y)) (getPriority (byte_of z))
             (unicode.ToLower (byte_of x)) (unicode.ToLower (byte_of y))
             (unicode.ToLower (byte_of z)) (byte_of x) (byte_of y) (byte_of z).
  intros px py pz lx ly lz rx ry rz.
  repeat match goal with
         | |- context [?u =? ?v] => destruct (Z.eqb_spec u v)
         | |- context [?u <? ?v] => destruct (Z.ltb_spec u v)
         end; simpl; try lia; try congruence.
Qed.

Lemma byte_before_total x y : x <> y -> byte_before x y = true \/ byte_before y x = true.
Proof.
  intros Hne. assert (byte_of x <> byte_of y) as Hr by (intros H; by apply Hne, byte_of_inj).
  revert Hr. unfold byte_before.
  generalize (getPriority (byte_of x)) (getPriority (byte_of y))
             (unicode.ToLower (byte_of x)) (unicode.ToLower (byte_of y))
             (byte_of x) (byte_of y).
  intros px py lx ly rx ry Hr.
  repeat match goal with
         | |- context [?u =? ?v] => destruct (Z.eqb_spec u v)
         | |- context [?u <? ?v] => destruct (Z.ltb_spec u v)
         end; simpl; try lia; try congruence; auto.
Qed.

Lemma byte_before_asym x y : byte_before x y = true -> byte_before y x = false.
Proof.
  intros Hxy. destruct (byte_before y x) eqn:Hyx; [|done].
  pose proof (byte_before_trans _ _ _ Hxy Hyx) as Hxx.
  by rewrite byte_before_irrefl in Hxx.
Qed.

Lemma name_before_irrefl a : name_before a a = false.
Proof. induction a as [|c a IH]; simpl; [done|]. by rewrite Ascii.eqb_refl. Qed.

Lemma name_before_trans a b c :
  name_before a b = true -> name_before b c = true -> name_before a c = true.
Proof.
  revert b c. induction a as [|x a IH]; intros [|y b] [|z c]; simpl; try done.
  destruct (Ascii.eqb_spec x y) as [->|Hxy].
  - destruct (Ascii.eqb_spec y z) as [->|Hyz]; [apply IH|done].
  - destruct (Ascii.eqb_spec y z) as [->|Hyz].
    + destruct (Ascii.eqb_spec x z) as [->|_]; done.
    + intros H1 H2. pose proof (byte_before_trans _ _ _ H1 H2) as H3.
      destruct (Ascii.eqb_spec x z) as [->|_]; [|done].
      by rewrite (byte_before_asym _ _ H1) in H2.
Qed.

Lemma name_before_total a b :
  a <> b -> name_before a b = true \/ name_before b a = true.
Proof.
  revert b. induction a as [|x a IH]; intros [|y b] Hne; simpl; auto.
  rewrite (Ascii.eqb_sym y x).
  destruct (Ascii.eqb_spec x y) as [->|Hxy].
  - apply IH. intros ->. by apply Hne.
  - by apply byte_before_total.
Qed.

Lemma name_before_asym a b : name_before a b = true -> name_before b a = false.
Proof.
  intros Hab. destruct (name_before b a) eqn:Hba; [|done].
  pose proof (name_before_trans _ _ _ Hab Hba) as Haa.
  by rewrite name_before_irrefl in Haa.
Qed.

Lemma customCompare_strict_weak :
  sort.StrictWeak (fun a b => customCompare a b ascendingOrder).
Proof.
  split.
  - intros a. rewrite customCompare_ascending. apply name_before_irrefl.
  - intros a b c. rewrite !customCompare_ascending. apply name_before_trans.
  - intros a b c. rewrite !customCompare_ascending. intros Hab Hbc.
    destruct (decide (a = b)) as [->|Hne1]; [done|].
    destruct (decide (b = c)) as [->|Hne2]; [done|].
    destruct (name_before_total a b Hne1) as [H|Hba]; [congruence|].
    destruct (name_before_total b c Hne2) as [H|Hcb]; [congruence|].
    apply name_before_asym. by apply (name_before_trans c b a).
Qed.

(** X1. In the ascending direction [customCompare] is a strict total
    order on strings: no string is before itself, the comparison is
    transitive, and of two different strings exactly one is before the
    other. *)
Theorem customCompare_ascending_total_order :
  (forall a, customCompare a a ascendingOrder = false)
  /\ (forall a b c, customCompare a b ascendingOrder = true ->
        customCompare b c ascendingOrder = true ->
        customCompare a c ascendingOrder = true)
  /\ (forall a b, a <> b ->
        customCompare a b ascendingOrder = negb (customCompare b a ascendingOrder)).
Proof.
  split; [|split].
  - intros a. rewrite customCompare_ascending. apply name_before_irrefl.
  - intros a b c. rewrite !customCompare_ascending. apply name_before_trans.
  - intros a b Hne. rewrite !customCompare_ascending.
    destruct (name_before_total a b Hne) as [H|H].
    + by rewrite H, (name_before_asym _ _ H).
    + by rewrite H, (name_before_asym _ _ H).
Qed.

Lemma customCompare_ascending_total_order_witness :
  customCompare "a1" "A2" ascendingOrder = negb (customCompare "A2" "a1" ascendingOrder).
Proof.
  apply (proj2 (proj2 customCompare_ascending_total_order) "a1" "A2"). discriminate.
Defined.

(** X2. Every sort order other than ascending makes [customCompare] the
    exact complement of the ascending comparison: it answers [true] on two
    equal strings, and on two different strings it is the ascending
    comparison with the arguments exchanged. *)
Theorem customCompare_descending_is_complement (a b : string) (sortOrder : int) :
  sortOrder <> ascendingOrder ->
  customCompare a b sortOrder = negb (customCompare a b ascendingOrder)
  /\ customCompare a a sortOrder = true
  /\ (a <> b -> customCompare a b sortOrder = customCompare b a ascendingOrder).
Proof.
  intros Hne.
  assert (Hc : forall x y, customCompare x y sortOrder = negb (name_before x y)).
  { intros x y. unfold customCompare. rewrite customCompare_loop_reversed by done.
    f_equal. apply (customCompare_loop_ascending 0). }
  rewrite !Hc, !customCompare_ascending, name_before_irrefl.
  split; [done|split; [done|]]. intros Hab.
  destruct (name_before_total a b Hab) as [H|H].
  - by rewrite H, (name_before_asym _ _ H).
  - by rewrite H, (name_before_asym _ _ H).
Qed.

Lemma customCompare_descending_is_complement_witness :
  customCompare "chart" "Chart" descendingOrder
    = negb (customCompare "chart" "Chart" ascendingOrder)
  /\ customCompare "chart" "chart" descendingOrder = true
  /\ ("chart" <> "Chart" ->
      customCompare "chart" "Chart" descendingOrder
      = customCompare "Chart" "chart" ascendingOrder).
Proof.
  apply (customCompare_descending_is_complement "chart" "Chart" descendingOrder).
  discriminate.
Defined.

(** ** Sorting the charts *)

Lemma StrictWeak_on {A B} (f : A -> B) (less : B -> B -> bool) :
  sort.StrictWeak less -> sort.StrictWeak (fun x y => less (f x) (f y)).
Proof.
  intros [Hi Ht Hc]. split; [intros x; apply Hi|intros x y z; apply Ht|intros x y z; apply Hc].
Qed.

Lemma name_order_antisym (a b : string) :
  customCompare b a ascendingOrder = false ->
  customCompare a b ascendingOrder = false -> a = b.
Proof.
  rewrite !customCompare_ascending. intros Hba Hab.
  destruct (decide (a = b)) as [|Hne]; [done|].
  destruct (name_before_total a b Hne); congruence.
Qed.

Lemma StronglySorted_weaken {A} (R1 R2 : A -> A -> Prop) (l : list A) :
  (forall x y, R1 x y -> R2 x y) -> StronglySorted R1 l -> StronglySorted R2 l.
Proof.
  intros Himpl. induction 1 as [|x l _ IH Hall]; constructor; [done|].
  eapply Forall_impl; [exact Hall|]. intros y. apply Himpl.
Qed.

Section SortedCharts.

Variable S : sort.SliceSorter.

(** X3. Sorting by name in the ascending direction returns the same
    charts, ordered by [customCompare] (no name is before the name of a
    chart that stands earlier), and the sequence of names in the result is
    the same for every implementation of [sort.Slice]: only charts of the
    same name can come out in another order. *)
Theorem sortChartByName_ascending_sorted (chartList : list helm.ChartVersionResponse) :
  sortChartByName S chartList true ≡ₚ chartList
  /\ StronglySorted (fun a b => customCompare b a ascendingOrder = false)
       (map chart_name (sortChartByName S chartList true))
  /\ forall S' : sort.SliceSorter,
       map chart_name (sortChartByName S' chartList true)
       = map chart_name (sortChartByName S chartList true).
Proof.
  assert (Hsorted : forall T : sort.SliceSorter,
    StronglySorted (fun a b => customCompare b a ascendingOrder = false)
      (map chart_name (sortChartByName T chartList true))).
  { intros T. unfold sortChartByName.
    apply (StronglySorted_fmap chart_name
             (fun x y => customCompare (chart_name y) (chart_name x) ascendingOrder = false));
      [done|].
    apply (sort.Slice_ordered T).
    apply (StrictWeak_on chart_name _ customCompare_strict_weak). }
  split; [apply sort.Slice_perm|]. split; [apply Hsorted|].
  intros S'.
  apply (StronglySorted_unique_strong
           (fun a b => customCompare b a ascendingOrder = false));
    [|apply Hsorted|apply Hsorted|].
  - intros a b _ _. apply name_order_antisym.
  - unfold sortChartByName. apply Permutation_map.
    by rewrite !sort.Slice_perm.
Qed.

(** X4. Sorting by time returns the same charts in chronological order
    when ascending and in reverse chronological order when descending. *)
Theorem sortChartByTime_sorted (chartList : list helm.ChartVersionResponse)
  (ascending : bool) :
  sortChartByTime S chartList ascending ≡ₚ chartList
  /\ StronglySorted
       (fun a b => if ascending then chart_created a <= chart_created b
                   else chart_created b <= chart_created a)
       (sortChartByTime S chartList ascending).
Proof.
  unfold sortChartByTime. destruct ascending.
  - split; [apply sort.Slice_perm|].
    eapply StronglySorted_weaken; [|apply (sort.Slice_ordered S)].
    + intros a b H. unfold repo.Before in H. simpl in H. apply Z.ltb_ge in H. lia.
    + unfold repo.Before. split.
      * intros x. apply Z.ltb_irrefl.
      * intros x y z Hxy Hyz. apply Z.ltb_lt in Hxy, Hyz. apply Z.ltb_lt. lia.
      * intros x y z Hxy Hyz. apply Z.ltb_ge in Hxy, Hyz. apply Z.ltb_ge. lia.
  - split; [apply sort.Slice_perm|].
    eapply StronglySorted_weaken; [|apply (sort.Slice_ordered S)].
    + intros a b H. unfold repo.After in H. simpl in H. apply Z.ltb_ge in H. lia.
    + unfold repo.After. split.
      * intros x. apply Z.ltb_irrefl.
      * intros x y z Hxy Hyz. apply Z.ltb_lt in Hxy, Hyz. apply Z.ltb_lt. lia.
      * intros x y z Hxy Hyz. apply Z.ltb_ge in Hxy, Hyz. apply Z.ltb_ge. lia.
Qed.

End SortedCharts.

(** ** Membership helpers of [httputil] *)

Lemma Contains_elem_of (s : list string) (str : string) :
  Contains s str = true <-> str ∈ s.
Proof.
  unfold Contains. rewrite existsb_exists. split.
  - intros (a & Hin & Heq). apply String.eqb_eq in Heq as <-. by apply list_elem_of_In.
  - intros Hin. exists str. split; [by apply list_elem_of_In|apply String.eqb_refl].
Qed.

Lemma NotContains_not_elem_of (s : list string) (str : string) :
  NotContains s str = true <-> str ∉ s.
Proof.
  unfold NotContains. rewrite forallb_forall. split.
  - intros H Hin. apply list_elem_of_In in Hin. specialize (H _ Hin).
    by rewrite String.eqb_refl in H.
  - intros Hnot v Hv. apply negb_true_iff, String.eqb_neq. intros ->.
    by apply Hnot, list_elem_of_In.
Qed.

Lemma ContainsOne_common (leftArr rightArr : list string) :
  ContainsOne leftArr rightArr = true <-> exists s, s ∈ rightArr /\ s ∈ leftArr.
Proof.
  unfold ContainsOne. rewrite existsb_exists. split.
  - intros (s & Hin & Hs). apply bool_decide_eq_true in Hs.
    exists s. split; [by apply list_elem_of_In|by apply elem_of_list_to_set in Hs].
  - intros (s & Hr & Hl). exists s. split; [by apply list_elem_of_In|].
    apply bool_decide_eq_true. by apply elem_of_list_to_set.
Qed.

Lemma ContainsAll_subset (outer inner : list string) :
  ContainsAll outer inner = true <-> forall s, s ∈ inner -> s ∈ outer.
Proof.
  unfold ContainsAll. rewrite forallb_forall. split.
  - intros H s Hs. apply list_elem_of_In in Hs. specialize (H _ Hs).
    apply bool_decide_eq_true in H. by apply elem_of_list_to_set in H.
  - intros H s Hs. apply bool_decide_eq_true, elem_of_list_to_set, H.
    by apply list_elem_of_In.
Qed.

(** X5. The four membership helpers decide what their names say:
    [Contains] is membership and [NotContains] its negation; [ContainsOne]
    holds exactly when the two lists share an element, whichever list comes
    first; [ContainsAll] holds exactly when every element of the second list
    occurs in the first, so it holds for every empty second list. *)
Theorem membership_helpers (l r : list string) (str : string) :
  (Contains l str = true <-> str ∈ l)
  /\ NotContains l str = negb (Contains l str)
  /\ (ContainsOne l r = true <-> exists s, s ∈ l /\ s ∈ r)
  /\ ContainsOne l r = ContainsOne r l
  /\ (ContainsAll l r = true <-> forall s, s ∈ r -> s ∈ l)
  /\ ContainsAll l [] = true.
Proof.
  split; [apply Contains_elem_of|]. split.
  { destruct (Contains l str) eqn:Hc.
    - apply Contains_elem_of in Hc. simpl.
      destruct (NotContains l str) eqn:Hn; [|done].
      by apply NotContains_not_elem_of in Hn.
    - simpl. apply NotContains_not_elem_of. intros Hin.
      apply Contains_elem_of in Hin. congruence. }
  split. { rewrite ContainsOne_common. split; intros (s & H1 & H2); by exists s. }
  split.
  { apply eq_true_iff_eq. rewrite !ContainsOne_common.
    split; intros (s & H1 & H2); by exists s. }
  split; [apply ContainsAll_subset|done].
Qed.

(** ** Filtering the charts *)

Lemma filter_sublist {A} (f : A -> bool) (l : list A) : sublist (List.filter f l) l.
Proof.
  induction l as [|x l IH]; simpl; [constructor|].
  destruct (f x); by constructor.
Qed.

Lemma filter_idem {A} (f : A -> bool) (l : list A) :
  List.filter f (List.filter f l) = List.filter f l.
Proof.
  induction l as [|x l IH]; simpl; [done|].
  destruct (f x) eqn:Hf; simpl; [|done]. by rewrite Hf, IH.
Qed.

Lemma filter_filter {A} (f g : A -> bool) (l : list A) :
  List.filter f (List.filter g l) = List.filter (fun x => g x && f x) l.
Proof.
  induction l as [|x l IH]; simpl; [done|].
  destruct (g x); simpl; [|done]. destruct (f x); by rewrite IH.
Qed.

Lemma filter_true {A} (l : list A) : List.filter (fun _ => true) l = l.
Proof. induction l as [|x l IH]; simpl; by rewrite ?IH. Qed.

Lemma filter_three {A} (b1 b2 b3 : bool) (h g f : A -> bool) (l : list A) :
  (let l1 := if b1 then List.filter h l else l in
   let l2 := if b2 then List.filter g l1 else l1 in
   if b3 then List.filter f l2 else l2)
  = List.filter (fun x => (if b1 then h x else true) && (if b2 then g x else true)
                          && (if b3 then f x else true)) l.
Proof.
  destruct b1, b2, b3; cbv zeta; rewrite ?filter_filter;
    first [ apply List.filter_ext; intros a; by destruct (h a), (g a), (f a)
          | symmetry; apply (filter_true l) ].
Qed.

Lemma filterChartVersionSlice_keeps (searchParam : ChartSearchParam)
  (chartList : list helm.ChartVersionResponse) :
  filterChartVersionSlice searchParam chartList
  = List.filter (keeps searchParam) chartList.
Proof. unfold filterChartVersionSlice, keeps. apply filter_three. Qed.

(** X6. [filterChartVersionSlice] only selects: its result keeps the
    order of the input (it is a subsequence), filtering a second time
    changes nothing, a concatenation is filtered part by part, and with an
    empty chart name, no type and no scene every chart is kept. *)
Theorem filterChartVersionSlice_selects (searchParam : ChartSearchParam)
  (l1 l2 : list helm.ChartVersionResponse) :
  sublist (filterChartVersionSlice searchParam l1) l1
  /\ filterChartVersionSlice searchParam (filterChartVersionSlice searchParam l1)
     = filterChartVersionSlice searchParam l1
  /\ filterChartVersionSlice searchParam (l1 ++ l2)
     = filterChartVersionSlice searchParam l1 ++ filterChartVersionSlice searchParam l2
  /\ (Chart searchParam = EmptyString -> Types searchParam = [] ->
      Scene searchParam = [] -> filterChartVersionSlice searchParam l1 = l1).
Proof.
  rewrite !filterChartVersionSlice_keeps.
  split; [apply filter_sublist|]. split; [apply filter_idem|].
  split; [apply List.filter_app|].
  intros HC HT HS. unfold keeps. rewrite HC, HT, HS. simpl. apply filter_true.
Qed.

Lemma filterChartVersionSlice_selects_witness :
  filterChartVersionSlice demo_search [chart_named "a"; chart_named "b"]
  = [chart_named "a"; chart_named "b"].
Proof.
  apply (proj2 (proj2 (proj2
    (filterChartVersionSlice_selects demo_search [chart_named "a"; chart_named "b"] []))));
    reflexivity.
Defined.

Lemma existsb_elem_of {A} (f : A -> bool) (l : list A) :
  existsb f l = true <-> exists x, x ∈ l /\ f x = true.
Proof.
  rewrite existsb_exists. split; intros (x & Hx & Hf); exists x;
    (split; [by apply list_elem_of_In|done]).
Qed.

Lemma len_pos_nonempty {A} (l : list A) : (0 <? len l) = false <-> l = [].
Proof.
  destruct l; unfold len; simpl; [done|].
  split; [|done]. intros H. apply Z.ltb_ge in H. lia.
Qed.

(** X7. For a search text and chart names in ASCII, a chart is in the
    result of [filterChartVersionSlice] exactly when it is in the input and
    passes every filter that is set: the lower-cased chart name contains the
    lower-cased search text; one of the requested types fits (the type
    "application" fits a chart without the extension keyword, any other
    non-empty type fits a chart that has it as a keyword); one of the
    requested scenes is a keyword of the chart. *)
Theorem filterChartVersionSlice_membership (searchParam : ChartSearchParam)
  (chartList : list helm.ChartVersionResponse) (c : helm.ChartVersionResponse) :
  isASCII (Chart searchParam) = true ->
  Forall (fun chartInfo => isASCII (chart_name chartInfo) = true) chartList ->
  c ∈ filterChartVersionSlice searchParam chartList
  <-> c ∈ chartList /\ name_matches searchParam c /\ type_matches searchParam c
      /\ scene_matches searchParam c.
Proof.
  intros _ _.
  rewrite filterChartVersionSlice_keeps, list_elem_of_In, filter_In, <- list_elem_of_In.
  apply and_iff_compat_l.
  unfold keeps, name_matches, type_matches, scene_matches.
  rewrite !andb_true_iff.
  assert (Hname :
    (if negb (String.eqb (Chart searchParam) "")
     then strings_Contains (strings_ToLower (chart_name c))
            (strings_ToLower (Chart searchParam))
     else true) = true
    <-> Chart searchParam = EmptyString
        \/ strings_Contains (strings_ToLower (chart_name c))
             (strings_ToLower (Chart searchParam)) = true).
  { destruct (String.eqb_spec (Chart searchParam) ""); simpl; [by intuition|].
    by intuition. }
  assert (Hscene :
    (if 0 <? len (Scene searchParam)
     then ContainsOne (repo.Keywords (helm.Metadata c)) (Scene searchParam)
     else true) = true
    <-> Scene searchParam = []
        \/ exists s, s ∈ Scene searchParam /\ s ∈ repo.Keywords (helm.Metadata c)).
  { destruct (0 <? len (Scene searchParam)) eqn:Hs.
    - rewrite ContainsOne_common. split; [by right|].
      intros [He|H]; [|done]. apply len_pos_nonempty in He. congruence.
    - apply len_pos_nonempty in Hs. by intuition. }
  assert (Htype :
    (if 0 <? len (Types searchParam)
     then existsb (fun typeString =>
            if String.eqb typeString "application" then
              NotContains (repo.Keywords (helm.Metadata c)) constant.FuyaoExtensionKeyword
            else if negb (String.eqb typeString "") then
              Contains (repo.Keywords (helm.Metadata c)) typeString
            else false) (Types searchParam)
     else true) = true
    <-> Types searchParam = []
        \/ exists t, t ∈ Types searchParam
             /\ ((t = "application"
                  /\ constant.FuyaoExtensionKeyword ∉ repo.Keywords (helm.Metadata c))
                 \/ (t <> "application" /\ t <> EmptyString
                     /\ t ∈ repo.Keywords (helm.Metadata c)))).
  { destruct (0 <? len (Types searchParam)) eqn:Ht.
    - rewrite existsb_elem_of. split.
      + intros (t & Hin & Hf). right. exists t. split; [done|].
        destruct (String.eqb_spec t "application") as [->|Hne].
        * left. split; [done|]. by apply NotContains_not_elem_of.
        * right. destruct (String.eqb_spec t "") as [->|Hne']; [done|].
          simpl in Hf. split; [done|]. split; [done|]. by apply Contains_elem_of.
      + intros [He|(t & Hin & Hf)]; [apply len_pos_nonempty in He; congruence|].
        exists t. split; [done|]. destruct Hf as [[-> Hf]|(Hne & Hne' & Hf)].
        * simpl. by apply NotContains_not_elem_of.
        * apply String.eqb_neq in Hne, Hne'. rewrite Hne, Hne'. simpl.
          by apply Contains_elem_of.
    - apply len_pos_nonempty in Ht. by intuition. }
  rewrite Hname, Htype, Hscene. tauto.
Qed.

Lemma filterChartVersionSlice_membership_witness :
  chart_named "Demo"
  ∈ filterChartVersionSlice
      {| Repositories := []; Chart := "DEM"; Types := []; Scene := [];
         SQuery := SQuery demo_search |}
      [chart_named "other"; chart_named "Demo"].
Proof.
  apply (proj2 (filterChartVersionSlice_membership
                  {| Repositories := []; Chart := "DEM"; Types := []; Scene := [];
                     SQuery := SQuery demo_search |}
                  [chart_named "other"; chart_named "Demo"] (chart_named "Demo")
                  eq_refl ltac:(repeat constructor))).
  split; [apply list_elem_of_In; simpl; by right; left|].
  split; [right; reflexivity|]. split; by left.
Defined.

(** ** Validation of the scenes *)

Section UnknownScene.

Variable S : sort.SliceSorter.

(** X8. When the catalog and the configuration can be read, a search that
    names a scene the configuration does not list is answered with the
    default client failure (400, "bad request"), whatever the charts. *)
Theorem GetLatestCharts_unknown_scene (env : Env) (searchParam : ChartSearchParam)
  (w : World) (repoList : list helm.HelmChartRepository)
  (config : helm.MarketplaceServiceConfig) (s : string) :
  listCustomRepo env = Ok repoList ->
  GetMarketplaceServiceConfig env = Ok config ->
  s ∈ Scene searchParam ->
  s ∉ helm.MarketplaceScenes config ->
  fst (GetLatestCharts S env searchParam w)
  = Some (GetDefaultClientFailureResponseJson, http.StatusBadRequest).
Proof.
  intros Hlist Hconfig Hs Hnot. unfold GetLatestCharts, getLatestChartsByRepos.
  rewrite Hlist.
  destruct (if len (Repositories searchParam) =? 0
            then getLatestChartsFromAllRepositories S repoList w
            else getLatestChartsFromAllRepositories S
                   (filterSelectedRepositories (Repositories searchParam) repoList) w)
    as [chartList w'].
  rewrite Hconfig.
  destruct (ContainsAll (helm.MarketplaceScenes config) (Scene searchParam)) eqn:Hall;
    [|done].
  exfalso. apply Hnot. by apply (proj1 (ContainsAll_subset _ _) Hall).
Qed.

End UnknownScene.

Lemma GetLatestCharts_unknown_scene_witness :
  fst (GetLatestCharts insertion_sorter (demo_env None (fun _ _ => ok_reply small_body))
         {| Repositories := []; Chart := EmptyString; Types := []; Scene := ["games"];
            SQuery := {| param.QPagination := None; param.SortBy := "name";
                         param.Ascending := true |} |} demo_world)
  = Some (GetDefaultClientFailureResponseJson, http.StatusBadRequest).
Proof.
  apply (GetLatestCharts_unknown_scene insertion_sorter _ _ _
           [demo_repository] demo_config "games"); [reflexivity|reflexivity| |].
  - apply list_elem_of_In. simpl. by left.
  - intros H. apply list_elem_of_In in H. simpl in H.
    destruct H as [H|[H|[]]]; discriminate.
Defined.

(** ** The versions of a chart *)

(** X9. For a repository of the catalog whose index is cached,
    [GetChartVersion] answers 200 "success" with the cached versions of the
    chart, in their cached order: all of them for the empty version, else
    those whose version is the requested one; every record carries the
    display name and the URL of the repository.  A chart the index does not
    hold, and a version no entry has, give the same success with an empty
    list. *)
Theorem GetChartVersion_lists_versions (env : Env) (repoName chartName version : string)
  (w : World) (repository : helm.HelmChartRepository)
  (index : gmap string (list repo.ChartVersion)) :
  getCustomRepoByName env repoName = Ok repository ->
  repoChartCache w !! helm.DisplayName repository = Some index ->
  exists chartList,
    GetChartVersion env repoName chartName version w
    = ({| Code := constant.Success; Msg := "success";
          RData := ChartVersions_data chartList |}, http.StatusOK)
    /\ map helm.Metadata chartList
       = List.filter (fun entry => String.eqb version "" || String.eqb (repo.Version entry) version)
                     (default [] (index !! chartName))
    /\ Forall (fun c => helm.Repo c = helm.DisplayName repository
                        /\ helm.RepoUrl c = helm.URL repository) chartList
    /\ (index !! chartName = None -> chartList = [])
    /\ ((forall entry, entry ∈ default [] (index !! chartName) ->
           version <> EmptyString /\ repo.Version entry <> version) -> chartList = []).
Proof.
  intros Hrepo Hindex. unfold GetChartVersion, GetChartCacheByRepo.
  rewrite Hrepo, Hindex. simpl. eexists. split; [reflexivity|].
  assert (Hshow : forall entry,
    needShow entry version = String.eqb version "" || String.eqb (repo.Version entry) version).
  { intros entry. unfold needShow.
    by destruct (String.eqb version ""), (String.eqb (repo.Version entry) version). }
  split; [|split; [|split]].
  - rewrite map_map. simpl. rewrite map_id. apply List.filter_ext. exact Hshow.
  - apply Forall_forall. intros c Hc. apply list_elem_of_In, in_map_iff in Hc.
    by destruct Hc as (entry & <- & _).
  - by intros ->.
  - intros Hnone.
    destruct (List.filter _ (default [] (index !! chartName))) as [|entry rest] eqn:Hf;
      [done|].
    assert (Hin : In entry (List.filter (fun entry => needShow entry version)
                              (default [] (index !! chartName)))) by (rewrite Hf; by left).
    apply filter_In in Hin as [Hin Hs]. apply list_elem_of_In in Hin.
    destruct (Hnone _ Hin) as [Hv He]. rewrite Hshow in Hs.
    apply String.eqb_neq in Hv, He. by rewrite Hv, He in Hs.
Qed.

Lemma GetChartVersion_lists_versions_witness :
  exists chartList,
    GetChartVersion (demo_env None (fun _ _ => ok_reply small_body))
      "demo-repo" "demo" "2.0.0" demo_world
    = ({| Code := constant.Success; Msg := "success";
          RData := ChartVersions_data chartList |}, http.StatusOK)
    /\ map helm.Metadata chartList = [version_2].
Proof.
  destruct (GetChartVersion_lists_versions (demo_env None (fun _ _ => ok_reply small_body))
              "demo-repo" "demo" "2.0.0" demo_world demo_repository demo_index
              eq_refl eq_refl) as (chartList & Heq & Hmeta & _).
  exists chartList. split; [exact Heq|exact Hmeta].
Defined.

(** ** Pagination from the request *)

Lemma wrap_overflow z : maxInt < z <= 2 * maxInt -> wrap z = z - 2 ^ 64.
Proof.
  unfold maxInt, wrap. intros H.
  replace (z + 2 ^ 63) with (z + 2 ^ 63 - 2 ^ 64 + 1 * 2 ^ 64) by lia.
  rewrite Z.mod_add by lia. rewrite Z.mod_small; lia.
Qed.

(** X10. A positive limit and an offset inside the list whose sum exceeds
    the largest [int] make [pageResult] panic: the end index wraps around to
    a negative number and the slice expression is out of range.  The
    pagination of the limit 9223372036854775807 and the page -1, whose
    offset wraps to 2, is one on a list of two items. *)
Theorem pageResult_overflow_panics {A} (result : list A) (p : param.Pagination) :
  len result <= maxInt ->
  0 < param.Limit p <= maxInt ->
  0 <= param.Offset p <= len result ->
  maxInt < param.Offset p + param.Limit p ->
  pageResult result (Some p) = None.
Proof.
  intros Hlen HL HO Hsum. unfold pageResult, param.GetPaginationResult. simpl.
  assert (((param.Limit p <=? 0) || (param.Offset p <? 0)) = false) as ->.
  { apply orb_false_iff. split; [apply Z.leb_gt|apply Z.ltb_ge]; lia. }
  assert ((param.Limit p =? param.noPaginationLimit) = false) as ->.
  { apply Z.eqb_neq. unfold param.noPaginationLimit. lia. }
  assert ((param.Offset p >? len result) = false) as ->.
  { rewrite Z.gtb_ltb. apply Z.ltb_ge. lia. }
  unfold int_add. rewrite wrap_overflow by lia.
  unfold slice.
  assert ((param.Offset p <=? Z.min (param.Offset p + param.Limit p - 2 ^ 64) (len result))
          = false) as ->.
  { apply Z.leb_gt. unfold maxInt in *. lia. }
  by rewrite andb_false_r.
Qed.

Lemma pageResult_overflow_panics_witness :
  pageResult (seqZ 1 2) (Some (param.newPagination maxInt (-1))) = None.
Proof.
  apply pageResult_overflow_panics; vm_compute; try split; congruence.
Defined.

(** X11. The pagination of a request, composed with [pageResult]: when the
    limit parameter is missing or is not an integer of the range of [int],
    the whole list is returned on one page, with the requested page number
    (1 when that is missing too); when the limit is [L > 0] and the page is
    [P >= 1], within the list and without overflow, the page holds the
    items [(P-1)*L+1 .. P*L] of the list (fewer at its end). *)
Theorem ParseQueryParameter_pages {A} (QueryParameter : string -> string)
  (result : list A) :
  len result <= maxInt ->
  (strconv_Atoi (QueryParameter "limit") = None ->
   pageResult result (param.QPagination (ParseQueryParameter QueryParameter))
   = Some {| helm.Items := result; helm.TotalItems := len result;
             helm.CurrentPage := default 1 (strconv_Atoi (QueryParameter "page"));
             helm.TotalPages := 1 |})
  /\ (forall L P : Z,
        strconv_Atoi (QueryParameter "limit") = Some L ->
        strconv_Atoi (QueryParameter "page") = Some P ->
        0 < L -> 1 <= P -> (P - 1) * L < len result -> P * L <= maxInt ->
        pageResult result (param.QPagination (ParseQueryParameter QueryParameter))
        = Some {| helm.Items := take (Z.to_nat L) (drop (Z.to_nat ((P - 1) * L)) result);
                  helm.TotalItems := len result;
                  helm.CurrentPage := P;
                  helm.TotalPages := Z.quot (len result - 1) L + 1 |}).
Proof.
  intros Hlen. pose proof (len_nonneg result) as H0. split.
  - intros Hlimit. unfold ParseQueryParameter. rewrite Hlimit. simpl.
    unfold pageResult, param.GetPaginationResult. simpl. by rewrite slice_all.
  - intros L P Hlimit Hpage HL HP Hin Hmax.
    assert (Hoff : 0 <= (P - 1) * L) by nia.
    assert (Hend : (P - 1) * L + L <= maxInt) by nia.
    unfold ParseQueryParameter. rewrite Hlimit, Hpage. simpl.
    unfold pageResult, param.GetPaginationResult, param.newPagination. simpl.
    unfold int_mul, int_sub, int_add, int_div.
    rewrite (wrap_id (P - 1)) by (unfold inInt, minInt, maxInt in *; nia).
    rewrite (wrap_id ((P - 1) * L)) by int_range.
    assert (((L <=? 0) || ((P - 1) * L <? 0)) = false) as ->.
    { apply orb_false_iff. split; [apply Z.leb_gt|apply Z.ltb_ge]; lia. }
    assert ((L =? param.noPaginationLimit) = false) as ->.
    { apply Z.eqb_neq. unfold param.noPaginationLimit. lia. }
    assert (((P - 1) * L >? len result) = false) as ->.
    { rewrite Z.gtb_ltb. apply Z.ltb_ge. lia. }
    simpl.
    assert (Hquot : 0 <= Z.quot (len result - 1) L <= len result - 1).
    { rewrite Z.quot_div_nonneg by lia.
      pose proof (Z.div_pos (len result - 1) L).
      pose proof (Z.div_le_upper_bound (len result - 1) L (len result - 1)).
      nia. }
    rewrite (wrap_id ((P - 1) * L + L)) by int_range.
    rewrite (wrap_id (len result - 1)) by int_range.
    rewrite (wrap_id (Z.quot _ _)) by int_range.
    rewrite (wrap_id (Z.quot _ _ + 1)) by int_range.
    rewrite slice_window by lia. done.
Qed.

Lemma ParseQueryParameter_pages_witness :
  pageResult (seqZ 1 25)
    (param.QPagination (ParseQueryParameter
       (fun name => if String.eqb name "limit" then "10"
                    else if String.eqb name "page" then "3" else EmptyString)))
  = Some {| helm.Items := take (Z.to_nat 10) (drop (Z.to_nat ((3 - 1) * 10)) (seqZ 1 25));
            helm.TotalItems := len (seqZ 1 25);
            helm.CurrentPage := 3;
            helm.TotalPages := Z.quot (len (seqZ 1 25) - 1) 10 + 1 |}.
Proof.
  refine (proj2 (ParseQueryParameter_pages _ (seqZ 1 25) _) 10 3 _ _ _ _ _ _);
    vm_compute; congruence.
Defined.

(** ** Loading over the network *)

Lemma io_Copy_loop_fits (rs : list bytes) (final : option string) (dst : limitedBuffer) :
  0 <= written dst -> maxSize dst <= maxInt ->
  written dst + len (concat rs) <= maxSize dst ->
  io_Copy_loop dst rs final
  = (Other <$> final,
     {| buffer := buffer dst ++ concat rs; maxSize := maxSize dst;
        written := written dst + len (concat rs) |}).
Proof.
  revert dst. induction rs as [|p rs IH]; intros dst H0 Hmax Hfit.
  - simpl. change (len (@nil Byte.byte)) with 0. rewrite app_nil_r, Z.add_0_r.
    by destruct dst.
  - simpl in *. rewrite len_app in *.
    pose proof (len_nonneg p). pose proof (len_nonneg (concat rs)).
    destruct (0 <? len p) eqn:Hp.
    + rewrite limitedBuffer_Write_fits by lia. rewrite Z.eqb_refl. simpl.
      rewrite IH; simpl; [|lia..]. by rewrite <- app_assoc, Z.add_assoc.
    + apply Z.ltb_ge in Hp. assert (len p = 0) as Hp0 by lia.
      assert (p = []) as -> by (destruct p; [done|unfold len in Hp0; simpl in Hp0; lia]).
      rewrite IH; [|lia..]. simpl. change (len (@nil Byte.byte)) with 0. done.
Qed.

Lemma io_Copy_loop_too_long (rs : list bytes) (final : option string) (dst : limitedBuffer) :
  0 <= written dst <= maxSize dst ->
  written dst + len (concat rs) <= maxInt ->
  maxSize dst < written dst + len (concat rs) ->
  exists e dst', io_Copy_loop dst rs final = (Some e, dst').
Proof.
  revert dst. induction rs as [|p rs IH]; intros dst H0 Hmax Hex.
  - simpl in Hex. change (len (@nil Byte.byte)) with 0 in Hex. lia.
  - simpl in *. rewrite len_app in *.
    pose proof (len_nonneg p). pose proof (len_nonneg (concat rs)).
    destruct (0 <? len p) eqn:Hp.
    + destruct (Z.le_gt_cases (written dst + len p) (maxSize dst)) as [Hfit|Hover].
      * rewrite limitedBuffer_Write_fits by lia. rewrite Z.eqb_refl. simpl.
        apply IH; simpl; lia.
      * rewrite limitedBuffer_Write_exceeds by lia. by eexists _, _.
    + apply Z.ltb_ge in Hp. apply IH; lia.
Qed.

(** X12. [LoadData] hands back data in one case only: the request could
    be built, the server answered, the body was read to its end without an
    error and holds at most 100 MiB (that size included), and the status is
    200; the data are then the bytes of the body, unchanged and complete. *)
Theorem LoadData_returns_the_body (env : Env) (u : string) (repoEntry : repo.Entry)
  (w : World) (data : bytes) :
  (forall resp,
     roundTrip env (List.length (exchanges w)) (get_request u repoEntry) = DoResponse resp ->
     len (concat (reads (RespBody resp))) <= maxInt) ->
  fst (LoadData env u repoEntry w) = Ok data
  <-> NewRequestErr env u = None
      /\ exists resp,
           roundTrip env (List.length (exchanges w)) (get_request u repoEntry)
             = DoResponse resp
           /\ readErr (RespBody resp) = None
           /\ len (concat (reads (RespBody resp))) <= 100 * 1024 * 1024
           /\ StatusCode resp = 200
           /\ data = concat (reads (RespBody resp)).
Proof.
  intros Hint. unfold LoadData, client_Do.
  destruct (NewRequestErr env u) as [e|]; [split; [done|by intros [? _]]|].
  destruct (roundTrip env _ _) as [msg|resp] eqn:Hreply.
  { split; [done|]. by intros (_ & resp & ? & _). }
  specialize (Hint resp eq_refl). unfold io_Copy.
  pose proof index_maxSize_value as Hsize.
  destruct (Z.le_gt_cases (len (concat (reads (RespBody resp)))) index_maxSize)
    as [Hfit|Hbig].
  - rewrite io_Copy_loop_fits by (simpl; int_range).
    destruct (readErr (RespBody resp)) as [msg|] eqn:Herr; simpl.
    { split; [done|]. intros (_ & resp' & Heq & Hnone & _).
      injection Heq as <-. congruence. }
    destruct (Z.eqb_spec (StatusCode resp) http.StatusOK) as [Hok|Hno]; simpl.
    + split.
      * intros [= <-]. split; [done|]. exists resp.
        repeat split; try done; lia.
      * intros (_ & resp' & Heq & _ & _ & _ & ->). by injection Heq as <-.
    + split; [done|]. intros (_ & resp' & Heq & _ & _ & Hst & _).
      injection Heq as <-. done.
  - destruct (io_Copy_loop_too_long (reads (RespBody resp)) (readErr (RespBody resp))
                (newLimitedBuffer index_maxSize)) as (e & dst' & ->).
    + simpl. lia.
    + simpl. lia.
    + simpl. lia.
    + split; [done|]. intros (_ & resp' & Heq & _ & Hle & _).
      injection Heq as <-. lia.
Qed.

Lemma LoadData_returns_the_body_witness :
  fst (LoadData (demo_env None (fun _ _ => ok_reply small_body))
         "https://charts.example/demo/index.yaml" demo_entry empty_world)
  = Ok [Byte.x61; Byte.x70; Byte.x69].
Proof.
  apply LoadData_returns_the_body.
  - intros resp [= <-]. vm_compute. discriminate.
  - split; [reflexivity|]. eexists. split; [reflexivity|].
    repeat split; vm_compute; congruence.
Defined.

(** ** A trailing slash of the repository URL *)

Lemma append_nil (b : string) : EmptyString +:+ b = b.
Proof. reflexivity. Qed.

Lemma append_cons (c : ascii) (a b : string) : String c a +:+ b = String c (a +:+ b).
Proof. reflexivity. Qed.

Lemma append_assoc (a b c : string) : (a +:+ b) +:+ c = a +:+ (b +:+ c).
Proof.
  induction a as [|x a IH]; [done|]. by rewrite !append_cons, IH.
Qed.

Lemma strings_HasSuffix_app_slash (u : string) : strings_HasSuffix (u +:+ "/") "/" = true.
Proof.
  induction u as [|c u IH]; [done|].
  rewrite append_cons.
  change (strings_HasSuffix (String c (u +:+ "/")) "/")
    with (String.eqb (String c (u +:+ "/")) "/" || strings_HasSuffix (u +:+ "/") "/").
  rewrite IH. apply orb_true_r.
Qed.

Lemma LoadData_entry (env : Env) (u : string) (e e' : repo.Entry) (w : World) :
  repo.Username e = repo.Username e' -> repo.Password e = repo.Password e' ->
  LoadData env u e w = LoadData env u e' w.
Proof.
  intros Hu Hp. unfold LoadData, get_request. by rewrite Hu, Hp.
Qed.

(** X13. A trailing slash at the end of the repository URL makes no
    difference: the index is loaded from the same address and with the same
    outcome, and so is every chart whose URL is relative (neither http(s)
    nor oci). *)
Theorem trailing_slash_is_irrelevant (LoadOCI : string -> repo.Entry -> result bytes)
  (env : Env) (u chartUrl : string) (repoEntry : repo.Entry) (w : World) :
  strings_HasSuffix u "/" = false ->
  LoadRepoIndex env (with_URL (u +:+ "/") repoEntry) w
  = LoadRepoIndex env (with_URL u repoEntry) w
  /\ (registry_IsOCI chartUrl = false ->
      LoadChartBytes LoadOCI env chartUrl (with_URL (u +:+ "/") repoEntry) w
      = LoadChartBytes LoadOCI env chartUrl (with_URL u repoEntry) w).
Proof.
  intros Hu. split.
  - unfold LoadRepoIndex, index_url. simpl.
    rewrite strings_HasSuffix_app_slash, Hu. simpl.
    rewrite append_assoc.
    by rewrite (LoadData_entry env _ (with_URL (u +:+ "/") repoEntry) (with_URL u repoEntry)).
  - intros Hoci. unfold LoadChartBytes. rewrite Hoci. simpl.
    rewrite strings_HasSuffix_app_slash, Hu. simpl.
    destruct (negb _).
    + rewrite append_assoc. by apply LoadData_entry.
    + by apply LoadData_entry.
Qed.

Lemma trailing_slash_is_irrelevant_witness :
  LoadRepoIndex (demo_env None (fun _ _ => ok_reply small_body))
    (with_URL ("https://charts.example/demo" +:+ "/") demo_entry) empty_world
  = LoadRepoIndex (demo_env None (fun _ _ => ok_reply small_body))
      (with_URL "https://charts.example/demo" demo_entry) empty_world.
Proof.
  apply (trailing_slash_is_irrelevant (fun _ _ => Err (Other "no registry"))
           _ "https://charts.example/demo" "demo-1.0.0.tgz" demo_entry empty_world).
  reflexivity.
Defined.

(** ** The archive of a chart version *)

Lemma chartBytesLoop_not_found LoadOCI env entries chartVersion repoEntry notFound w :
  Forall (fun entry => repo.Version entry <> chartVersion) entries ->
  chartBytesLoop LoadOCI env entries chartVersion repoEntry notFound w
  = Some (Err notFound, w).
Proof.
  induction 1 as [|entry entries Hne _ IH]; simpl; [done|].
  apply String.eqb_neq in Hne. by rewrite Hne.
Qed.

Lemma chartBytesLoop_first LoadOCI env pre entry post chartVersion repoEntry notFound w :
  Forall (fun entry => repo.Version entry <> chartVersion) pre ->
  repo.Version entry = chartVersion ->
  chartBytesLoop LoadOCI env (pre ++ entry :: post) chartVersion repoEntry notFound w
  = match repo.URLs entry with
    | [] => None
    | url0 :: _ => Some (LoadChartBytes LoadOCI env url0 repoEntry w)
    end.
Proof.
  intros Hpre Heq. induction Hpre as [|e pre Hne _ IH]; simpl.
  - apply String.eqb_eq in Heq. by rewrite Heq.
  - apply String.eqb_neq in Hne. by rewrite Hne.
Qed.

(** X14. [GetChartBytesByVersion], for a repository whose index is cached
    and whose credentials resolve: when no cached entry of the chart has the
    requested version it returns the error "no chart information found:
    <repo>-<chart>-<version>" and sends nothing; otherwise the first entry
    of that version decides, later ones are not looked at: the archive is
    loaded from the first URL of that entry, and an entry without any URL
    makes the call panic.  For a repository that is not cached the error
    says so and nothing is sent. *)
Theorem GetChartBytesByVersion_cases (LoadOCI : string -> repo.Entry -> result bytes)
  (env : Env) (repoName chartName chartVersion : string) (w : World) :
  (repoChartCache w !! repoName = None ->
   GetChartBytesByVersion LoadOCI env repoName chartName chartVersion w
   = Some (Err (Other (repoName
                +:+ " is no longer in the helm repository, please add repository first")), w))
  /\ (forall index repoEntry,
        getRepoEntryAndChartVersions env repoName w = Ok (index, repoEntry) ->
        (Forall (fun entry => repo.Version entry <> chartVersion)
                (default [] (index !! chartName)) ->
         GetChartBytesByVersion LoadOCI env repoName chartName chartVersion w
         = Some (Err (Other ("no chart information found: " +:+ repoName +:+ "-"
                               +:+ chartName +:+ "-" +:+ chartVersion)), w))
        /\ (forall pre entry post,
              default [] (index !! chartName) = pre ++ entry :: post ->
              Forall (fun entry => repo.Version entry <> chartVersion) pre ->
              repo.Version entry = chartVersion ->
              GetChartBytesByVersion LoadOCI env repoName chartName chartVersion w
              = match repo.URLs entry with
                | [] => None
                | url0 :: _ => Some (LoadChartBytes LoadOCI env url0 repoEntry w)
                end)).
Proof.
  split.
  - intros Hnone. unfold GetChartBytesByVersion, getRepoEntryAndChartVersions,
      GetChartCacheByRepo. by rewrite Hnone.
  - intros index repoEntry Hget. unfold GetChartBytesByVersion. rewrite Hget. split.
    + apply chartBytesLoop_not_found.
    + intros pre entry post -> Hpre Heq. by apply chartBytesLoop_first.
Qed.

Lemma GetChartBytesByVersion_cases_witness :
  GetChartBytesByVersion (fun _ _ => Err (Other "no registry"))
    (demo_env None (fun _ _ => ok_reply small_body)) "demo-repo" "demo" "9.9.9" demo_world
  = Some (Err (Other "no chart information found: demo-repo-demo-9.9.9"), demo_world).
Proof.
  refine (proj1 (proj2 (GetChartBytesByVersion_cases _ _ "demo-repo" "demo" "9.9.9"
                          demo_world) demo_index demo_entry _) _).
  - reflexivity.
  - repeat constructor; discriminate.
Defined.

(** ** The challenge of the registry and the bearer token *)

Lemma lacks_nil (c : ascii) : lacks c EmptyString.
Proof. reflexivity. Qed.

Lemma lacks_cons (c d : ascii) (s : string) :
  lacks c (String d s) <-> d <> c /\ lacks c s.
Proof.
  unfold lacks.
  change (strings_Contains (String d s) (String c EmptyString))
    with ((Ascii.eqb c d && strings_HasPrefix s EmptyString)
          || strings_Contains s (String c EmptyString)).
  replace (strings_HasPrefix s EmptyString) with true by (by destruct s).
  rewrite andb_true_r, orb_false_iff, Ascii.eqb_neq. split; intros [H1 H2]; by split.
Qed.

Lemma lacks_app (c : ascii) (a b : string) :
  lacks c (a +:+ b) <-> lacks c a /\ lacks c b.
Proof.
  induction a as [|d a IH].
  - rewrite append_nil. split; [by split|by intros [_ ?]].
  - rewrite append_cons, !lacks_cons, IH. tauto.
Qed.

Lemma strings_Split_lacks (a : string) (sep : ascii) :
  lacks sep a -> strings_Split a sep = [a].
Proof.
  induction a as [|d a IH]; [done|]. intros [Hd Ha]%lacks_cons.
  cbn [strings_Split]. apply Ascii.eqb_neq in Hd. rewrite Hd, (IH Ha). done.
Qed.

Lemma strings_Split_app_sep (a b : string) (sep : ascii) :
  lacks sep a -> strings_Split (a +:+ String sep b) sep = a :: strings_Split b sep.
Proof.
  induction a as [|d a IH]; intros Ha.
  - rewrite append_nil. cbn [strings_Split]. by rewrite Ascii.eqb_refl.
  - apply lacks_cons in Ha as [Hd Ha]. rewrite append_cons. cbn [strings_Split].
    apply Ascii.eqb_neq in Hd. by rewrite Hd, (IH Ha).
Qed.

Lemma strings_SplitN2_app_sep (k v : string) (sep : ascii) :
  lacks sep k -> strings_SplitN2 (k +:+ String sep v) sep = [k; v].
Proof.
  induction k as [|d k IH]; intros Hk.
  - rewrite append_nil. cbn [strings_SplitN2]. by rewrite Ascii.eqb_refl.
  - apply lacks_cons in Hk as [Hd Hk]. rewrite append_cons. cbn [strings_SplitN2].
    apply Ascii.eqb_neq in Hd. by rewrite Hd, (IH Hk).
Qed.

Lemma list_ascii_of_string_app (a b : string) :
  list_ascii_of_string (a +:+ b) = list_ascii_of_string a ++ list_ascii_of_string b.
Proof.
  induction a as [|c a IH]; [done|]. rewrite append_cons. simpl. by rewrite IH.
Qed.

Lemma string_of_list_ascii_app (l1 l2 : list ascii) :
  string_of_list_ascii (l1 ++ l2) = string_of_list_ascii l1 +:+ string_of_list_ascii l2.
Proof.
  induction l1 as [|c l1 IH]; [done|]. simpl. by rewrite IH, append_cons.
Qed.

Lemma string_rev_app (a b : string) : string_rev (a +:+ b) = string_rev b +:+ string_rev a.
Proof.
  unfold string_rev.
  by rewrite list_ascii_of_string_app, rev_app_distr, string_of_list_ascii_app.
Qed.

Lemma string_rev_involutive (s : string) : string_rev (string_rev s) = s.
Proof.
  unfold string_rev.
  by rewrite list_ascii_of_string_of_list_ascii, rev_involutive,
    string_of_list_ascii_of_string.
Qed.

Lemma lacks_In (c : ascii) (s : string) : lacks c s <-> ~ In c (list_ascii_of_string s).
Proof.
  induction s as [|d s IH]; [split; [by intros _ []|reflexivity]|].
  rewrite lacks_cons, IH. simpl. tauto.
Qed.

Lemma lacks_string_rev (c : ascii) (s : string) : lacks c s -> lacks c (string_rev s).
Proof.
  rewrite !lacks_In. unfold string_rev.
  rewrite list_ascii_of_string_of_list_ascii. intros H Hin. by apply H, in_rev.
Qed.

Lemma trim_left_lacks (c : ascii) (s : string) :
  lacks c s -> trim_left (Ascii.eqb c) s = s.
Proof.
  destruct s as [|d s]; [done|]. intros [Hd _]%lacks_cons. simpl.
  assert (Ascii.eqb c d = false) as -> by (apply Ascii.eqb_neq; congruence). done.
Qed.

Lemma strings_Trim_quoted (c : ascii) (v : string) :
  lacks c v ->
  strings_Trim (String c EmptyString +:+ v +:+ String c EmptyString) c = v.
Proof.
  intros Hv. unfold strings_Trim, trim_both.
  rewrite append_cons, append_nil. cbn [trim_left]. rewrite Ascii.eqb_refl.
  destruct v as [|d v].
  - rewrite append_nil. cbn [trim_left]. by rewrite Ascii.eqb_refl.
  - pose proof Hv as [Hd _]%lacks_cons.
    rewrite append_cons. cbn [trim_left].
    assert (Ascii.eqb c d = false) as -> by (apply Ascii.eqb_neq; congruence).
    rewrite <- append_cons, string_rev_app.
    change (string_rev (String c EmptyString)) with (String c EmptyString).
    rewrite append_cons, append_nil. cbn [trim_left]. rewrite Ascii.eqb_refl.
    rewrite trim_left_lacks by (by apply lacks_string_rev).
    apply string_rev_involutive.
Qed.

(** X15. A challenge in the form the registry sends it,
    [Bearer realm="R",service="S",scope="C"], is parsed back into its three
    values, whenever none of them contains a comma or a double quote; the
    token is then requested from [R?service=S&scope=C]. *)
Theorem getBearTokenHeadParameter_round_trip (realm service scope : string) :
  lacks "," realm -> lacks "034" realm ->
  lacks "," service -> lacks "034" service ->
  lacks "," scope -> lacks "034" scope ->
  getBearTokenHeadParameter (bearer_challenge realm service scope)
  = (realm, service, scope)
  /\ (let '(r, s, c) := getBearTokenHeadParameter (bearer_challenge realm service scope) in
      getOfficialHarborBearerTokenRequestURL r s c)
     = realm +:+ "?service=" +:+ service +:+ "&scope=" +:+ scope.
Proof.
  intros Hr1 Hr2 Hs1 Hs2 Hc1 Hc2.
  assert (Hparse : getBearTokenHeadParameter (bearer_challenge realm service scope)
                   = (realm, service, scope)).
  { unfold getBearTokenHeadParameter, bearer_challenge.
    assert (Hprefix : forall x, strings_TrimPrefix ("Bearer " +:+ x) "Bearer " = x)
      by (intros x; destruct x; reflexivity).
    rewrite Hprefix.
    assert (Hparam : forall key value, lacks "," key -> lacks "," value ->
                       lacks "," (challenge_param key value)).
    { intros key value Hk Hv. unfold challenge_param, quote.
      rewrite !lacks_app. repeat split; done. }
    rewrite !append_cons, !append_nil.
    rewrite (strings_Split_app_sep (challenge_param "realm" realm)) by (by apply Hparam).
    rewrite (strings_Split_app_sep (challenge_param "service" service)) by (by apply Hparam).
    rewrite (strings_Split_lacks (challenge_param "scope" scope)) by (by apply Hparam).
    match goal with |- fold_left ?f _ _ = _ => set (step := f) end.
    assert (Hkv : forall key value, lacks "=" key ->
                    strings_SplitN2 (challenge_param key value) "="
                    = [key; quote +:+ value +:+ quote]).
    { intros key value Hk. unfold challenge_param.
      rewrite (append_cons "=" EmptyString), append_nil.
      by apply strings_SplitN2_app_sep. }
    assert (H1 : forall r s c v, lacks "034" v ->
                   step (r, s, c) (challenge_param "realm" v) = (v, s, c)).
    { intros r s c v Hv. unfold step. rewrite Hkv by reflexivity.
      unfold quote. by rewrite strings_Trim_quoted. }
    assert (H2 : forall r s c v, lacks "034" v ->
                   step (r, s, c) (challenge_param "service" v) = (r, v, c)).
    { intros r s c v Hv. unfold step. rewrite Hkv by reflexivity.
      unfold quote. by rewrite strings_Trim_quoted. }
    assert (H3 : forall r s c v, lacks "034" v ->
                   step (r, s, c) (challenge_param "scope" v) = (r, s, v)).
    { intros r s c v Hv. unfold step. rewrite Hkv by reflexivity.
      unfold quote. by rewrite strings_Trim_quoted. }
    cbn [fold_left]. by rewrite H1, H2, H3. }
  split; [exact Hparse|]. by rewrite Hparse.
Qed.

Lemma getBearTokenHeadParameter_round_trip_witness :
  getBearTokenHeadParameter
    (bearer_challenge "https://harbor.example/service/token" "harbor-registry"
       "repository:openfuyao:pull")
  = ("https://harbor.example/service/token", "harbor-registry", "repository:openfuyao:pull").
Proof.
  apply getBearTokenHeadParameter_round_trip; reflexivity.
Defined.

(** X16. The renewal of the bearer token never touches the chart cache or
    the sync status.  It returns without an error only when the token
    endpoint answered 200 with a JSON object whose token is a string, and
    the stored token is then that string.  The stored token changes in no
    other way than through an answer with status 200: to the string, or to
    the empty string when the token field is not a string (an error is
    returned then); a failed request, another status or another body leave
    it as it was. *)
Theorem updateOfficialHarborBearerToken_token (env : Env) (tagRequestResponse : Response)
  (w : World) :
  let err := fst (updateOfficialHarborBearerToken env tagRequestResponse w) in
  let w' := snd (updateOfficialHarborBearerToken env tagRequestResponse w) in
  repoChartCache w' = repoChartCache w
  /\ repoAsyncTaskMap w' = repoAsyncTaskMap w
  /\ (err = None ->
      exists request response,
        answered_200 env w w' request response
        /\ jsonToken env (concat (reads (RespBody response)))
           = TokenString (officialHarborBearerToken w'))
  /\ (officialHarborBearerToken w' <> officialHarborBearerToken w ->
      exists request response,
        answered_200 env w w' request response
        /\ let body := concat (reads (RespBody response)) in
           (jsonToken env body = TokenString (officialHarborBearerToken w') /\ err = None)
           \/ (jsonToken env body = TokenNotString
               /\ officialHarborBearerToken w' = EmptyString
               /\ err = Some (getTokenNotFoundError body))).
Proof.
  unfold updateOfficialHarborBearerToken.
  destruct (default [] (Header tagRequestResponse !! wwwAuthenticate)) as [|authenticate0 rest];
    [by repeat split|].
  destruct (getBearTokenHeadParameter authenticate0) as [[realm service] scope].
  destruct (NewRequestErr env _) as [e|]; [by repeat split|].
  destruct (getRepoEntryAndChartVersions env "openfuyao" w) as [[index repoEntry]|e];
    [|by repeat split].
  unfold getHttpRequestResponse, client_Do.
  destruct (httpClientErr env repoEntry) as [e|]; [by repeat split|].
  destruct (roundTrip env _ _) as [msg|response] eqn:Hreply; [by repeat split|].
  unfold io_ReadAll.
  destruct (readErr (RespBody response)) as [msg|] eqn:Hread; [by repeat split|].
  destruct (Z.eqb_spec (StatusCode response) http.StatusOK) as [Hok|Hno]; simpl;
    [|by repeat split].
  assert (Hanswer : forall tok,
    answered_200 env w
      (set_token tok
         {| repoChartCache := repoChartCache w; repoAsyncTaskMap := repoAsyncTaskMap w;
            officialHarborBearerToken := officialHarborBearerToken w;
            exchanges := exchanges w ++
              [{| Method := "GET";
                  ReqURL := getOfficialHarborBearerTokenRequestURL realm service scope;
                  Authorization := None; BasicAuth := None |}];
            goroutines := goroutines w |})
      {| Method := "GET";
         ReqURL := getOfficialHarborBearerTokenRequestURL realm service scope;
         Authorization := None; BasicAuth := None |} response).
  { intros tok. by repeat split. }
  destruct (jsonToken env (concat (reads (RespBody response)))) as [|msg| | |tok] eqn:Hjson;
    simpl; try (by repeat split).
  - split; [done|]. split; [done|]. split; [done|]. intros _.
    eexists _, response. split; [apply Hanswer|]. right. done.
  - split; [done|]. split; [done|]. split; intros _.
    + eexists _, response. split; [apply Hanswer|]. done.
    + eexists _, response. split; [apply Hanswer|]. left. done.
Qed.

Lemma updateOfficialHarborBearerToken_token_witness :
  exists request response,
    answered_200 (harbor_env accepts_renewed) harbor_world
      (snd (updateOfficialHarborBearerToken (harbor_env accepts_renewed)
              {| StatusCode := 401; Header := {[ "Www-Authenticate" := [challenge] ]};
                 RespBody := small_body |} harbor_world))
      request response
    /\ jsonToken (harbor_env accepts_renewed) (concat (reads (RespBody response)))
       = TokenString
           (officialHarborBearerToken
              (snd (updateOfficialHarborBearerToken (harbor_env accepts_renewed)
                      {| StatusCode := 401;
                         Header := {[ "Www-Authenticate" := [challenge] ]};
                         RespBody := small_body |} harbor_world))).
Proof.
  apply (proj1 (proj2 (proj2
    (updateOfficialHarborBearerToken_token (harbor_env accepts_renewed)
       {| StatusCode := 401; Header := {[ "Www-Authenticate" := [challenge] ]};
          RespBody := small_body |} harbor_world)))).
  reflexivity.
Defined.

(** ** URL-safe base64 *)

Lemma strings_ReplaceAll_cons (c old new : ascii) (s : string) :
  strings_ReplaceAll (String c s) old new
  = String (if Ascii.eqb c old then new else c) (strings_ReplaceAll s old new).
Proof. reflexivity. Qed.

(** X17. The names of the tagged charts come in URL-safe base64.  For a
    text in the standard alphabet (which has none of the bytes [-], [_] and
    [.]), [decodeURLSafeBase64String] decodes its URL-safe spelling to what
    the standard decoding gives for the text itself, and decodes the text
    itself to the same. *)
Theorem decodeURLSafeBase64String_url_safe (env : Env) (s : string) :
  lacks "-" s -> lacks "_" s -> lacks "." s ->
  decodeURLSafeBase64String env (url_safe s) = DecodeBase64String env s
  /\ decodeURLSafeBase64String env s = DecodeBase64String env s.
Proof.
  intros H1 H2 H3. unfold decodeURLSafeBase64String, url_safe.
  assert (Hsafe :
    strings_ReplaceAll
      (strings_ReplaceAll
         (strings_ReplaceAll
            (strings_ReplaceAll (strings_ReplaceAll (strings_ReplaceAll s "+" "-") "/" "_")
               "=" ".") "-" "+") "_" "/") "." "=" = s).
  { induction s as [|c s IH]; [done|].
    apply lacks_cons in H1 as [Hc1 H1]. apply lacks_cons in H2 as [Hc2 H2].
    apply lacks_cons in H3 as [Hc3 H3].
    rewrite !strings_ReplaceAll_cons, (IH H1 H2 H3). f_equal.
    destruct (Ascii.eqb_spec c "+") as [->|?]; [done|].
    destruct (Ascii.eqb_spec c "/") as [->|?]; [done|].
    destruct (Ascii.eqb_spec c "=") as [->|?]; [done|].
    destruct (Ascii.eqb_spec c "-") as [->|?]; [done|].
    destruct (Ascii.eqb_spec c "_") as [->|?]; [done|].
    destruct (Ascii.eqb_spec c ".") as [->|?]; done. }
  assert (Hplain :
    strings_ReplaceAll (strings_ReplaceAll (strings_ReplaceAll s "-" "+") "_" "/") "." "="
    = s).
  { clear Hsafe. induction s as [|c s IH]; [done|].
    apply lacks_cons in H1 as [Hc1 H1]. apply lacks_cons in H2 as [Hc2 H2].
    apply lacks_cons in H3 as [Hc3 H3].
    rewrite !strings_ReplaceAll_cons, (IH H1 H2 H3). f_equal.
    destruct (Ascii.eqb_spec c "-") as [->|?]; [done|].
    destruct (Ascii.eqb_spec c "_") as [->|?]; [done|].
    destruct (Ascii.eqb_spec c ".") as [->|?]; done. }
  by rewrite Hsafe, Hplain.
Qed.

Lemma decodeURLSafeBase64String_url_safe_witness :
  decodeURLSafeBase64String (harbor_env always_401) (url_safe "a+b/c==")
  = DecodeBase64String (harbor_env always_401) "a+b/c==".
Proof.
  apply decodeURLSafeBase64String_url_safe; reflexivity.
Defined.

(** ** The status a sync leaves *)

(** X18. When the goroutine that [SyncRepo] started has run, the status of
    the repository is never left at "in_progress": it is "complete" exactly
    when the credentials resolved, the index was loaded and the
    modification time was patched, and "failed" otherwise; [GetRepoSyncStatus]
    answers 200 with that status, and the status of every other name is
    what it was. *)
Theorem SyncRepoTask_terminal (env : Env) (name : string)
  (repository : helm.HelmChartRepository) (w : World) :
  let w' := run_goroutine env (SyncRepoTask name repository) w in
  let succeeded :=
    exists repoEntry index,
      repoCRtoRepoEntry env repository = Ok repoEntry
      /\ fst (LoadRepoIndex env repoEntry w) = Ok index
      /\ patchRepoModificationTime env (helm.Name repository) = None in
  (exists status,
     GetRepoSyncStatus name w'
     = ({| Code := constant.Success; Msg := status; RData := nil_data |}, http.StatusOK)
     /\ (status = syncCompleteMsg \/ status = syncFailedMsg)
     /\ (status = syncCompleteMsg <-> succeeded))
  /\ (forall other, other <> name ->
        repoAsyncTaskMap w' !! other = repoAsyncTaskMap w !! other).
Proof.
  cbv zeta. split.
  - unfold GetRepoSyncStatus. rewrite SyncRepoTask_status.
    eexists. split; [reflexivity|].
    destruct (asyncUpdateRepository_cases env repository w)
      as [(e & Hentry & Hres)|[(repoEntry & e & Hentry & Hload & Hsent & _)
                              |(repoEntry & index & Hentry & Hload & Hsent & _)]].
    + rewrite Hres. simpl. split; [by right|]. split; [done|].
      intros (repoEntry & index & Hentry' & _). congruence.
    + rewrite Hsent. split; [by right|]. split; [done|].
      intros (repoEntry' & index & Hentry' & Hload' & _). congruence.
    + rewrite Hsent.
      destruct (patchRepoModificationTime env (helm.Name repository)) as [e|] eqn:Hpatch.
      * split; [by right|]. split; [done|]. by intros (? & ? & _ & _ & ?).
      * split; [by left|]. split; [|done]. intros _. by exists repoEntry, index.
  - intros other Hne. simpl.
    pose proof (asyncUpdateRepository_status env repository w) as Hstatus.
    destruct (asyncUpdateRepository env repository w) as [w1 sent]. simpl in Hstatus.
    assert (Hfold : forall (l : list errRepo) (w0 : World),
      repoAsyncTaskMap (fold_left (fun w _ => Store name syncFailedMsg w) l w0) !! other
      = repoAsyncTaskMap w0 !! other).
    { induction l as [|x l IHl]; intros w0; simpl; [done|].
      rewrite IHl. simpl. by apply lookup_insert_ne. }
    rewrite Hfold. simpl. rewrite lookup_insert_ne by done. by rewrite Hstatus.
Qed.

(** ** The latest-versions query writes to the cache *)

Section LatestWrites.

Variable S : sort.SliceSorter.

(** X19. The query for the latest charts is not read-only.  For every
    chart of the repository that has a version, the cached list of its
    versions is afterwards the list as sorted, newest first, and its first
    element is the emitted record: one of the versions with its keywords
    replaced by the keywords of all versions.  The other versions stay as
    they were, no version is lost or added, and the cache entries of the
    other repositories are untouched. *)
Theorem getLatestChartsFromRepository_rewrites_cache
  (repository : helm.HelmChartRepository) (w : World)
  (index : gmap string (list repo.ChartVersion)) (name : string)
  (versions : list repo.ChartVersion) :
  repoChartCache w !! helm.DisplayName repository = Some index ->
  index !! name = Some versions ->
  versions <> [] ->
  let w' := snd (getLatestChartsFromRepository S repository w) in
  (exists latest rest index',
     {| helm.Metadata := latest; helm.Repo := helm.DisplayName repository;
        helm.RepoUrl := helm.URL repository |}
       ∈ fst (getLatestChartsFromRepository S repository w)
     /\ repoChartCache w' !! helm.DisplayName repository = Some index'
     /\ index' !! name = Some (latest :: rest)
     /\ map (repo.set_Keywords []) (latest :: rest) ≡ₚ map (repo.set_Keywords []) versions
     /\ Forall (fun v => v ∈ versions) rest
     /\ Forall (fun v => repo.Created v <= repo.Created latest) rest
     /\ (forall k, k ∈ repo.Keywords latest <-> exists v, v ∈ versions /\ k ∈ repo.Keywords v))
  /\ (forall other, other <> helm.DisplayName repository ->
        repoChartCache w' !! other = repoChartCache w !! other).
Proof.
  intros Hindex Hname Hne. cbv zeta.
  unfold getLatestChartsFromRepository, GetChartCacheByRepo. rewrite Hindex. simpl.
  split; [|intros other Hother; by rewrite lookup_insert_ne].
  set (less := fun vi vj : repo.ChartVersion =>
                 repo.After (repo.Created vi) (repo.Created vj)).
  pose proof (sort.Slice_perm S _ less versions) as Hp.
  pose proof (sort.Slice_ordered S _ less versions After_strict_weak) as Ho.
  destruct (sort.Slice S less versions) as [|first rest] eqn:Hs.
  { apply Permutation_nil_l in Hp. congruence. }
  exists (repo.set_Keywords (ExtractUniqueKeywords (first :: rest)) first), rest,
    ((fun cvs => fst (latestOf S cvs)) <$> index).
  assert (Hlatest : latestOf S versions
                    = (repo.set_Keywords (ExtractUniqueKeywords (first :: rest)) first :: rest,
                       Some (repo.set_Keywords (ExtractUniqueKeywords (first :: rest)) first))).
  { unfold latestOf. fold less. by rewrite Hs. }
  split; [|split; [|split; [|split; [|split; [|split]]]]].
  - apply list_elem_of_omap. exists (name, versions). split.
    + by apply elem_of_map_to_list.
    + unfold latestChart. simpl. by rewrite Hlatest.
  - apply lookup_insert_eq.
  - rewrite lookup_fmap, Hname. simpl. by rewrite Hlatest.
  - rewrite <- Hp. simpl. done.
  - apply Forall_forall. intros v Hv. rewrite <- Hp. by right.
  - apply StronglySorted_inv in Ho as [_ Hall].
    eapply Forall_impl; [exact Hall|]. intros v Hv. simpl.
    unfold less, repo.After in Hv. apply Z.ltb_ge in Hv. lia.
  - intros k. simpl. rewrite elem_of_ExtractUniqueKeywords.
    split; intros (v & Hv & Hk); exists v; (split; [|done]).
    + by rewrite <- Hp.
    + by rewrite Hp.
Qed.

End LatestWrites.

Lemma getLatestChartsFromRepository_rewrites_cache_witness :
  exists latest rest index',
    {| helm.Metadata := latest; helm.Repo := helm.DisplayName demo_repository;
       helm.RepoUrl := helm.URL demo_repository |}
      ∈ fst (getLatestChartsFromRepository insertion_sorter demo_repository demo_world)
    /\ repoChartCache
         (snd (getLatestChartsFromRepository insertion_sorter demo_repository demo_world))
         !! helm.DisplayName demo_repository = Some index'
    /\ index' !! "demo" = Some (latest :: rest)
    /\ map (repo.set_Keywords []) (latest :: rest)
         ≡ₚ map (repo.set_Keywords []) [version_1; version_2]
    /\ Forall (fun v => v ∈ [version_1; version_2]) rest
    /\ Forall (fun v => repo.Created v <= repo.Created latest) rest
    /\ (forall k, k ∈ repo.Keywords latest
          <-> exists v, v ∈ [version_1; version_2] /\ k ∈ repo.Keywords v).
Proof.
  apply (proj1 (getLatestChartsFromRepository_rewrites_cache insertion_sorter
                  demo_repository demo_world demo_index "demo" [version_1; version_2]
                  eq_refl eq_refl ltac:(discriminate))).
Defined.

(** ** Deleting a repository *)

(** X20. The official and the local repository are protected against
    deletion whatever the case of the letters in the request: a name whose
    lower case is the lower case of either display name is refused with
    400 "repo not allowed for modification", before the cluster is asked,
    and nothing changes. *)
Theorem DeleteRepo_protected (admin : CatalogAdmin) (env : Env) (repoName : string)
  (w : World) (config : helm.MarketplaceServiceConfig) :
  GetMarketplaceServiceConfig env = Ok config ->
  strings_ToLower repoName = strings_ToLower (helm.OfficialHarborDisplayName config)
  \/ strings_ToLower repoName = strings_ToLower (helm.LocalHarborDisplayName config) ->
  DeleteRepo admin env repoName w
  = (({| Code := http.StatusBadRequest; Msg := "repo not allowed for modification";
         RData := nil_data |}, http.StatusBadRequest), w).
Proof.
  intros Hconfig Hname. unfold DeleteRepo, isRepoModificationAllowed. rewrite Hconfig.
  assert (String.eqb (strings_ToLower repoName)
            (strings_ToLower (helm.OfficialHarborDisplayName config))
          || String.eqb (strings_ToLower repoName)
               (strings_ToLower (helm.LocalHarborDisplayName config)) = true) as ->; [|done].
  apply orb_true_iff. destruct Hname as [->| ->]; [left|right]; apply String.eqb_refl.
Qed.

Lemma DeleteRepo_protected_witness :
  DeleteRepo obliging_admin catalog_env "OpenFuyao" harbor_world
  = (({| Code := http.StatusBadRequest; Msg := "repo not allowed for modification";
         RData := nil_data |}, http.StatusBadRequest), harbor_world).
Proof.
  apply (DeleteRepo_protected _ _ _ _ harbor_config); [reflexivity|by left].
Defined.

(** X21. For a repository name in ASCII, and protected display names in
    ASCII in the configuration: [DeleteRepo] changes the world only when it
    answers 200, and then only the chart cache: the entry under the
    lower-cased name is removed, every other entry stays, and the sync
    status is not cleared.  So for a name with an upper-case letter the
    entry cached under the name as it is displayed survives the deletion. *)
Theorem DeleteRepo_effect (admin : CatalogAdmin) (env : Env) (repoName : string)
  (w : World) :
  isASCII repoName = true ->
  (forall config, GetMarketplaceServiceConfig env = Ok config ->
     isASCII (helm.OfficialHarborDisplayName config) = true
     /\ isASCII (helm.LocalHarborDisplayName config) = true) ->
  let status := snd (fst (DeleteRepo admin env repoName w)) in
  let w' := snd (DeleteRepo admin env repoName w) in
  (status <> http.StatusOK -> w' = w)
  /\ (status = http.StatusOK ->
      repoChartCache w' = delete (strings_ToLower repoName) (repoChartCache w)
      /\ repoAsyncTaskMap w' = repoAsyncTaskMap w
      /\ officialHarborBearerToken w' = officialHarborBearerToken w
      /\ (strings_ToLower repoName <> repoName ->
          repoChartCache w' !! repoName = repoChartCache w !! repoName)).
Proof.
  intros _ _. cbv zeta. unfold DeleteRepo, isRepoModificationAllowed.
  destruct (GetMarketplaceServiceConfig env) as [config|e]; [|by split].
  destruct (_ || _); [by split|].
  destruct (CrExists admin _) as [[|]|e]; [|by split|by split].
  destruct (deleteRepoCR admin env _); [by split|]. simpl. split; [done|].
  intros _. repeat split. intros Hne. by apply lookup_delete_ne.
Qed.

Lemma DeleteRepo_effect_witness :
  repoChartCache
    (snd (DeleteRepo obliging_admin catalog_env "Demo-Repo"
            (set_cache {[ "Demo-Repo" := demo_index ]} empty_world)))
    !! "Demo-Repo"
  = repoChartCache (set_cache {[ "Demo-Repo" := demo_index ]} empty_world) !! "Demo-Repo".
Proof.
  refine (proj2 (proj2 (proj2 (proj2
    (DeleteRepo_effect obliging_admin catalog_env "Demo-Repo"
       (set_cache {[ "Demo-Repo" := demo_index ]} empty_world) eq_refl _) _))) _).
  - intros config [= <-]. by split.
  - reflexivity.
  - discriminate.
Defined.

(** ** Listing the repositories *)

Section RepoListFacts.

Variable S : sort.SliceSorter.

(** X22. For a search text in ASCII: [ListRepo] without a page limit,
    when the catalog can be read, answers 200 "success" with one page that
    holds exactly the repositories whose display name contains the
    lower-cased search text (all of them for an empty text), each once per
    catalog entry, with their display name and URL; the total counts them.
    Unless a descending order by name is asked for, they come ordered by
    [customCompare] on the display name.  Only the search text is
    lower-cased: the display name is compared as it is written. *)
Theorem ListRepo_lists (env : Env) (query : param.Query) (repo : string)
  (customRepoList : list helm.HelmChartRepository) (p : param.Pagination) :
  isASCII repo = true ->
  listCustomRepo env = Ok customRepoList ->
  param.QPagination query = Some p ->
  param.Limit p <= 0 \/ param.Offset p < 0 ->
  exists items,
    ListRepo S env query repo
    = Some ({| ListCode := constant.Success; ListMsg := "success";
               ListData := Some {| helm.Items := items; helm.TotalItems := len items;
                                   helm.CurrentPage := param.CurrentPage p;
                                   helm.TotalPages := 1 |} |}, http.StatusOK)
    /\ items ≡ₚ map (fun customRepo => {| RepoName := helm.DisplayName customRepo;
                                          RepoURL := helm.URL customRepo |})
                   (List.filter (fun customRepo =>
                      String.eqb repo ""
                      || strings_Contains (helm.DisplayName customRepo) (strings_ToLower repo))
                      customRepoList)
    /\ (forall r, r ∈ items <->
          exists customRepo, customRepo ∈ customRepoList
            /\ r = {| RepoName := helm.DisplayName customRepo;
                      RepoURL := helm.URL customRepo |}
            /\ (repo = EmptyString
                \/ strings_Contains (helm.DisplayName customRepo) (strings_ToLower repo)
                   = true))
    /\ (param.SortBy query <> param.Name \/ param.Ascending query = true ->
        StronglySorted (fun a b => customCompare b a ascendingOrder = false)
          (map RepoName items)).
Proof.
  intros _ Hlist Hpage Hbad. unfold ListRepo. rewrite Hlist, Hpage.
  set (matched := map _ (List.filter _ customRepoList)).
  unfold param.GetPaginationResult.
  assert (((param.Limit p <=? 0) || (param.Offset p <? 0)) = true) as ->.
  { apply orb_true_iff. destruct Hbad; [left; apply Z.leb_le|right; apply Z.ltb_lt]; lia. }
  rewrite slice_all. eexists. split; [reflexivity|].
  assert (Hperm : sortRepoResponse S query matched ≡ₚ matched).
  { unfold sortRepoResponse, sortRepoByName.
    destruct (String.eqb (param.SortBy query) param.Name);
      [destruct (param.Ascending query)|]; apply sort.Slice_perm. }
  split; [exact Hperm|]. split.
  - intros r. rewrite Hperm. unfold matched.
    rewrite list_elem_of_In, in_map_iff. split.
    + intros (customRepo & <- & Hin). apply filter_In in Hin as [Hin Hf].
      exists customRepo. split; [by apply list_elem_of_In|]. split; [done|].
      apply orb_true_iff in Hf as [Hf|Hf]; [left; by apply String.eqb_eq|by right].
    + intros (customRepo & Hin & -> & Hf). exists customRepo. split; [done|].
      apply filter_In. split; [by apply list_elem_of_In|].
      apply orb_true_iff. destruct Hf as [->|Hf]; [by left|by right].
  - intros Hasc. unfold sortRepoResponse, sortRepoByName.
    assert (Hsorted :
      StronglySorted (fun a b => customCompare b a ascendingOrder = false)
        (map RepoName
           (sort.Slice S (fun ri rj => customCompare (RepoName ri) (RepoName rj) ascendingOrder)
              matched))).
    { apply (StronglySorted_fmap RepoName
               (fun x y => customCompare (RepoName y) (RepoName x) ascendingOrder = false));
        [done|].
      apply (sort.Slice_ordered S).
      apply (StrictWeak_on RepoName _ customCompare_strict_weak). }
    destruct (String.eqb_spec (param.SortBy query) param.Name) as [Heq|Hne]; [|done].
    destruct Hasc as [Hasc| ->]; [done|done].
Qed.

End RepoListFacts.

Lemma ListRepo_lists_witness :
  exists items,
    ListRepo insertion_sorter catalog_env
      {| param.QPagination := Some param.GetNoPagination; param.SortBy := "name";
         param.Ascending := true |} "Demo-Repo"
    = Some ({| ListCode := constant.Success; ListMsg := "success";
               ListData := Some {| helm.Items := items; helm.TotalItems := len items;
                                   helm.CurrentPage := 1; helm.TotalPages := 1 |} |},
            http.StatusOK)
    /\ items ≡ₚ [ {| RepoName := "demo-repo"; RepoURL := "https://charts.example/demo" |} ].
Proof.
  destruct (ListRepo_lists insertion_sorter catalog_env
              {| param.QPagination := Some param.GetNoPagination; param.SortBy := "name";
                 param.Ascending := true |} "Demo-Repo" [demo_repository]
              param.GetNoPagination eq_refl eq_refl eq_refl)
    as (items & Heq & Hperm & _).
  - left. vm_compute. discriminate.
  - exists items. split; [exact Heq|exact Hperm].
Defined.

(** ** The size of an upload *)

Lemma CheckFileSize_loop_eof (counts : list int) (size lastCount maxFileSize : int) :
  0 <= size -> Forall (fun n => 0 <= n) counts -> 0 <= lastCount ->
  size + fold_right Z.add 0 counts + lastCount <= maxInt ->
  CheckFileSize_loop size counts lastCount AtEOF maxFileSize
  = Ok (size + fold_right Z.add 0 counts + lastCount <=? maxFileSize).
Proof.
  revert size. induction counts as [|n counts IH]; intros size Hs Hall Hl Hmax; simpl.
  - simpl in Hmax. unfold int_add. rewrite wrap_id by int_range. rewrite Z.add_0_r.
    rewrite Z.gtb_ltb, Z.leb_antisym. by destruct (_ <? _).
  - apply Forall_cons in Hall as [Hn Hall]. simpl in Hmax.
    assert (0 <= fold_right Z.add 0 counts).
    { clear -Hall. induction Hall; simpl; lia. }
    unfold int_add. rewrite wrap_id by int_range.
    destruct (Z.gtb_spec (size + n) maxFileSize) as [Hgt|Hle].
    + f_equal. symmetry. apply Z.leb_gt. lia.
    + rewrite IH by (try done; lia). f_equal. f_equal. lia.
Qed.

Lemma CheckFileSize_loop_failed (counts : list int) (size lastCount maxFileSize : int)
  (msg : string) :
  CheckFileSize_loop size counts lastCount (ReadFailed msg) maxFileSize <> Ok true.
Proof.
  revert size. induction counts as [|n counts IH]; intros size; simpl; [done|].
  destruct (_ >? _); [done|apply IH].
Qed.

(** X23. With a buffer size that is not negative, and for a file whose
    reads deliver no negative count and less than 2^63 bytes in all,
    [CheckFileSize] answers [true] exactly when the file was read to its end
    and holds at most [maxFileSize] bytes; read to the end, its answer is
    whether the size is within the limit, so stopping at the first excess
    loses nothing.  A read error never gives [true]. *)
Theorem CheckFileSize_verdict (file : FileReads) (bufferSize maxFileSize : int) :
  0 <= bufferSize ->
  Forall (fun n => 0 <= n) (readCounts file) -> 0 <= lastCount file ->
  fileSize file <= maxInt ->
  (CheckFileSize file bufferSize maxFileSize = Some (Ok true)
   <-> ending file = AtEOF /\ fileSize file <= maxFileSize)
  /\ (ending file = AtEOF ->
      CheckFileSize file bufferSize maxFileSize
      = Some (Ok (fileSize file <=? maxFileSize))).
Proof.
  intros Hb Hall Hl Hmax. unfold CheckFileSize, fileSize in *.
  apply Z.ltb_ge in Hb. rewrite Hb.
  destruct (ending file) as [|msg] eqn:Hend.
  - rewrite CheckFileSize_loop_eof by (try done; lia). rewrite Z.add_0_l. split; [|done].
    split.
    + intros [= H]. split; [done|]. by apply Z.leb_le.
    + intros [_ H]. do 2 f_equal. by apply Z.leb_le.
  - split; [|done]. split; [|by intros [? _]].
    intros [= H]. by apply CheckFileSize_loop_failed in H.
Qed.

Lemma CheckFileSize_verdict_witness :
  CheckFileSize small_upload 1024 100 = Some (Ok (fileSize small_upload <=? 100)).
Proof.
  apply (proj2 (CheckFileSize_verdict small_upload 1024 100 ltac:(lia)
                  ltac:(repeat constructor; lia) ltac:(simpl; lia)
                  ltac:(vm_compute; discriminate))).
  reflexivity.
Defined.

(** ** The TLS configuration of a repository *)

Section HarborTLSFacts.

Variables Certificate CertPool : Type.
Variable X509KeyPair : string -> string -> result Certificate.
Variable AppendCertsFromPEM : string -> option CertPool.

(** X24. For every repository but the official one, the verification of
    the server certificate is switched off ([InsecureSkipVerify]) as soon as
    the certificate, the key or the CA of the entry is empty, and also
    whenever the flag [InsecureSkipTLSverify] of the entry is false.  A
    configuration that verifies the server comes only from an entry with the
    flag set and all three PEM texts: it then trusts the pool read from the
    CA and accepts no protocol below TLS 1.2. *)
Theorem GetHarborHTTPConfig_policy (repoEntry : repo.Entry) :
  repo.EntryName repoEntry <> "openfuyao" ->
  (repo.InsecureSkipTLSverify repoEntry = false \/ repo.CertFile repoEntry = EmptyString
   \/ repo.KeyFile repoEntry = EmptyString \/ repo.CAFile repoEntry = EmptyString ->
   GetHarborHTTPConfig Certificate CertPool X509KeyPair AppendCertsFromPEM repoEntry
   = Ok (Some {| Certificates := []; MinVersion := 0; MaxVersion := 0; RootCAs := None;
                 ClientAuth := 0; InsecureSkipVerify := true; CipherSuites := [] |}))
  /\ (forall c,
        GetHarborHTTPConfig Certificate CertPool X509KeyPair AppendCertsFromPEM repoEntry
        = Ok (Some c) ->
        InsecureSkipVerify c = false ->
        repo.InsecureSkipTLSverify repoEntry = true
        /\ repo.CertFile repoEntry <> EmptyString
        /\ repo.KeyFile repoEntry <> EmptyString
        /\ repo.CAFile repoEntry <> EmptyString
        /\ (exists pool, AppendCertsFromPEM (repo.CAFile repoEntry) = Some pool
                         /\ RootCAs c = Some pool)
        /\ MinVersion c = tls.VersionTLS12).
Proof.
  intros Hname. apply String.eqb_neq in Hname.
  unfold GetHarborHTTPConfig, IsHttpsEnabledByPEM, GetHttpConfigByPEM. rewrite Hname.
  destruct (String.eqb_spec (repo.CertFile repoEntry) "") as [Hc|Hc];
    [split; [by rewrite andb_false_r|intros c; rewrite andb_false_r; by intros [= <-]]|].
  destruct (String.eqb_spec (repo.KeyFile repoEntry) "") as [Hk|Hk];
    [split; [by rewrite andb_false_r|intros c; rewrite andb_false_r; by intros [= <-]]|].
  destruct (String.eqb_spec (repo.CAFile repoEntry) "") as [Ha|Ha];
    [split; [by rewrite andb_false_r|intros c; rewrite andb_false_r; by intros [= <-]]|].
  destruct (repo.InsecureSkipTLSverify repoEntry) eqn:Hflag; simpl.
  - split; [by intros [?|[?|[?|?]]]|].
    destruct (X509KeyPair _ _) as [cert|e]; [|done].
    destruct (AppendCertsFromPEM _) as [pool|] eqn:Hpool; [|done].
    intros c Hc' _.
    destruct (String.eqb (repo.EntryName repoEntry) "local"); injection Hc' as <-;
      repeat split; try done; by exists pool.
  - rewrite andb_false_r. split; [done|]. by intros c [= <-].
Qed.

End HarborTLSFacts.

Lemma GetHarborHTTPConfig_policy_witness :
  GetHarborHTTPConfig string string (fun _ _ => Ok "pair") (fun _ => Some "pool") demo_entry
  = Ok (Some {| Certificates := []; MinVersion := 0; MaxVersion := 0; RootCAs := None;
                ClientAuth := 0; InsecureSkipVerify := true; CipherSuites := [] |}).
Proof.
  apply (GetHarborHTTPConfig_policy string string (fun _ _ => Ok "pair")
           (fun _ => Some "pool") demo_entry); [discriminate|by left].
Defined.

(** ** Streaming the archive of a chart *)

Lemma len_take_full {A} (l : list A) (n : nat) :
  (n < List.length l)%nat -> len (take n l) = Z.of_nat n.
Proof. intros H. unfold len. rewrite length_take. lia. Qed.

Lemma streamChunks_spec (size : int) (fuel : nat) (Send : nat -> bytes -> option error)
  (k : nat) (chartBytes : bytes) :
  0 < size ->
  (List.length chartBytes < fuel)%nat ->
  exists e sent rest,
    streamChunks size fuel Send k chartBytes = Some (e, sent)
    /\ chartBytes = concat sent ++ rest
    /\ Forall (fun chunk => 0 < len chunk <= size) sent
    /\ full_but_last size sent
    /\ (forall i chunk, sent !! i = Some chunk -> Send (k + i)%nat chunk = None)
    /\ match e with
       | None => rest = []
       | Some err =>
           rest <> [] /\ Send (k + List.length sent)%nat (take (Z.to_nat size) rest)
                        = Some err
       end.
Proof.
  intros Hsize. revert k chartBytes.
  induction fuel as [|fuel IH]; intros k l Hfuel; [lia|].
  cbn [streamChunks]. unfold len at 1.
  destruct (Z.ltb_spec 0 (Z.of_nat (List.length l))) as [Hpos|Hzero].
  - destruct (Send k (take (Z.to_nat size) l)) as [err|] eqn:Hsend.
    + exists (Some err), [], l. repeat split; try done.
      * intros ->. simpl in Hpos. lia.
      * by rewrite Nat.add_0_r.
    + destruct (IH (Datatypes.S k) (drop (Z.to_nat size) l)) as
        (e & sent & rest & -> & Hcat & Hall & Hfull & Hsent & He).
      { rewrite length_drop. lia. }
      exists e, (take (Z.to_nat size) l :: sent), rest. split; [done|].
      split; [|split; [|split; [|split]]].
      * cbn [concat]. rewrite <- app_assoc, <- Hcat. by rewrite take_drop.
      * constructor; [|done]. unfold len. rewrite length_take. lia.
      * cbn [full_but_last]. split; [|done]. destruct sent as [|chunk sent]; [done|].
        apply Forall_cons in Hall as [Hchunk _].
        rewrite len_take_full; [lia|].
        apply (f_equal (@List.length _)) in Hcat. cbn [concat] in Hcat.
        rewrite length_drop, !length_app in Hcat. unfold len in Hchunk. lia.
      * intros [|i] chunk Hi.
        -- injection Hi as <-. by rewrite Nat.add_0_r.
        -- rewrite Nat.add_succ_r. by apply (Hsent i).
      * destruct e as [err|]; [|done]. destruct He as [Hne He]. split; [done|].
        cbn [List.length]. by rewrite Nat.add_succ_r.
  - exists None, [], []. destruct l; [|simpl in Hzero; lia]. by repeat split.
Qed.

(** X25. [GetHelmChart] always ends: once the archive is loaded it sends it
    in order, in chunks of at most 16384 bytes of which none is empty and
    only the last may be short.  When no [Send] fails the chunks add up to
    the whole archive and no error is returned; otherwise the error is the
    one of the first failing [Send], whose chunk and all that follow are not
    sent.  When the archive cannot be loaded nothing is sent and the error
    is the internal one. *)
Theorem GetHelmChart_streams (LoadOCI : string -> repo.Entry -> result bytes) (env : Env)
  (Send : nat -> bytes -> option error) (repoName chartName chartVersion : string)
  (w w' : World) :
  (forall chartBytes,
     GetChartBytesByVersion LoadOCI env repoName chartName chartVersion w
     = Some (Ok chartBytes, w') ->
     exists e sent rest,
       GetHelmChart LoadOCI env Send repoName chartName chartVersion w
       = Some ((e, sent), w')
       /\ chartBytes = concat sent ++ rest
       /\ Forall (fun chunk => 0 < len chunk <= chunkSize) sent
       /\ full_but_last chunkSize sent
       /\ (forall i chunk, sent !! i = Some chunk -> Send i chunk = None)
       /\ match e with
          | None => rest = []
          | Some err =>
              rest <> [] /\ Send (List.length sent) (take (Z.to_nat chunkSize) rest)
                           = Some err
          end)
  /\ (forall err,
       GetChartBytesByVersion LoadOCI env repoName chartName chartVersion w
       = Some (Err err, w') ->
       GetHelmChart LoadOCI env Send repoName chartName chartVersion w
       = Some ((Some (Other "internal server error"), []), w')).
Proof.
  split.
  - intros chartBytes Hget. unfold GetHelmChart. rewrite Hget.
    destruct (streamChunks_spec chunkSize (Datatypes.S (List.length chartBytes)) Send 0
                chartBytes) as (e & sent & rest & -> & H); [reflexivity|lia|].
    by exists e, sent, rest.
  - intros err Hget. unfold GetHelmChart. by rewrite Hget.
Qed.

(** ** The configuration of the server *)

(** X26. [Validate] finds nothing to report exactly when one of the two
    ports is set and, for a secure port from 1 to 65534, the certificate and
    the key are named and [os.Stat] finds both.  The secure ports outside
    that range, 65535 and the negative ones among them, are accepted without
    any look at the certificate or the key; and there are never more than
    three errors. *)
Theorem Validate_accepts (Stat : string -> option error) (s : runtime.ServerConfig) :
  (runtime.Validate Stat s = []
   <-> (runtime.SecurePort s <> 0 \/ runtime.InsecurePort s <> 0)
       /\ (0 < runtime.SecurePort s < runtime.maxSecurePort ->
           runtime.CertFile s <> EmptyString /\ Stat (runtime.CertFile s) = None
           /\ runtime.PrivateKey s <> EmptyString /\ Stat (runtime.PrivateKey s) = None))
  /\ (runtime.SecurePort s < 0 \/ runtime.maxSecurePort <= runtime.SecurePort s ->
      runtime.Validate Stat s = [])
  /\ (List.length (runtime.Validate Stat s) <= 3)%nat.
Proof.
  unfold runtime.Validate, runtime.maxSecurePort.
  destruct (Z.eqb_spec (runtime.SecurePort s) 0) as [Hs|Hs];
    destruct (Z.eqb_spec (runtime.InsecurePort s) 0) as [Hi|Hi];
    destruct (Z.gtb_spec (runtime.SecurePort s) 0) as [Hpos|Hpos];
    destruct (Z.ltb_spec (runtime.SecurePort s) 65535) as [Hlt|Hlt];
    cbn [andb app]; try lia;
    destruct (String.eqb_spec (runtime.CertFile s) "") as [Hc|Hc];
    destruct (String.eqb_spec (runtime.PrivateKey s) "") as [Hk|Hk];
    destruct (Stat (runtime.CertFile s)) as [e1|];
    destruct (Stat (runtime.PrivateKey s)) as [e2|];
    cbn [app List.length];
    (split; [split|split];
     [first [discriminate | intros _; split; [lia|]; intros; first [lia | by repeat split]]
     |intros [Hp H];
      first [done | destruct Hp; lia
            | destruct H as (? & ? & ? & ?); [lia|congruence]]
     |intros [?|?]; first [lia | done]
     |lia]).
Qed.

(** ** Cleaning what is logged *)

Lemma append_nil_r (a : string) : a +:+ EmptyString = a.
Proof. induction a as [|c a IH]; [done|]. by rewrite append_cons, IH. Qed.

Lemma ReplaceAll_byte_cons (c old : ascii) (new s : string) :
  strings_ReplaceAll_byte (String c s) old new
  = if Ascii.eqb c old then new +:+ strings_ReplaceAll_byte s old new
    else String c (strings_ReplaceAll_byte s old new).
Proof. reflexivity. Qed.

Lemma ReplaceAll_byte_lacks (s : string) (old : ascii) (new : string) :
  lacks old s -> strings_ReplaceAll_byte s old new = s.
Proof.
  induction s as [|c s IH]; [done|]. intros [Hc Hs]%lacks_cons.
  rewrite ReplaceAll_byte_cons. apply Ascii.eqb_neq in Hc. by rewrite Hc, (IH Hs).
Qed.

Lemma ReplaceAll_byte_app (a b : string) (old : ascii) (new : string) :
  strings_ReplaceAll_byte (a +:+ b) old new
  = strings_ReplaceAll_byte a old new +:+ strings_ReplaceAll_byte b old new.
Proof.
  induction a as [|c a IH]; [done|].
  rewrite append_cons, !ReplaceAll_byte_cons, IH.
  destruct (Ascii.eqb c old); [by rewrite append_assoc|by rewrite append_cons].
Qed.

Lemma ReplaceAll_byte_comm (s : string) (c1 c2 : ascii) (n1 n2 : string) :
  c1 <> c2 -> lacks c2 n1 -> lacks c1 n2 ->
  strings_ReplaceAll_byte (strings_ReplaceAll_byte s c1 n1) c2 n2
  = strings_ReplaceAll_byte (strings_ReplaceAll_byte s c2 n2) c1 n1.
Proof.
  intros Hne H1 H2. induction s as [|c s IH]; [done|].
  rewrite !ReplaceAll_byte_cons.
  destruct (Ascii.eqb_spec c c1) as [E1|Hc1]; destruct (Ascii.eqb_spec c c2) as [E2|Hc2];
    try subst c.
  - by subst c2.
  - rewrite ReplaceAll_byte_app, (ReplaceAll_byte_lacks n1) by done.
    rewrite ReplaceAll_byte_cons, Ascii.eqb_refl. by rewrite IH.
  - rewrite ReplaceAll_byte_app, (ReplaceAll_byte_lacks n2) by done.
    rewrite ReplaceAll_byte_cons, Ascii.eqb_refl. by rewrite IH.
  - rewrite !ReplaceAll_byte_cons.
    apply Ascii.eqb_neq in Hc1, Hc2. by rewrite Hc1, Hc2, IH.
Qed.

Lemma ReplaceAll_byte_removes (s : string) (old : ascii) (new : string) :
  lacks old new -> lacks old (strings_ReplaceAll_byte s old new).
Proof.
  intros Hnew. induction s as [|c s IH]; [done|]. rewrite ReplaceAll_byte_cons.
  destruct (Ascii.eqb_spec c old) as [->|Hc].
  - by apply lacks_app.
  - by apply lacks_cons.
Qed.

Lemma ReplaceAll_byte_keeps (s : string) (c old : ascii) (new : string) :
  lacks c s -> lacks c new -> lacks c (strings_ReplaceAll_byte s old new).
Proof.
  intros Hs Hnew. induction s as [|d s IH]; [done|].
  apply lacks_cons in Hs as [Hd Hs]. rewrite ReplaceAll_byte_cons.
  destruct (Ascii.eqb d old).
  - apply lacks_app. split; [done|by apply IH].
  - apply lacks_cons. split; [done|by apply IH].
Qed.

Lemma replaceSpecial_cons (oldChar : ascii) (newChar : string)
  (order : list (ascii * string)) (s : string) :
  replaceSpecial ((oldChar, newChar) :: order) s
  = replaceSpecial order (strings_ReplaceAll_byte s oldChar newChar).
Proof. reflexivity. Qed.

Lemma harmless_specialCharMap : harmless specialCharMap.
Proof.
  split.
  - repeat (constructor; [simpl; intuition discriminate|]). constructor.
  - repeat constructor.
Qed.

Lemma harmless_tail (e : ascii * string) (order : list (ascii * string)) :
  harmless (e :: order) -> harmless order.
Proof.
  intros [Hnd Hall]. split.
  - by inversion Hnd.
  - apply Forall_cons in Hall as [_ Hall].
    eapply List.Forall_impl; [|exact Hall]. intros [c n] H. by apply Forall_cons in H as [_ H].
Qed.

Lemma harmless_Permutation (order order' : list (ascii * string)) :
  Permutation order order' -> harmless order -> harmless order'.
Proof.
  intros Hp [Hnd Hall]. split.
  - eapply Permutation_NoDup; [|exact Hnd]. by apply Permutation_map.
  - rewrite List.Forall_forall in *. intros [c n] Hin.
    assert (Hin' : In (c, n) order) by (by apply (Permutation_in _ (Permutation_sym Hp))).
    specialize (Hall _ Hin'). simpl in Hall. rewrite List.Forall_forall in *.
    intros [c' n'] Hin2. apply (Hall (c', n')).
    by apply (Permutation_in _ (Permutation_sym Hp)).
Qed.

Lemma replaceSpecial_Permutation (order order' : list (ascii * string)) (s : string) :
  Permutation order order' -> harmless order ->
  replaceSpecial order s = replaceSpecial order' s.
Proof.
  intros Hp. revert s. induction Hp as [|[c n] l l' Hp IH|[c1 n1] [c2 n2] l|l l' l'' Hp1 IH1 Hp2 IH2];
    intros s Hh.
  - done.
  - rewrite !replaceSpecial_cons. apply IH. by apply harmless_tail in Hh.
  - rewrite !replaceSpecial_cons. f_equal.
    destruct Hh as [Hnd Hall]. apply ReplaceAll_byte_comm.
    + simpl in Hnd. inversion Hnd as [|? ? Hnot _]. intros ->. apply Hnot. by left.
    + apply Forall_cons in Hall as [H _]. apply Forall_cons in H as [_ H].
      by apply Forall_cons in H as [H _].
    + apply Forall_cons in Hall as [_ Hall]. apply Forall_cons in Hall as [H _].
      by apply Forall_cons in H as [H _].
  - rewrite IH1 by done. apply IH2. by apply (harmless_Permutation l).
Qed.

Lemma replaceSpecial_keeps (order : list (ascii * string)) (s : string) (c : ascii) :
  Forall (fun '(_, newChar) => lacks c newChar) order -> lacks c s ->
  lacks c (replaceSpecial order s).
Proof.
  revert s. induction order as [|[c1 n1] order IH]; intros s Hall Hs; [done|].
  apply Forall_cons in Hall as [H1 Hall]. rewrite replaceSpecial_cons.
  apply IH; [done|]. by apply ReplaceAll_byte_keeps.
Qed.

Lemma replaceSpecial_removes (order : list (ascii * string)) (s : string) (c : ascii) :
  harmless order -> In c (map fst order) -> lacks c (replaceSpecial order s).
Proof.
  revert s. induction order as [|[c1 n1] order IH]; intros s Hh Hc; [done|].
  rewrite replaceSpecial_cons. destruct Hc as [Hc|Hc].
  - simpl in Hc. subst c1. destruct Hh as [_ Hall].
    assert (Hc : Forall (fun '(_, newChar) => lacks c newChar) ((c, n1) :: order)).
    { rewrite List.Forall_forall in *. intros [c' n'] Hin. specialize (Hall _ Hin).
      simpl in Hall. by apply Forall_cons in Hall as [Hall _]. }
    apply Forall_cons in Hc as [Hn1 Hc].
    apply replaceSpecial_keeps; [done|]. by apply ReplaceAll_byte_removes.
  - apply IH; [by apply harmless_tail in Hh|done].
Qed.

Section Cleaning.

(** [strings.TrimSpace] gives back a piece of its argument. *)
Variable TrimSpace : string -> string.
Hypothesis TrimSpace_cuts : forall s, exists a b, s = a +:+ TrimSpace s +:+ b.

(** X27. The order in which the range over [specialCharMap] visits its
    entries does not show in the result of [CleanSpecialChar], and the
    result holds no line feed, no carriage return, no tab and no zero byte.
    A text without these four bytes is only trimmed. *)
Theorem CleanSpecialChar_clean (order : list (ascii * string)) (s : string) :
  Permutation order specialCharMap ->
  CleanSpecialChar TrimSpace order s = CleanSpecialChar TrimSpace specialCharMap s
  /\ Forall (fun '(c, _) => lacks c (CleanSpecialChar TrimSpace order s)) specialCharMap
  /\ (Forall (fun '(c, _) => lacks c s) specialCharMap ->
      CleanSpecialChar TrimSpace order s = TrimSpace s).
Proof.
  intros Hp. pose proof harmless_specialCharMap as Hh.
  assert (Hh' : harmless order) by (by apply (harmless_Permutation specialCharMap)).
  unfold CleanSpecialChar. fold (replaceSpecial order s) (replaceSpecial specialCharMap s).
  destruct (String.eqb_spec s "") as [->|Hs].
  - split; [done|]. split; [by repeat constructor|].
    intros _. destruct (TrimSpace_cuts "") as (a & b & H).
    destruct a; [|done]. rewrite append_nil in H. by destruct (TrimSpace "").
  - split; [by rewrite (replaceSpecial_Permutation order specialCharMap)|]. split.
    + rewrite List.Forall_forall. intros [c n] Hin.
      destruct (TrimSpace_cuts (replaceSpecial order s)) as (a & b & H).
      assert (Hl : lacks c (replaceSpecial order s)).
      { apply replaceSpecial_removes; [done|].
        apply (Permutation_in (l := map fst specialCharMap));
          [symmetry; by apply Permutation_map|].
        by apply (in_map fst) in Hin. }
      rewrite H in Hl. apply lacks_app in Hl as [_ Hl]. by apply lacks_app in Hl as [Hl _].
    + intros Hall. f_equal. rewrite (replaceSpecial_Permutation order specialCharMap) by done.
      do 4 (apply Forall_cons in Hall as [? Hall]).
      unfold replaceSpecial, specialCharMap. cbn [fold_left].
      by do 4 (rewrite (ReplaceAll_byte_lacks s) by done).
Qed.

End Cleaning.

Lemma CleanSpecialChar_clean_witness :
  CleanSpecialChar (fun s => s) (rev specialCharMap) (String "010"%char "a")
  = CleanSpecialChar (fun s => s) specialCharMap (String "010"%char "a").
Proof.
  refine (proj1 (CleanSpecialChar_clean (fun s => s) _ (rev specialCharMap)
                   (String "010"%char "a") _)).
  - intros s. exists EmptyString, EmptyString. by rewrite append_nil, append_nil_r.
  - symmetry. apply Permutation_rev.
Defined.
